(** * ELF-Packer: a shallow embedding of [elf_packer.py]

    The packer reads a 32-bit ELF image into a [bytearray], parses the ELF
    header and the section header table, XORs the bytes of [.text] with a
    one-byte key, looks for a run of zero bytes large enough for the decoder
    stub, redirects the entry point to it and copies the stub there.

    Python integers are modelled by [Z], the [bytearray] by [list byte],
    the type-keyed dictionary of sections by an association list in
    insertion order, and a method of [Elf] by a function from the object to
    an outcome and the object after the call (an exception leaves the
    mutations made so far in place). *)

From Stdlib Require Import ZArith Lia List String Ascii Strings.Byte DecimalString.
From stdpp Require Import base tactics option list numbers strings.

Local Open Scope Z_scope.
Local Open Scope list_scope.

(** ** Outcomes and exceptions *)

Inductive exn : Type :=
  | IndexError | ValueError | KeyError | AttributeError | TypeError
  | NameError | StructError
  | AsmError              (* the assembler rejected the stub *)
  | SystemExit (code : Z).

(** [OutOfFuel] is the outcome of a [while] loop that was given too few
    iterations; the entry points below pass a bound that is never reached. *)
Inductive outcome (A : Type) : Type :=
  | Ret (a : A)
  | Raise (e : exn)
  | OutOfFuel.
Arguments Ret {A} a.
Arguments Raise {A} e.
Arguments OutOfFuel {A}.

Definition obind {A B} (m : outcome A) (k : A -> outcome B) : outcome B :=
  match m with
  | Ret a => k a
  | Raise e => Raise e
  | OutOfFuel => OutOfFuel
  end.

Definition attr {A} (o : option A) : outcome A :=
  match o with Some a => Ret a | None => Raise AttributeError end.

(** ** Bytes and the [bytearray] *)

Definition byte_val (b : byte) : Z := Z.of_N (Byte.to_N b).

(** Storing an [int] into a [bytearray] requires it to be in [range(256)]. *)
Definition byte_of_int (v : Z) : outcome byte :=
  if v <? 0 then Raise ValueError
  else match Byte.of_N (Z.to_N v) with
       | Some b => Ret b
       | None => Raise ValueError
       end.

Definition len {A} (l : list A) : Z := Z.of_nat (length l).

(** [l[i]]: a negative index counts from the end. *)
Definition getitem (l : list byte) (i : Z) : outcome Z :=
  let j := if i <? 0 then i + len l else i in
  if j <? 0 then Raise IndexError
  else match l !! Z.to_nat j with
       | Some b => Ret (byte_val b)
       | None => Raise IndexError
       end.

(** [l[i] = v] *)
Definition setitem (l : list byte) (i v : Z) : outcome (list byte) :=
  obind (byte_of_int v) (fun b =>
  let j := if i <? 0 then i + len l else i in
  if j <? 0 then Raise IndexError
  else if j <? len l then Ret (<[Z.to_nat j := b]> l)
  else Raise IndexError).

(** Bounds of a slice [l[a:b]], clamped the way Python clamps them. *)
Definition clamp {A} (l : list A) (i : Z) : nat :=
  Z.to_nat (if i <? 0 then Z.max 0 (i + len l) else Z.min i (len l)).

Definition slice {A} (l : list A) (a b : Z) : list A :=
  take (clamp l b - clamp l a)%nat (drop (clamp l a) l).

(** [l[a:b] = v] *)
Definition set_slice {A} (l : list A) (a b : Z) (v : list A) : list A :=
  take (clamp l a) l ++ v ++ drop (Nat.max (clamp l a) (clamp l b)) l.

(** ** [struct] and [p32] *)

(** Little-endian value of a byte string (the packer runs on x86, whose
    native order [unpack] uses). *)
Fixpoint le_int (bs : list byte) : Z :=
  match bs with
  | [] => 0
  | b :: r => byte_val b + 256 * le_int r
  end.

Definition field (buf : list byte) (off width : nat) : Z :=
  le_int (take width (drop off buf)).

Definition total_byte (v : Z) : byte :=
  match Byte.of_N (Z.to_N (v mod 256)) with Some b => b | None => x00 end.

(** [p32(v)]: four little-endian bytes; pwntools refuses a value that does
    not fit an unsigned 32-bit word. *)
Definition p32 (v : Z) : outcome (list byte) :=
  if (0 <=? v) && (v <? 2 ^ 32)
  then Ret [total_byte v; total_byte (v / 2 ^ 8);
            total_byte (v / 2 ^ 16); total_byte (v / 2 ^ 24)]
  else Raise StructError.

(** ** The data model *)

Definition EI_NIDENT : Z := 16.
Definition ELF32_EHDR_SZ : Z := 36 + EI_NIDENT.

Definition ETYPE_DIC : list (Z * string) :=
  [(0, "No file type"%string); (1, "Relocatable file"%string);
   (2, "Executable file"%string); (3, "Shared object file"%string);
   (4, "Core file"%string)].

(** The members of the enumeration [SectionType]. *)
Inductive SectionType : Type :=
  | SHT_NULL | SHT_PROGBITS | SHT_SYMTAB | SHT_STRTAB | SHT_RELA | SHT_HASH
  | SHT_DYNAMIC | SHT_NOTE | SHT_NOBITS | SHT_REL | SHT_SHLIB | SHT_DYNSYM
  | SHT_LOPROC | SHT_HIPROC | SHT_LOUSER | SHT_HIUSER.

Definition SectionType_value (t : SectionType) : Z :=
  match t with
  | SHT_NULL => 0 | SHT_PROGBITS => 1 | SHT_SYMTAB => 2 | SHT_STRTAB => 3
  | SHT_RELA => 4 | SHT_HASH => 5 | SHT_DYNAMIC => 6 | SHT_NOTE => 7
  | SHT_NOBITS => 8 | SHT_REL => 9 | SHT_SHLIB => 10 | SHT_DYNSYM => 11
  | SHT_LOPROC => 0x70000000 | SHT_HIPROC => 0x7fffffff
  | SHT_LOUSER => 0x80000000 | SHT_HIUSER => 0xffffffff
  end.

#[global] Instance SectionType_eq_dec : EqDecision SectionType.
Proof. solve_decision. Defined.

(** The two kinds of Python value that meet in a comparison of the packer:
    an [int] read by [unpack] and a member of [SectionType].  [SectionType]
    derives from [Enum], not [IntEnum]: a member is equal to itself only,
    and never to an [int], whatever its value. *)
Inductive pyval : Type :=
  | PyInt (z : Z)
  | PyEnum (m : SectionType).

Definition py_eq (a b : pyval) : bool :=
  match a, b with
  | PyInt x, PyInt y => x =? y
  | PyEnum m, PyEnum n => bool_decide (m = n)
  | _, _ => false
  end.

(** An object of class [Section]; [name] is set after the table is read. *)
Record ElfSection : Type := mkSection {
  sh_name : Z; sh_type : Z; sh_flags : Z; sh_addr : Z; sh_offset : Z;
  sh_size : Z; sh_link : Z; sh_info : Z; sh_addralign : Z; sh_entsize : Z;
  name : option string }.

Definition with_name (s : string) (sec : ElfSection) : ElfSection :=
  mkSection (sh_name sec) (sh_type sec) (sh_flags sec) (sh_addr sec)
            (sh_offset sec) (sh_size sec) (sh_link sec) (sh_info sec)
            (sh_addralign sec) (sh_entsize sec) (Some s).

(** The fields [parse_header] assigns. *)
Record Ehdr : Type := mkEhdr {
  e_ident : list byte; e_type : Z; e_machine : Z; e_version : Z;
  e_entry : Z; e_phoff : Z; e_shoff : Z; e_flags : Z; e_ehsize : Z;
  e_phentsize : Z; e_phnum : Z; e_shentsize : Z; e_shnum : Z;
  e_shstrndx : Z }.

(** A [dict] keyed by section type: insertion order is iteration order. *)
Definition dict (V : Type) : Type := list (Z * V).

Fixpoint dict_get {V} (d : dict V) (k : Z) : option V :=
  match d with
  | [] => None
  | (k', v) :: d' => if k' =? k then Some v else dict_get d' k
  end.

(** [d[k] = v]: an existing key keeps its place, a new one goes last. *)
Fixpoint dict_set {V} (d : dict V) (k : Z) (v : V) : dict V :=
  match d with
  | [] => [(k, v)]
  | (k', v') :: d' =>
      if k' =? k then (k', v) :: d' else (k', v') :: dict_set d' k v
  end.

Definition keys {V} (d : dict V) : list Z := map fst d.

(** An object of class [Elf].  An attribute that has not been assigned yet
    is [None]; reading it raises [AttributeError]. *)
Record Elf : Type := mkElf {
  elf_name : string;
  data : list byte;
  header : option Ehdr;
  sections : option (dict (list ElfSection));
  string_table_offset : option Z }.

Definition set_data (d : list byte) (self : Elf) : Elf :=
  mkElf (elf_name self) d (header self) (sections self)
        (string_table_offset self).
Definition set_header (h : Ehdr) (self : Elf) : Elf :=
  mkElf (elf_name self) (data self) (Some h) (sections self)
        (string_table_offset self).
Definition set_sections (d : dict (list ElfSection)) (self : Elf) : Elf :=
  mkElf (elf_name self) (data self) (header self) (Some d)
        (string_table_offset self).
Definition set_string_table_offset (o : Z) (self : Elf) : Elf :=
  mkElf (elf_name self) (data self) (header self) (sections self) (Some o).

(** ** Methods: state and exceptions *)

Definition M (A : Type) : Type := Elf -> outcome A * Elf.

Definition ret {A} (a : A) : M A := fun self => (Ret a, self).

Definition bind {A B} (m : M A) (k : A -> M B) : M B := fun self =>
  match m self with
  | (Ret a, self') => k a self'
  | (Raise e, self') => (Raise e, self')
  | (OutOfFuel, self') => (OutOfFuel, self')
  end.

Definition lift {A} (o : outcome A) : M A := fun self => (o, self).
Definition read {A} (f : Elf -> A) : M A := fun self => (Ret (f self), self).
Definition read_attr {A} (f : Elf -> option A) : M A :=
  fun self => (attr (f self), self).
Definition modify (f : Elf -> Elf) : M unit := fun self => (Ret tt, f self).

Declare Scope method_scope.
Delimit Scope method_scope with method.
Notation "'let*' x := m 'in' k" := (bind m (fun x => k))
  (at level 10, x pattern, m at level 100, k at level 200) : method_scope.
Notation "m ';;;' k" := (bind m (fun _ => k))
  (at level 100, k at level 200, right associativity) : method_scope.
Notation "'let+' x := m 'in' k" := (obind m (fun x => k))
  (at level 10, x pattern, m at level 100, k at level 200).

(** [for x in l: body(x)] *)
Fixpoint for_each {X} (l : list X) (body : X -> M unit) : M unit :=
  match l with
  | [] => ret tt
  | x :: l' => bind (body x) (fun _ => for_each l' body)
  end.

(** [range(a, b)] *)
Definition range (a b : Z) : list Z :=
  map (fun k => a + Z.of_nat k) (seq 0 (Z.to_nat (b - a))).

(** ** Parsing *)

(** [unpack("16sHHIIIIIHHHHHH", buf)]: the buffer must have the size of the
    format, 52 bytes; no padding is needed between its fields. *)
Definition unpack_ehdr (buf : list byte) : outcome Ehdr :=
  if decide (length buf = 52%nat) then
    Ret (mkEhdr (take 16 buf) (field buf 16 2) (field buf 18 2)
                (field buf 20 4) (field buf 24 4) (field buf 28 4)
                (field buf 32 4) (field buf 36 4) (field buf 40 2)
                (field buf 42 2) (field buf 44 2) (field buf 46 2)
                (field buf 48 2) (field buf 50 2))
  else Raise StructError.

(** [unpack("IIIIIIIIII", buf)] followed by [Section(...)]. *)
Definition unpack_shdr (buf : list byte) : outcome ElfSection :=
  if decide (length buf = 40%nat) then
    Ret (mkSection (field buf 0 4) (field buf 4 4) (field buf 8 4)
                   (field buf 12 4) (field buf 16 4) (field buf 20 4)
                   (field buf 24 4) (field buf 28 4) (field buf 32 4)
                   (field buf 36 4) None)
  else Raise StructError.

Local Open Scope method_scope.

Definition parse_header : M unit :=
  let* d := read data in
  let* h := lift (unpack_ehdr (slice d 0 ELF32_EHDR_SZ)) in
  modify (set_header h) ;;;
  (* the second debug line looks the file type up *)
  match dict_get ETYPE_DIC (e_type h) with
  | Some _ => ret tt
  | None => lift (Raise KeyError)
  end.

Definition chr (c : Z) : ascii := ascii_of_N (Z.to_N c).

(** The [while] loop of [get_string]; [char] is the byte read last. *)
Fixpoint get_string_loop (fuel : nat) (d : list byte) (sto index : Z)
    (elf_str : string) (char : Z) : outcome string :=
  if char =? 0 then Ret elf_str
  else match fuel with
       | O => OutOfFuel
       | S fuel' =>
           let index := index + 1 in
           let elf_str := (elf_str ++ String (chr char) EmptyString)%string in
           let+ char := getitem d (sto + index) in
           get_string_loop fuel' d sto index elf_str char
       end.

Definition get_string (index : Z) : M string :=
  let* sto := read_attr string_table_offset in
  let* d := read data in
  let* char := lift (getitem d (sto + index)) in
  lift (get_string_loop (2 * length d) d sto index EmptyString char).

(** Lines 131 to 133: file [sec] under its type. *)
Definition add_section (d : dict (list ElfSection)) (sec : ElfSection)
    : outcome (dict (list ElfSection)) :=
  let d1 :=
    match dict_get d (sh_type sec) with
    | None | Some [] => dict_set d (sh_type sec) []
    | Some (_ :: _) => d
    end in
  match dict_get d1 (sh_type sec) with
  | Some l => Ret (dict_set d1 (sh_type sec) (l ++ [sec]))
  | None => Raise KeyError
  end.

(** [sec.name = s] for the object at place [j] of the list under [t]. *)
Definition set_section_name (t : Z) (j : nat) (s : string) (self : Elf) : Elf :=
  match sections self with
  | Some d =>
      match dict_get d t with
      | Some l => set_sections (dict_set d t (alter (with_name s) j l)) self
      | None => self
      end
  | None => self
  end.

Fixpoint name_group (t : Z) (j : nat) (l : list ElfSection) : M unit :=
  match l with
  | [] => ret tt
  | sec :: l' =>
      let* s := get_string (sh_name sec) in
      modify (set_section_name t j s) ;;;
      name_group t (S j) l'
  end.

Definition parse_sections_header : M unit :=
  modify (set_sections []) ;;;
  let* h := read_attr header in
  let* d := read data in
  let section_header_sz := e_shnum h * e_shentsize h in
  let section_table := slice d (e_shoff h) (e_shoff h + section_header_sz) in
  for_each (range 1 (e_shnum h)) (fun sec_index =>
    let* sec := lift (unpack_shdr
                        (slice section_table (sec_index * e_shentsize h)
                               (sec_index * e_shentsize h + e_shentsize h))) in
    let* secs := read_attr sections in
    let* secs' := lift (add_section secs sec) in
    modify (set_sections secs') ;;;
    if sec_index =? e_shstrndx h
    then modify (set_string_table_offset (sh_offset sec))
    else ret tt) ;;;
  let* secs := read_attr sections in
  for_each (keys secs) (fun sec_type =>
    let* secs := read_attr sections in
    match dict_get secs sec_type with
    | Some l => name_group sec_type 0 l
    | None => lift (Raise TypeError)
    end).

(** ** Searching and patching *)

(** The [while] loop of [find_cave] over one section; the result is the
    triple [(index, seen_nulls, checkpoint)] the loop ends with. *)
Fixpoint cave_loop (fuel : nat) (d : list byte) (sec : ElfSection)
    (required_size index seen_nulls checkpoint : Z) : outcome (Z * Z * Z) :=
  if index <? sh_size sec then
    match fuel with
    | O => OutOfFuel
    | S fuel' =>
        let+ char := getitem d (sh_offset sec + index) in
        let index := index + 1 in
        let '(seen_nulls, checkpoint) :=
          if char =? 0 then (seen_nulls + 1, checkpoint) else (0, index) in
        if seen_nulls =? required_size
        then Ret (index, seen_nulls, checkpoint)
        else cave_loop fuel' d sec required_size index seen_nulls checkpoint
    end
  else Ret (index, seen_nulls, checkpoint).

(** The body of the inner [for]: [None] stands for [continue]. *)
Definition cave_in_section (d : list byte) (required_size : Z)
    (sec : ElfSection) : outcome (option (Z * Z)) :=
  if py_eq (PyInt (sh_type sec)) (PyEnum SHT_NOBITS) then Ret None
  else
    let+ (index, seen_nulls, checkpoint) :=
      cave_loop (Z.to_nat (sh_size sec)) d sec required_size 0 0 0 in
    if seen_nulls <? required_size then Ret None
    else
      (* the debug message formats [sec.name] *)
      let+ _ := attr (name sec) in
      Ret (Some (sh_addr sec + checkpoint, sh_offset sec + checkpoint)).

Fixpoint cave_in_group (d : list byte) (required_size : Z)
    (l : list ElfSection) : outcome (option (Z * Z)) :=
  match l with
  | [] => Ret None
  | sec :: l' =>
      let+ r := cave_in_section d required_size sec in
      match r with
      | Some loc => Ret (Some loc)
      | None => cave_in_group d required_size l'
      end
  end.

Fixpoint cave_in_groups (d : list byte) (required_size : Z)
    (secs : dict (list ElfSection)) (ks : list Z) : outcome (option (Z * Z)) :=
  match ks with
  | [] => Ret None
  | sec_type :: ks' =>
      match dict_get secs sec_type with
      | None => Raise TypeError
      | Some l =>
          let+ r := cave_in_group d required_size l in
          match r with
          | Some loc => Ret (Some loc)
          | None => cave_in_groups d required_size secs ks'
          end
      end
  end.

(** [find_cave]: [Ret None] is the implicit [return None] after the error
    message. *)
Definition find_cave (required_size : Z) : M (option (Z * Z)) :=
  let* secs := read_attr sections in
  let* d := read data in
  lift (cave_in_groups d required_size secs (keys secs)).

Fixpoint section_in_group (nm : string) (l : list ElfSection)
    : outcome (option ElfSection) :=
  match l with
  | [] => Ret None
  | sec :: l' =>
      let+ n := attr (name sec) in
      if String.eqb n nm then Ret (Some sec) else section_in_group nm l'
  end.

Fixpoint section_in_groups (nm : string) (secs : dict (list ElfSection))
    (ks : list Z) : outcome (option ElfSection) :=
  match ks with
  | [] => Ret None
  | sec_type :: ks' =>
      match dict_get secs sec_type with
      | None => Raise TypeError
      | Some l =>
          let+ r := section_in_group nm l in
          match r with
          | Some sec => Ret (Some sec)
          | None => section_in_groups nm secs ks'
          end
      end
  end.

Definition get_section (nm : string) : M (option ElfSection) :=
  let* secs := read_attr sections in
  lift (section_in_groups nm secs (keys secs)).

(** [self.data[text_sec.sh_offset + i] ^= key] *)
Definition xor_at (pos key : Z) : M unit :=
  let* d := read data in
  let* b := lift (getitem d pos) in
  let* d' := lift (setitem d pos (Z.lxor b key)) in
  modify (set_data d').

Definition pack_code (key : Z) : M unit :=
  let* r := get_section ".text" in
  let* text_sec := lift (attr r) in
  for_each (range 0 (sh_size text_sec))
           (fun i => xor_at (sh_offset text_sec + i) key).

Definition change_ep (new_ep : Z) : M unit :=
  let* bs := lift (p32 new_ep) in
  let* d := read data in
  modify (set_data (set_slice d 24 (24 + 4) bs)).

(** [write_unpacker] does not read its parameter [off]: the slice is taken
    at the module-level variable [unpacker_off], here [g_unpacker_off],
    which exists once the script has assigned it. *)
Definition write_unpacker (g_unpacker_off : option Z) (asm : list byte)
    (off : Z) : M unit :=
  match g_unpacker_off with
  | None => lift (Raise NameError)
  | Some unpacker_off =>
      let* d := read data in
      modify (set_data (set_slice d unpacker_off (unpacker_off + len asm) asm))
  end.

(** ** The stub and the script *)

Definition str_int (z : Z) : string :=
  DecimalString.NilZero.string_of_int (Z.to_int z).

Definition nl : string := String (ascii_of_nat 10) EmptyString.

(** The text handed to the assembler, one element per line. *)
Definition unpacker_source (text_addr size addr entry : Z) : string :=
  String.concat nl
    (map (fun l => ("        " ++ l)%string)
      [ "push eax"; "push edi"; "push esi"; "push edx"; "push ecx"; "";
        "mov eax, 0x7d";
        "mov ebx, " ++ str_int text_addr;
        "mov ecx, " ++ str_int size;
        "mov edx, 0x7 "; "int 0x80 "; "";
        "mov edi, " ++ str_int addr;
        "mov esi, edi";
        "mov ecx, " ++ str_int size;
        "cld"; "decrypt:"; "    lodsb"; "    xor al, 0xa5"; "    stosb";
        "    loop decrypt"; "";
        "mov eax, 0x7d";
        "mov ebx, " ++ str_int text_addr;
        "mov ecx, " ++ str_int size;
        "mov edx, 0x5"; "int 0x80"; "";
        "pop ecx"; "pop edx"; "pop esi"; "pop edi"; "pop eax"; "";
        "push " ++ str_int entry; "ret"; "" ])%string.

#[global] Instance byte_eq_dec : EqDecision byte := Byte.byte_eq_dec.

Definition ELF_MAGIC : list byte := [x7f; x45; x4c; x46].

Section Script.

(** The assembler of pwntools, for [context.arch = 'i386']. *)
Variable asm : string -> outcome (list byte).

Definition create_unpacker : M (list byte) :=
  let* r := get_section ".text" in
  let* text_sec := lift (attr r) in
  let text_addr := Z.land (sh_addr text_sec) 0xFFFFF000 in
  let* h := read_attr header in
  lift (asm (unpacker_source text_addr (sh_size text_sec)
                             (sh_addr text_sec) (e_entry h))).

(** The script from [binary.parse_header()] on; its value is what is
    written to the [.packed] file. *)
Definition script : M (list byte) :=
  parse_header ;;;
  parse_sections_header ;;;
  pack_code 0xa5 ;;;
  let* unpacker_asm := create_unpacker in
  let* r := find_cave (len unpacker_asm) in
  match r with
  | None => lift (Raise TypeError)   (* unpacking [None] into a pair *)
  | Some (unpacker_addr, unpacker_off) =>
      change_ep unpacker_addr ;;;
      write_unpacker (Some unpacker_off) unpacker_asm unpacker_off ;;;
      read data
  end.

(** The script on the bytes of the input file.  Writing the output file
    is its last statement: the file exists exactly when the outcome is
    [Ret], with the bytes returned. *)
Definition main (fname : string) (elf_data : list byte)
    : outcome (list byte) :=
  if bool_decide (slice elf_data 0 4 = ELF_MAGIC)
  then fst (script (mkElf fname elf_data None None None))
  else Raise (SystemExit 1).

Definition packed_file (fname : string) (elf_data : list byte)
    : option (list byte) :=
  match main fname elf_data with
  | Ret out => Some out
  | _ => None
  end.

End Script.

(** ** Building images *)

Definition le16 (v : Z) : list byte := [total_byte v; total_byte (v / 2 ^ 8)].
Definition le32 (v : Z) : list byte :=
  [total_byte v; total_byte (v / 2 ^ 8);
   total_byte (v / 2 ^ 16); total_byte (v / 2 ^ 24)].

(** An ELF32 header for an i386 executable without program headers. *)
Definition ehdr_bytes (entry shoff shnum shstrndx : Z) : list byte :=
  ELF_MAGIC ++ [x01; x01; x01; x00] ++ replicate 8 x00
  ++ le16 2 ++ le16 3 ++ le32 1 ++ le32 entry ++ le32 0 ++ le32 shoff
  ++ le32 0 ++ le16 52 ++ le16 32 ++ le16 0 ++ le16 40 ++ le16 shnum
  ++ le16 shstrndx.

(** A section header with the given name index, type, address, offset and
    size. *)
Definition shdr_bytes (nm ty addr off size : Z) : list byte :=
  le32 nm ++ le32 ty ++ le32 0 ++ le32 addr ++ le32 off ++ le32 size
  ++ le32 0 ++ le32 0 ++ le32 1 ++ le32 0.

Definition bytes_of_string (s : string) : list byte := list_byte_of_string s.

(** [.text] (8 bytes at 212), [.data] (16 zero bytes at 220) and
    [.shstrtab] (23 bytes at 236). *)
Definition image_text_data : list byte :=
  ehdr_bytes 0x08048000 52 4 3
  ++ shdr_bytes 0 0 0 0 0
  ++ shdr_bytes 1 1 0x08048000 212 8
  ++ shdr_bytes 7 1 0x08049000 220 16
  ++ shdr_bytes 13 3 0 236 23
  ++ [x55; x89; xe5; x31; xc0; x5d; xc3; x90]
  ++ replicate 16 x00
  ++ [x00] ++ bytes_of_string ".text" ++ [x00] ++ bytes_of_string ".data"
  ++ [x00] ++ bytes_of_string ".shstrtab" ++ [x00].

Definition stub4 : list byte := [x90; x90; x90; xc3].
Definition asm4 (_ : string) : outcome (list byte) := Ret stub4.

Definition fresh (elf_data : list byte) : Elf :=
  mkElf "a.elf" elf_data None None None.

(** The object after the two parsing calls of the script. *)
Definition parsed (elf_data : list byte) : Elf :=
  snd ((parse_header ;;; parse_sections_header) (fresh elf_data)).

(** * Specification vocabulary *)

(** The byte a [^=] with [key] leaves in place of [b]. *)
Definition xor_byte (key : Z) (b : byte) : byte :=
  total_byte (Z.lxor (byte_val b) key).


(** [keeps f m]: the call [m] ends, normally or not, in an object with the
    same [f] as before. *)
Definition keeps {A X} (f : Elf -> X) (m : M A) : Prop :=
  forall self, f (snd (m self)) = f self.


(** The buffer after [^= key] on the [n] bytes from place [p] on, one
    after the other. *)
Fixpoint xor_region (key : Z) (d : list byte) (p n : nat) : list byte :=
  match n with
  | O => d
  | S n' => xor_region key (alter (xor_byte key) p d) (S p) n'
  end.

(** The bytes before the first zero byte of [l], when there is one. *)
Fixpoint until_zero (l : list byte) : option (list byte) :=
  match l with
  | [] => None
  | b :: l' =>
      if Byte.eqb b x00 then Some []
      else option_map (cons b) (until_zero l')
  end.

(** A string table holding [".text\0.data\0"] from offset 0 on. *)
Definition names_table : Elf :=
  mkElf "t.elf"
        (bytes_of_string ".text" ++ [x00] ++ bytes_of_string ".data" ++ [x00])
        None None (Some 0).

(** ** Zero runs *)

(** The [n] bytes of [d] from place [p] on are in the buffer and are zero. *)
Definition zero_run (d : list byte) (p n : Z) : bool :=
  forallb (fun k => bool_decide (d !! Z.to_nat (p + k) = Some x00))
          (range 0 n).

(** A run of [R] zero bytes starts at offset [O] of the section [sec] and
    ends inside the section. *)
Definition run_at (d : list byte) (sec : ElfSection) (R O : Z) : bool :=
  (0 <=? O) && (O + R <=? sh_size sec) && zero_run d (sh_offset sec + O) R.

(** The section holds a run of [R] zero bytes. *)
Definition has_run (d : list byte) (sec : ElfSection) (R : Z) : bool :=
  existsb (run_at d sec R) (range 0 (sh_size sec - R + 1)).

(** The first run of [R] zero bytes of the section starts at offset [O]. *)
Definition first_run (d : list byte) (sec : ElfSection) (R O : Z) : bool :=
  run_at d sec R O && forallb (fun O' => negb (run_at d sec R O')) (range 0 O).

(** The section lies inside the buffer and holds no run of [R] zero
    bytes. *)
Definition no_cave_in (d : list byte) (R : Z) (sec : ElfSection) : bool :=
  (0 <=? sh_offset sec) && (sh_offset sec + sh_size sec <=? len d)
  && negb (has_run d sec R).

(** The order in which the two nested loops of [find_cave] and
    [get_section] meet the sections: key after key of the dictionary, and
    under each key the list stored there. *)
Definition scan_order (secs : dict (list ElfSection)) : list ElfSection :=
  flat_map (fun k => match dict_get secs k with Some l => l | None => [] end)
           (keys secs).

(** ** Assertions about methods *)

(** [triple P m Q]: a call of [m] on an object with [P] that returns [a]
    leaves an object with [Q a]. *)
Definition triple {A} (P : Elf -> Prop) (m : M A) (Q : A -> Elf -> Prop)
    : Prop :=
  forall self a self', P self -> m self = (Ret a, self') -> Q a self'.

(** A section as [unpack] reads it: offset and size are not negative. *)
Definition unsigned_section (sec : ElfSection) : Prop :=
  0 <= sh_offset sec /\ 0 <= sh_size sec.

(** Every section filed in the dictionary has [P]. *)
Definition all_sections (P : ElfSection -> Prop)
    (secs : dict (list ElfSection)) : Prop :=
  Forall (fun kl => Forall P (snd kl)) secs.

Definition sections_unsigned (self : Elf) : Prop :=
  exists secs, sections self = Some secs /\ all_sections unsigned_section secs.

(** [d] has the length of [d0] and the bytes of [d0] at every place
    outside [lo .. hi - 1]. *)
Definition same_outside (lo hi : Z) (d0 d : list byte) : Prop :=
  length d = length d0 /\
  forall i : nat, ~ (lo <= Z.of_nat i < hi) -> d !! i = d0 !! i.

(** ** The script before the search *)

(** The calls of the script up to the assembly of the stub; the value is
    the stub. *)
Definition before_cave (asm : string -> outcome (list byte))
    : M (list byte) :=
  (parse_header ;;;
   parse_sections_header ;;;
   pack_code 0xa5 ;;;
   create_unpacker asm)%method.

(** ** The section table *)

(** The section header with index [i], as [parse_sections_header] reads
    it from the buffer. *)
Definition table_entry (d : list byte) (h : Ehdr) (i : Z)
    : outcome ElfSection :=
  unpack_shdr
    (slice (slice d (e_shoff h) (e_shoff h + e_shnum h * e_shentsize h))
           (i * e_shentsize h) (i * e_shentsize h + e_shentsize h)).

(** The file offset [off] lies in the file range of [sec]. *)
Definition inside (sec : ElfSection) (off : Z) : bool :=
  (sh_offset sec <=? off) && (off <? sh_offset sec + sh_size sec).

(** The reading of the search as one in table order: the location
    [find_cave] returns lies in the section of least table index among
    those that hold a run of [R] zero bytes. *)
Definition table_order_claim (self : Elf) (R : Z) : Prop :=
  forall h addr off,
    header self = Some h ->
    fst (find_cave R self) = Ret (Some (addr, off)) ->
    exists i sec,
      1 <= i < e_shnum h /\
      table_entry (data self) h i = Ret sec /\
      has_run (data self) sec R = true /\
      inside sec off = true /\
      forall j sec', 1 <= j < i ->
        table_entry (data self) h j = Ret sec' ->
        has_run (data self) sec' R = false.

(** ** Two more images *)

(** [.shstrtab] (16 bytes at 238) and [.bss], of type 8 ([SHT_NOBITS]),
    whose header points at the 64 zero bytes from 173 on; a byte [0xff]
    stands on either side of them. *)
Definition image_bss : list byte :=
  ehdr_bytes 0x08048000 52 3 1
  ++ shdr_bytes 0 0 0 0 0
  ++ shdr_bytes 1 3 0 238 16
  ++ shdr_bytes 11 8 0x0804a000 173 64
  ++ [xff] ++ replicate 64 x00 ++ [xff]
  ++ [x00] ++ bytes_of_string ".shstrtab" ++ [x00] ++ bytes_of_string ".bss"
  ++ [x00].

(** Every run of [n] zero bytes of the buffer lies in [lo .. hi - 1]. *)
Definition runs_only_within (d : list byte) (n lo hi : Z) : bool :=
  forallb (fun p => implb (zero_run d p n) ((lo <=? p) && (p + n <=? hi)))
          (range 0 (len d)).

(** Four sections: [.text] (type 1, 8 bytes at 252), [.note] (type 7,
    16 zero bytes at 260), [.data] (type 1, 16 zero bytes at 277) and
    [.shstrtab] (type 3, 29 bytes at 293); a byte [0xff] stands between
    the two zero runs. *)
Definition image_two_caves : list byte :=
  ehdr_bytes 0x08048000 52 5 4
  ++ shdr_bytes 0 0 0 0 0
  ++ shdr_bytes 1 1 0x08048000 252 8
  ++ shdr_bytes 7 7 0x08049000 260 16
  ++ shdr_bytes 13 1 0x0804a000 277 16
  ++ shdr_bytes 19 3 0 293 29
  ++ [x55; x89; xe5; x31; xc0; x5d; xc3; x90]
  ++ replicate 16 x00 ++ [xff] ++ replicate 16 x00
  ++ [x00] ++ bytes_of_string ".text" ++ [x00] ++ bytes_of_string ".note"
  ++ [x00] ++ bytes_of_string ".data" ++ [x00]
  ++ bytes_of_string ".shstrtab" ++ [x00].

(** ** Instances for the examples *)

Definition text_section : ElfSection :=
  mkSection 1 1 0 0x08048000 212 8 0 0 1 0 (Some ".text"%string).
Definition data_section : ElfSection :=
  mkSection 7 1 0 0x08049000 220 16 0 0 1 0 (Some ".data"%string).
Definition shstrtab_section : ElfSection :=
  mkSection 13 3 0 0 236 23 0 0 1 0 (Some ".shstrtab"%string).

(** The dictionary [parse_sections_header] builds for
    [image_text_data]. *)
Definition sections_text_data : dict (list ElfSection) :=
  [(1, [text_section; data_section]); (3, [shstrtab_section])].

(** An assembler that answers with 32 bytes, more than any zero run of
    [image_text_data]. *)
Definition stub32 : list byte := replicate 32 x90.
Definition asm32 (_ : string) : outcome (list byte) := Ret stub32.

(** What the script writes for [image_text_data] with the stub
    [stub4]. *)
Definition packed_text_data : list byte :=
  Eval vm_compute in
    match main asm4 "a.elf" image_text_data with
    | Ret out => out
    | _ => []
    end.

(** ** The order of the dictionary, from the section table *)

(** The section as [unpack] reads it, before it is named. *)
Definition unnamed (sec : ElfSection) : ElfSection :=
  mkSection (sh_name sec) (sh_type sec) (sh_flags sec) (sh_addr sec)
            (sh_offset sec) (sh_size sec) (sh_link sec) (sh_info sec)
            (sh_addralign sec) (sh_entsize sec) None.

Definition unnamed_dict (secs : dict (list ElfSection))
    : dict (list ElfSection) :=
  map (fun kl => (fst kl, map unnamed (snd kl))) secs.

(** The values of [ts] without repetition, each at the place where it
    comes first. *)
Fixpoint first_seen (ts : list Z) : list Z :=
  match ts with
  | [] => []
  | t :: r => t :: filter (fun u => u <> t) (first_seen r)
  end.

(** The sections of type [t], in the order of the table. *)
Definition of_type (t : Z) (table : list ElfSection) : list ElfSection :=
  filter (fun s => sh_type s = t) table.

(** The table regrouped by type: the types in the order in which the
    table first shows them, the sections of one type in table order. *)
Definition by_type (table : list ElfSection) : list ElfSection :=
  flat_map (fun t => of_type t table) (first_seen (map sh_type table)).

(** The same as a dictionary. *)
Definition group (table : list ElfSection) : dict (list ElfSection) :=
  map (fun t => (t, of_type t table)) (first_seen (map sh_type table)).

(** The section headers with index 1 to [e_shnum - 1], in table order. *)
Definition section_table (d : list byte) (h : Ehdr) : list ElfSection :=
  flat_map (fun i => match table_entry d h i with
                     | Ret sec => [sec]
                     | _ => []
                     end)
           (range 1 (e_shnum h)).

(** The header of [image_two_caves]. *)
Definition header_two_caves : Ehdr :=
  mkEhdr (take 16 image_two_caves) 2 3 1 0x08048000 0 52 0 52 32 0 40 5 4.

(** ** Vocabulary of the further properties *)

(** The ten numbers of a section header are unsigned words of 32 bits. *)
Definition word_section (sec : ElfSection) : Prop :=
  Forall (fun v => 0 <= v < 2 ^ 32)
    [sh_name sec; sh_type sec; sh_flags sec; sh_addr sec; sh_offset sec;
     sh_size sec; sh_link sec; sh_info sec; sh_addralign sec;
     sh_entsize sec].

(** The numbers of the header fit the widths of the format: [H] fields 16
    bits, [I] fields 32 bits, and [e_ident] has 16 bytes. *)
Definition header_in_range (h : Ehdr) : Prop :=
  length (e_ident h) = 16%nat /\
  Forall (fun v => 0 <= v < 2 ^ 16)
    [e_type h; e_machine h; e_ehsize h; e_phentsize h; e_phnum h;
     e_shentsize h; e_shnum h; e_shstrndx h] /\
  Forall (fun v => 0 <= v < 2 ^ 32)
    [e_version h; e_entry h; e_phoff h; e_shoff h; e_flags h].

(** The name [get_string] finds for [sec] when the string table starts at
    [sto]: the characters before the first zero byte from
    [sto + sh_name] on, if there is one. *)
Definition resolve (d : list byte) (sto : Z) (sec : ElfSection)
    : option string :=
  option_map string_of_list_byte
             (until_zero (drop (Z.to_nat (sto + sh_name sec)) d)).

Definition named (d : list byte) (sto : Z) (sec : ElfSection) : ElfSection :=
  match resolve d sto sec with
  | Some s => with_name s sec
  | None => sec
  end.

(** The file offset of the section header [e_shstrndx], when that index
    is one the parser visits. *)
Definition strtab_offset (d : list byte) (h : Ehdr) : option Z :=
  if (1 <=? e_shstrndx h) && (e_shstrndx h <? e_shnum h) then
    match table_entry d h (e_shstrndx h) with
    | Ret sec => Some (sh_offset sec)
    | _ => None
    end
  else None.

(** The section table grouped by type, every section with its name. *)
Definition named_group (d : list byte) (sto : Z) (table : list ElfSection)
    : dict (list ElfSection) :=
  map (fun t => (t, map (named d sto) (of_type t table)))
      (first_seen (map sh_type table)).

Definition has_name (sec : ElfSection) : bool :=
  match name sec with Some _ => true | None => false end.

(** The header of [image_text_data]. *)
Definition header_text_data : Ehdr :=
  mkEhdr (take 16 image_text_data) 2 3 1 0x08048000 0 52 0 52 32 0 40 4 3.

(** [.shstrtab] (17 bytes at 172) and [.text], whose header gives it 64
    bytes from 189 on; the file ends after eight of them. *)
Definition image_text_overrun : list byte :=
  ehdr_bytes 0x08048000 52 3 1
  ++ shdr_bytes 0 0 0 0 0
  ++ shdr_bytes 1 3 0 172 17
  ++ shdr_bytes 11 1 0x08048000 189 64
  ++ [x00] ++ bytes_of_string ".shstrtab" ++ [x00] ++ bytes_of_string ".text"
  ++ [x00]
  ++ [x55; x89; xe5; x31; xc0; x5d; xc3; x90].

Definition text_overrun : ElfSection :=
  mkSection 11 1 0 0x08048000 189 64 0 0 1 0 (Some ".text"%string).

(** The header [h] with another entry point. *)
Definition with_entry (V : Z) (h : Ehdr) : Ehdr :=
  mkEhdr (e_ident h) (e_type h) (e_machine h) (e_version h) V
         (e_phoff h) (e_shoff h) (e_flags h) (e_ehsize h)
         (e_phentsize h) (e_phnum h) (e_shentsize h) (e_shnum h)
         (e_shstrndx h).

(** An executable without a section header table: the ELF header and
    eight bytes of code. *)
Definition image_no_sections : list byte :=
  ehdr_bytes 0x08048000 0 0 0 ++ [x55; x89; xe5; x31; xc0; x5d; xc3; x90].

Definition header_no_sections : Ehdr :=
  mkEhdr (take 16 image_no_sections) 2 3 1 0x08048000 0 0 0 52 32 0 40 0 0.

(** Every section header from 1 to [e_shnum - 1] can be read: the table
    lies in the buffer and its entries have 40 bytes. *)
Definition readable_table (d : list byte) (h : Ehdr) : bool :=
  forallb (fun i => match table_entry d h i with
                    | Ret _ => true
                    | _ => false
                    end)
          (range 1 (e_shnum h)).

(** Every section of the table has a zero-terminated name in the buffer,
    for a string table that starts at [sto]. *)
Definition resolvable_table (d : list byte) (h : Ehdr) (sto : Z) : bool :=
  forallb (fun sec => match resolve d sto sec with
                      | Some _ => true
                      | None => false
                      end)
          (section_table d h).

(** One section of eight bytes at 132, and no index of a string table in
    the header ([e_shstrndx] is 0). *)
Definition image_no_strtab : list byte :=
  ehdr_bytes 0x08048000 52 2 0
  ++ shdr_bytes 0 0 0 0 0
  ++ shdr_bytes 0 1 0x08048000 132 8
  ++ [x55; x89; xe5; x31; xc0; x5d; xc3; x90].

Definition header_no_strtab : Ehdr :=
  mkEhdr (take 16 image_no_strtab) 2 3 1 0x08048000 0 52 0 52 32 0 40 2 0.
(** * Properties *)

(** ** Bytes *)

Lemma byte_val_range (b : byte) : 0 <= byte_val b < 256.
Proof.
  unfold byte_val. pose proof (Byte.to_N_bounded b) as H. lia.
Qed.

Lemma total_byte_val (b : byte) : total_byte (byte_val b) = b.
Proof.
  unfold total_byte. pose proof (byte_val_range b) as H.
  rewrite Z.mod_small by lia. unfold byte_val.
  rewrite N2Z.id, Byte.of_to_N. reflexivity.
Qed.

Lemma byte_val_total (v : Z) : 0 <= v < 256 -> byte_val (total_byte v) = v.
Proof.
  intros Hv. unfold total_byte. rewrite Z.mod_small by lia.
  destruct (Byte.of_N (Z.to_N v)) as [b|] eqn:E.
  - apply Byte.to_of_N in E. unfold byte_val. rewrite E. lia.
  - apply Byte.of_N_None_iff in E. lia.
Qed.

Lemma byte_of_int_total (v : Z) :
  0 <= v < 256 -> byte_of_int v = Ret (total_byte v).
Proof.
  intros Hv. unfold byte_of_int, total_byte.
  destruct (Z.ltb_spec v 0); [lia|]. rewrite Z.mod_small by lia.
  destruct (Byte.of_N (Z.to_N v)) eqn:E; [reflexivity|].
  apply Byte.of_N_None_iff in E. lia.
Qed.

Lemma byte_val_zero (b : byte) : byte_val b = 0 <-> b = x00.
Proof.
  split; [|intros ->; reflexivity].
  intros H. rewrite <- (total_byte_val b), H. reflexivity.
Qed.

Lemma lxor_byte_range (a k : Z) :
  0 <= a < 256 -> 0 <= k < 256 -> 0 <= Z.lxor a k < 256.
Proof.
  intros Ha Hk. split; [apply Z.lxor_nonneg; lia|].
  destruct (Z.eq_dec (Z.lxor a k) 0) as [->|Hne]; [lia|].
  assert (Hpos : 0 < Z.lxor a k)
    by (pose proof (proj2 (Z.lxor_nonneg a k)); lia).
  apply (Z.log2_lt_pow2 _ 8 Hpos).
  eapply Z.le_lt_trans; [apply Z.log2_lxor; lia|].
  apply Z.max_lub_lt.
  - destruct (Z.eq_dec a 0) as [->|]; [reflexivity|].
    apply Z.log2_lt_pow2; lia.
  - destruct (Z.eq_dec k 0) as [->|]; [reflexivity|].
    apply Z.log2_lt_pow2; lia.
Qed.

Lemma xor_byte_involutive (key : Z) (b : byte) :
  0 <= key < 256 -> xor_byte key (xor_byte key b) = b.
Proof.
  intros Hk. unfold xor_byte.
  rewrite byte_val_total by (apply lxor_byte_range; auto using byte_val_range).
  rewrite Z.lxor_assoc, Z.lxor_nilpotent, Z.lxor_0_r.
  apply total_byte_val.
Qed.

(** ** Indexing with an index that is not negative *)

Lemma len_nonneg {A} (l : list A) : 0 <= len l.
Proof. unfold len. lia. Qed.

Lemma getitem_lookup (l : list byte) (i : Z) (b : byte) :
  0 <= i -> l !! Z.to_nat i = Some b -> getitem l i = Ret (byte_val b).
Proof.
  intros Hi Hl. unfold getitem.
  destruct (Z.ltb_spec i 0); [lia|].
  destruct (Z.ltb_spec i 0); [lia|]. rewrite Hl. reflexivity.
Qed.

Lemma getitem_beyond (l : list byte) (i : Z) :
  0 <= i -> l !! Z.to_nat i = None -> getitem l i = Raise IndexError.
Proof.
  intros Hi Hl. unfold getitem.
  destruct (Z.ltb_spec i 0); [lia|].
  destruct (Z.ltb_spec i 0); [lia|]. rewrite Hl. reflexivity.
Qed.

Lemma getitem_inv (l : list byte) (i c : Z) :
  0 <= i -> getitem l i = Ret c ->
  exists b, l !! Z.to_nat i = Some b /\ c = byte_val b.
Proof.
  intros Hi. unfold getitem.
  destruct (Z.ltb_spec i 0); [lia|].
  destruct (Z.ltb_spec i 0); [lia|].
  destruct (l !! Z.to_nat i) as [b|]; [|discriminate].
  intros [= <-]. eauto.
Qed.

Lemma getitem_outcome (l : list byte) (i : Z) :
  (exists c, getitem l i = Ret c) \/ getitem l i = Raise IndexError.
Proof.
  unfold getitem. destruct (_ <? 0); [right; reflexivity|].
  destruct (l !! _); eauto.
Qed.

Lemma setitem_inbounds (l : list byte) (i v : Z) :
  0 <= i < len l -> 0 <= v < 256 ->
  setitem l i v = Ret (<[Z.to_nat i := total_byte v]> l).
Proof.
  intros Hi Hv. unfold setitem. rewrite byte_of_int_total by assumption.
  simpl. destruct (Z.ltb_spec i 0); [lia|].
  destruct (Z.ltb_spec i 0); [lia|].
  destruct (Z.ltb_spec i (len l)); [reflexivity|lia].
Qed.

(** ** What a method leaves alone *)

Section Keeps.
Context {X : Type} (f : Elf -> X).

Lemma keeps_ret {A} (a : A) : keeps f (ret a).
Proof. intros self. reflexivity. Qed.

Lemma keeps_lift {A} (o : outcome A) : keeps f (lift o).
Proof. intros self. reflexivity. Qed.

Lemma keeps_read {A} (g : Elf -> A) : keeps f (read g).
Proof. intros self. reflexivity. Qed.

Lemma keeps_read_attr {A} (g : Elf -> option A) : keeps f (read_attr g).
Proof. intros self. reflexivity. Qed.

Lemma keeps_modify (g : Elf -> Elf) :
  (forall self, f (g self) = f self) -> keeps f (modify g).
Proof. intros H self. apply H. Qed.

Lemma keeps_bind {A B} (m : M A) (k : A -> M B) :
  keeps f m -> (forall a, keeps f (k a)) -> keeps f (bind m k).
Proof.
  intros Hm Hk self. unfold bind. specialize (Hm self).
  destruct (m self) as [[a| |] self']; simpl in *; try assumption.
  rewrite Hk. assumption.
Qed.

Lemma keeps_for_each {Y} (l : list Y) (body : Y -> M unit) :
  (forall y, keeps f (body y)) -> keeps f (for_each l body).
Proof.
  intros Hb. induction l as [|y l IH]; simpl.
  - apply keeps_ret.
  - apply keeps_bind; auto.
Qed.
End Keeps.

Ltac keeps_step :=
  first
    [ apply keeps_ret | apply keeps_lift | apply keeps_read
    | apply keeps_read_attr
    | apply keeps_modify; intros []; reflexivity
    | apply keeps_bind; [|intros ?]
    | apply keeps_for_each; intros ? ].

Lemma get_string_keeps {X} (f : Elf -> X) (index : Z) :
  keeps f (get_string index).
Proof. unfold get_string. repeat keeps_step. Qed.

Lemma set_section_name_data t j s self :
  data (set_section_name t j s self) = data self.
Proof.
  unfold set_section_name. destruct (sections self) as [d|]; [|reflexivity].
  destruct (dict_get d t); reflexivity.
Qed.

Lemma name_group_keeps_data t j l : keeps data (name_group t j l).
Proof.
  revert j. induction l as [|sec l IH]; intros j; simpl.
  - apply keeps_ret.
  - apply keeps_bind; [apply get_string_keeps|intros s].
    apply keeps_bind; [|intros _; apply IH].
    apply keeps_modify. apply set_section_name_data.
Qed.

Lemma parse_header_keeps_data : keeps data parse_header.
Proof.
  unfold parse_header. repeat keeps_step.
  destruct (dict_get _ _); keeps_step.
Qed.

Lemma parse_sections_header_keeps_data : keeps data parse_sections_header.
Proof.
  unfold parse_sections_header. repeat keeps_step.
  - destruct (_ =? _); repeat keeps_step.
  - destruct (dict_get _ _); [apply name_group_keeps_data|keeps_step].
Qed.

Lemma get_section_keeps {X} (f : Elf -> X) nm : keeps f (get_section nm).
Proof. unfold get_section. repeat keeps_step. Qed.

Lemma find_cave_keeps {X} (f : Elf -> X) r : keeps f (find_cave r).
Proof. unfold find_cave. repeat keeps_step. Qed.

(** C10: the parsing and query methods ([parse_header],
    [parse_sections_header], [get_string], [get_section], [find_cave])
    leave the byte buffer as it was, whether they return or raise; the
    three patching methods ([pack_code], [change_ep], [write_unpacker]) are
    the ones that change it. *)
Theorem readers_keep_the_buffer :
  keeps data parse_header /\
  keeps data parse_sections_header /\
  (forall index, keeps data (get_string index)) /\
  (forall nm, keeps data (get_section nm)) /\
  (forall required_size, keeps data (find_cave required_size)) /\
  ~ keeps data (pack_code 0xa5) /\
  ~ keeps data (change_ep 1) /\
  ~ keeps data (write_unpacker (Some 0) [x01] 0).
Proof.
  split; [apply parse_header_keeps_data|].
  split; [apply parse_sections_header_keeps_data|].
  split; [intros; apply get_string_keeps|].
  split; [intros; apply get_section_keeps|].
  split; [intros; apply find_cave_keeps|].
  split; [|split].
  - intros H. specialize (H (parsed image_text_data)).
    vm_compute in H. discriminate H.
  - intros H. specialize (H (fresh (replicate 28 x00))).
    vm_compute in H. discriminate H.
  - intros H. specialize (H (fresh [x00])).
    vm_compute in H. discriminate H.
Qed.

(** ** Running a method *)

Lemma bind_run {A B} (m : M A) (k : A -> M B) self a self' :
  m self = (Ret a, self') -> bind m k self = k a self'.
Proof. intros H. unfold bind. rewrite H. reflexivity. Qed.

Lemma bind_inv {A B} (m : M A) (k : A -> M B) self b self2 :
  bind m k self = (Ret b, self2) ->
  exists a self1, m self = (Ret a, self1) /\ k a self1 = (Ret b, self2).
Proof.
  unfold bind. destruct (m self) as [[a| |] self1]; try discriminate.
  eauto.
Qed.

Lemma keeps_all_run {A} (m : M A) self :
  keeps (fun s => s) m -> m self = (fst (m self), self).
Proof.
  intros H. specialize (H self). destruct (m self) as [o s]. simpl in *.
  congruence.
Qed.

Lemma set_data_same self : set_data (data self) self = self.
Proof. destruct self; reflexivity. Qed.

(** ** The section encoder *)

Lemma xor_region_length key n : forall d p,
  length (xor_region key d p n) = length d.
Proof.
  induction n as [|n IH]; intros d p; simpl; [reflexivity|].
  rewrite IH. apply length_alter.
Qed.

Lemma xor_region_lookup key n : forall d p i,
  xor_region key d p n !! i =
  if decide (p <= i < p + n)%nat then xor_byte key <$> d !! i else d !! i.
Proof.
  induction n as [|n IH]; intros d p i; simpl.
  - destruct (decide _); [lia|reflexivity].
  - rewrite IH. destruct (decide (i = p)) as [->|Hne].
    + destruct (decide (S p <= p < _)%nat); [lia|].
      destruct (decide (p <= p < _)%nat); [|lia].
      apply list_lookup_alter_eq.
    + rewrite list_lookup_alter_ne by congruence.
      destruct (decide (S p <= i < _)%nat), (decide (p <= i < _)%nat);
        try reflexivity; lia.
Qed.

Lemma xor_region_involutive key d p n :
  0 <= key < 256 -> xor_region key (xor_region key d p n) p n = d.
Proof.
  intros Hk. apply list_eq. intros i. rewrite !xor_region_lookup.
  destruct (decide _); [|reflexivity].
  destruct (d !! i) as [b|]; simpl; [|reflexivity].
  f_equal. apply xor_byte_involutive, Hk.
Qed.

Lemma xor_at_run (pos key : Z) self :
  0 <= pos < len (data self) -> 0 <= key < 256 ->
  xor_at pos key self =
  (Ret tt, set_data (alter (xor_byte key) (Z.to_nat pos) (data self)) self).
Proof.
  intros Hp Hk. unfold xor_at, bind, read, lift, modify.
  destruct (lookup_lt_is_Some_2 (data self) (Z.to_nat pos)) as [b Hb];
    [unfold len in Hp; lia|].
  rewrite (getitem_lookup _ _ b) by (lia || assumption).
  rewrite setitem_inbounds
    by (lia || (apply lxor_byte_range; auto using byte_val_range)).
  do 2 f_equal. apply list_eq. intros i.
  destruct (decide (i = Z.to_nat pos)) as [->|Hne].
  - rewrite list_lookup_insert_eq by (unfold len in Hp; lia).
    rewrite list_lookup_alter_eq, Hb. reflexivity.
  - rewrite list_lookup_insert_ne, list_lookup_alter_ne by congruence.
    reflexivity.
Qed.

Lemma pack_loop_run (off key : Z) (n : nat) : forall (s : nat) self,
  0 <= off -> off + Z.of_nat (s + n) <= len (data self) -> 0 <= key < 256 ->
  for_each (map (fun k => 0 + Z.of_nat k) (seq s n))
           (fun i => xor_at (off + i) key) self =
  (Ret tt,
   set_data (xor_region key (data self) (Z.to_nat off + s) n) self).
Proof.
  induction n as [|n IH]; intros s self Hoff Hlen Hk; simpl.
  - unfold ret. rewrite set_data_same. reflexivity.
  - erewrite bind_run by (apply xor_at_run; [lia|assumption]).
    rewrite IH; simpl; rewrite ?length_alter; try lia.
    + replace (Z.to_nat (off + (0 + Z.of_nat s)))
        with (Z.to_nat off + s)%nat by lia.
      replace (Z.to_nat off + S s)%nat with (S (Z.to_nat off + s)) by lia.
      reflexivity.
    + unfold len. rewrite length_alter. fold (len (data self)). lia.
Qed.

Lemma get_section_run nm self :
  get_section nm self = (fst (get_section nm self), self).
Proof. apply keeps_all_run, get_section_keeps. Qed.

Lemma get_section_sections nm self1 self2 :
  sections self1 = sections self2 ->
  fst (get_section nm self1) = fst (get_section nm self2).
Proof.
  intros H. unfold get_section, bind, read_attr, lift. rewrite H.
  destruct (sections self2); reflexivity.
Qed.

Lemma pack_code_run key self text_sec :
  fst (get_section ".text" self) = Ret (Some text_sec) ->
  0 <= sh_offset text_sec ->
  sh_offset text_sec + sh_size text_sec <= len (data self) ->
  0 <= key < 256 ->
  pack_code key self =
  (Ret tt,
   set_data (xor_region key (data self) (Z.to_nat (sh_offset text_sec))
                        (Z.to_nat (sh_size text_sec))) self).
Proof.
  intros Hsec Hoff Hlen Hk. unfold pack_code.
  erewrite bind_run by (rewrite get_section_run, Hsec; reflexivity).
  erewrite bind_run by reflexivity.
  unfold range. rewrite Z.sub_0_r.
  destruct (Z.le_gt_cases (sh_size text_sec) 0) as [Hneg|Hpos].
  - replace (Z.to_nat (sh_size text_sec)) with 0%nat by lia.
    simpl. unfold ret. rewrite set_data_same. reflexivity.
  - rewrite pack_loop_run; try assumption; [|lia].
    rewrite Nat.add_0_r. reflexivity.
Qed.

(** C2: on an object whose [.text] section lies inside the buffer, and for
    a key that is one byte, [pack_code] returns; it replaces each byte of
    the section by its XOR with the key, and a second call with the same
    key returns and brings the object, hence the section's bytes, back to
    what they were. *)
Theorem pack_code_twice (self : Elf) (text_sec : ElfSection) (key : Z) :
  fst (get_section ".text" self) = Ret (Some text_sec) ->
  0 <= sh_offset text_sec -> 0 <= sh_size text_sec ->
  sh_offset text_sec + sh_size text_sec <= len (data self) ->
  0 <= key < 256 ->
  exists self1,
    pack_code key self = (Ret tt, self1) /\
    slice (data self1) (sh_offset text_sec)
          (sh_offset text_sec + sh_size text_sec) =
      map (xor_byte key)
          (slice (data self) (sh_offset text_sec)
                 (sh_offset text_sec + sh_size text_sec)) /\
    pack_code key self1 = (Ret tt, self).
Proof.
  intros Hsec Hoff Hsize Hlen Hk. eexists. split; [|split].
  - apply pack_code_run; eassumption.
  - simpl. unfold slice, clamp, len. rewrite xor_region_length.
    apply list_eq. intros i.
    rewrite list_lookup_fmap, !lookup_take, !lookup_drop, xor_region_lookup.
    destruct (decide (i < _)%nat) as [Hi|Hi]; [|reflexivity].
    destruct (decide _) as [_|Hn]; [reflexivity|].
    exfalso. apply Hn. unfold len in *.
    destruct (Z.ltb_spec (sh_offset text_sec) 0); [lia|].
    destruct (Z.ltb_spec (sh_offset text_sec + sh_size text_sec) 0);
      [lia|]. lia.
  - rewrite (pack_code_run key _ text_sec); try assumption.
    + simpl. rewrite xor_region_involutive by assumption.
      destruct self; reflexivity.
    + rewrite <- Hsec. apply get_section_sections. reflexivity.
    + simpl. unfold len. rewrite xor_region_length. exact Hlen.
Qed.

(** ** Slices *)

Lemma clamp_inbounds {A} (l : list A) (i : Z) :
  0 <= i <= len l -> clamp l i = Z.to_nat i.
Proof.
  intros Hi. unfold clamp. destruct (Z.ltb_spec i 0); [lia|].
  rewrite Z.min_l by lia. reflexivity.
Qed.

Lemma slice_prefix {A} (l : list A) (n : Z) :
  0 <= n -> slice l 0 n = take (Z.to_nat n) l.
Proof.
  intros Hn. unfold slice.
  rewrite (clamp_inbounds l 0) by (pose proof (len_nonneg l); lia).
  simpl. rewrite Nat.sub_0_r. unfold clamp.
  destruct (Z.ltb_spec n 0); [lia|].
  destruct (Z.le_gt_cases n (len l)).
  - rewrite Z.min_l by lia. reflexivity.
  - rewrite Z.min_r by lia. unfold len in *.
    change (Z.to_nat 0) with 0%nat. rewrite drop_0.
    rewrite Nat2Z.id, !take_ge by lia. reflexivity.
Qed.

Section SetSlice.
Context {A : Type} (l v : list A) (a b : Z).
Hypothesis Hab : 0 <= a <= b.
Hypothesis Hb : b <= len l.
Hypothesis Hv : len v = b - a.

Lemma set_slice_inbounds :
  set_slice l a b v = take (Z.to_nat a) l ++ v ++ drop (Z.to_nat b) l.
Proof.
  unfold set_slice. rewrite !clamp_inbounds by lia.
  rewrite Nat.max_r by lia. reflexivity.
Qed.

Lemma set_slice_length : length (set_slice l a b v) = length l.
Proof.
  rewrite set_slice_inbounds, !length_app, length_take, length_drop.
  unfold len in *. lia.
Qed.

Lemma set_slice_lookup_out (i : nat) :
  (i < Z.to_nat a)%nat \/ (Z.to_nat b <= i)%nat ->
  set_slice l a b v !! i = l !! i.
Proof.
  intros Hi. rewrite set_slice_inbounds. unfold len in *.
  destruct Hi as [Hi|Hi].
  - rewrite lookup_app_l by (rewrite length_take; lia).
    apply lookup_take_lt. assumption.
  - rewrite lookup_app_r by (rewrite length_take; lia).
    rewrite lookup_app_r by (rewrite length_take; lia).
    rewrite lookup_drop, length_take. f_equal. lia.
Qed.

Lemma set_slice_lookup_in (i : nat) :
  (Z.to_nat a <= i < Z.to_nat b)%nat ->
  set_slice l a b v !! i = v !! (i - Z.to_nat a)%nat.
Proof.
  intros Hi. rewrite set_slice_inbounds. unfold len in *.
  rewrite lookup_app_r by (rewrite length_take; lia).
  rewrite lookup_app_l by (rewrite length_take; lia).
  rewrite length_take. f_equal. lia.
Qed.
End SetSlice.

Lemma set_slice_empty {A} (l : list A) (a : Z) : set_slice l a (a + 0) [] = l.
Proof.
  unfold set_slice. rewrite Z.add_0_r, Nat.max_id. simpl. apply take_drop.
Qed.

(** ** Little-endian fields *)

Lemma field_ext (buf1 buf2 : list byte) (off w : nat) :
  (forall i, (off <= i < off + w)%nat -> buf1 !! i = buf2 !! i) ->
  field buf1 off w = field buf2 off w.
Proof.
  intros H. unfold field. f_equal. apply list_eq. intros i.
  rewrite !lookup_take, !lookup_drop.
  destruct (decide (i < w)%nat); [|reflexivity]. apply H. lia.
Qed.

Lemma le_int_nonneg (bs : list byte) : 0 <= le_int bs.
Proof.
  induction bs as [|b bs IH]; simpl; [lia|].
  pose proof (byte_val_range b). lia.
Qed.

Lemma field_nonneg buf off w : 0 <= field buf off w.
Proof. apply le_int_nonneg. Qed.

Lemma byte_val_total_mod (v : Z) : byte_val (total_byte v) = v mod 256.
Proof.
  unfold total_byte.
  pose proof (Z.mod_pos_bound v 256 ltac:(lia)) as Hm.
  destruct (Byte.of_N (Z.to_N (v mod 256))) as [b|] eqn:E.
  - apply Byte.to_of_N in E. unfold byte_val. rewrite E. lia.
  - apply Byte.of_N_None_iff in E. lia.
Qed.

Lemma le_int_le32 (v : Z) : 0 <= v < 2 ^ 32 -> le_int (le32 v) = v.
Proof.
  intros Hv. unfold le32. simpl le_int. rewrite !byte_val_total_mod.
  change (2 ^ 8) with 256. change (2 ^ 16) with (256 * 256).
  change (2 ^ 24) with (256 * (256 * 256)). change (2 ^ 32) with 4294967296 in Hv.
  rewrite <- !Z.div_div by lia.
  Z.div_mod_to_equations. lia.
Qed.

Lemma p32_le32 (v : Z) : 0 <= v < 2 ^ 32 -> p32 v = Ret (le32 v).
Proof.
  intros Hv. unfold p32.
  destruct (Z.leb_spec 0 v); [|lia].
  destruct (Z.ltb_spec v (2 ^ 32)); [|lia]. reflexivity.
Qed.

Lemma p32_inv (v : Z) bs :
  p32 v = Ret bs -> 0 <= v < 2 ^ 32 /\ bs = le32 v.
Proof.
  unfold p32. destruct (Z.leb_spec 0 v); simpl; [|discriminate].
  destruct (Z.ltb_spec v (2 ^ 32)); [|discriminate].
  intros [= <-]. split; [lia|reflexivity].
Qed.

(** ** The header and the entry point *)

Lemma parse_header_unfold self :
  parse_header self =
  match unpack_ehdr (take 52 (data self)) with
  | Ret h =>
      (match dict_get ETYPE_DIC (e_type h) with
       | Some _ => Ret tt
       | None => Raise KeyError
       end, set_header h self)
  | Raise e => (Raise e, self)
  | OutOfFuel => (OutOfFuel, self)
  end.
Proof.
  unfold parse_header, bind, read, lift, modify.
  rewrite slice_prefix by (vm_compute; discriminate).
  change (Z.to_nat ELF32_EHDR_SZ) with 52%nat.
  destruct (unpack_ehdr _) as [h| |]; try reflexivity.
  destruct (dict_get _ _); reflexivity.
Qed.

Lemma unpack_ehdr_length buf h :
  unpack_ehdr buf = Ret h -> length buf = 52%nat.
Proof. unfold unpack_ehdr. destruct (decide _); [auto|discriminate]. Qed.

Lemma parse_header_inv self self1 :
  parse_header self = (Ret tt, self1) ->
  exists h,
    unpack_ehdr (take 52 (data self)) = Ret h /\
    self1 = set_header h self /\
    is_Some (dict_get ETYPE_DIC (e_type h)) /\
    (52 <= length (data self))%nat.
Proof.
  rewrite parse_header_unfold.
  destruct (unpack_ehdr _) as [h| |] eqn:E; try discriminate.
  destruct (dict_get _ _) eqn:D; [|discriminate].
  intros [= <-]. exists h. repeat split; eauto.
  apply unpack_ehdr_length in E. rewrite length_take in E. lia.
Qed.

Lemma change_ep_run (V : Z) self :
  0 <= V < 2 ^ 32 ->
  change_ep V self =
  (Ret tt, set_data (set_slice (data self) 24 (24 + 4) (le32 V)) self).
Proof.
  intros HV. unfold change_ep, bind, lift, read, modify.
  rewrite p32_le32 by assumption. reflexivity.
Qed.

Ltac outside_entry Hb :=
  apply field_ext; intros i Hi; rewrite !lookup_take_lt by lia;
  apply set_slice_lookup_out; [lia|exact Hb|reflexivity|lia].

(** C6: on a buffer whose header parses, and for a value [V] of 32 bits,
    [change_ep V] returns and a second [parse_header] returns with
    [e_entry = V] and the thirteen other header fields as the first
    [parse_header] read them. *)
Theorem change_ep_then_parse_header (self self1 : Elf) (V : Z) :
  parse_header self = (Ret tt, self1) ->
  0 <= V < 2 ^ 32 ->
  exists h self2 self3,
    header self1 = Some h /\
    change_ep V self1 = (Ret tt, self2) /\
    parse_header self2 = (Ret tt, self3) /\
    header self3 =
      Some (mkEhdr (e_ident h) (e_type h) (e_machine h) (e_version h) V
                   (e_phoff h) (e_shoff h) (e_flags h) (e_ehsize h)
                   (e_phentsize h) (e_phnum h) (e_shentsize h) (e_shnum h)
                   (e_shstrndx h)).
Proof.
  intros Hparse HV.
  destruct (parse_header_inv _ _ Hparse) as (h & Hh & -> & [ty Hty] & Hlen).
  set (d := data self) in *.
  set (d' := set_slice d 24 (24 + 4) (le32 V)).
  assert (Hb : 24 + 4 <= len d) by (unfold len; lia).
  assert (Hlen' : length d' = length d)
    by (apply set_slice_length; [lia|exact Hb|reflexivity]).
  assert (Hh' : unpack_ehdr (take 52 d') =
    Ret (mkEhdr (e_ident h) (e_type h) (e_machine h) (e_version h) V
                (e_phoff h) (e_shoff h) (e_flags h) (e_ehsize h)
                (e_phentsize h) (e_phnum h) (e_shentsize h) (e_shnum h)
                (e_shstrndx h))).
  { unfold unpack_ehdr in *.
    destruct (decide (length (take 52 d) = 52%nat)); [|discriminate].
    destruct (decide (length (take 52 d') = 52%nat)) as [_|Hn];
      [|exfalso; apply Hn; rewrite length_take; lia].
    injection Hh as <-.
    cbn [e_ident e_type e_machine e_version e_entry e_phoff e_shoff e_flags
         e_ehsize e_phentsize e_phnum e_shentsize e_shnum e_shstrndx].
    f_equal. f_equal.
    - apply list_eq. intros i. rewrite !lookup_take.
      destruct (decide (i < 16)%nat); [|reflexivity].
      destruct (decide (i < 52)%nat); [|lia].
      apply set_slice_lookup_out; [lia|exact Hb|reflexivity|lia].
    - outside_entry Hb.
    - outside_entry Hb.
    - outside_entry Hb.
    - transitivity (le_int (le32 V)); [|apply le_int_le32, HV].
      unfold field. f_equal.
      apply list_eq. intros i. rewrite lookup_take, lookup_drop.
      destruct (decide (i < 4)%nat) as [Hi|Hi].
      + rewrite lookup_take_lt by lia. unfold d'.
        rewrite set_slice_lookup_in; [|lia|exact Hb|reflexivity|lia].
        f_equal. change (Z.to_nat 24) with 24%nat. lia.
      + symmetry. apply lookup_ge_None. simpl. lia.
    - outside_entry Hb.
    - outside_entry Hb.
    - outside_entry Hb.
    - outside_entry Hb.
    - outside_entry Hb.
    - outside_entry Hb.
    - outside_entry Hb.
    - outside_entry Hb.
    - outside_entry Hb. }
  exists h, (set_data d' (set_header h self)).
  eexists. split; [reflexivity|]. split; [apply change_ep_run, HV|].
  rewrite parse_header_unfold. simpl data. rewrite Hh'. simpl e_type.
  rewrite Hty. split; reflexivity.
Qed.

(** ** The stub injector *)

Lemma write_unpacker_run (asm : list byte) (off off' : Z) self :
  write_unpacker (Some off) asm off' self =
  (Ret tt, set_data (set_slice (data self) off (off + len asm) asm) self).
Proof. reflexivity. Qed.

(** C7: [write_unpacker] does not look at the offset it is passed.  With
    the module variable [unpacker_off] at 0, a call with offset 2 on a
    buffer of four bytes overwrites the byte at place 0 and leaves the
    byte at place 2 alone; without that variable the call raises
    [NameError] and writes nothing; and whatever the variable, two calls
    that differ in the offset passed do the same. *)
Theorem write_unpacker_ignores_its_offset :
  write_unpacker (Some 0) [xff] 2 (fresh [x01; x02; x03; x04]) =
    (Ret tt, fresh [xff; x02; x03; x04]) /\
  write_unpacker None [xff] 2 (fresh [x01; x02; x03; x04]) =
    (Raise NameError, fresh [x01; x02; x03; x04]) /\
  (forall g asm off off' self,
      write_unpacker g asm off self = write_unpacker g asm off' self).
Proof. repeat split. Qed.

(** ** The string table resolver *)

Lemma append_empty_r (s : string) : (s ++ "")%string = s.
Proof.
  induction s as [|a s IH]; [reflexivity|].
  change (String a (String.append s "") = String a s). f_equal. exact IH.
Qed.

Lemma append_snoc (s t : string) (a : ascii) :
  ((s ++ String a "") ++ t)%string = (s ++ String a t)%string.
Proof.
  induction s as [|c s IH]; [reflexivity|].
  change (String c (String.append (String.append s (String a "")) t)
          = String c (String.append s (String a t))).
  f_equal. exact IH.
Qed.

Lemma chr_byte_val (b : byte) : chr (byte_val b) = ascii_of_byte b.
Proof.
  unfold chr, byte_val. rewrite N2Z.id. symmetry. apply ascii_of_byte_via_N.
Qed.

Lemma get_string_loop_eq fuel d sto index elf_str char :
  get_string_loop fuel d sto index elf_str char =
  if char =? 0 then Ret elf_str
  else match fuel with
       | O => OutOfFuel
       | S fuel' =>
           let+ c := getitem d (sto + (index + 1)) in
           get_string_loop fuel' d sto (index + 1)
             (elf_str ++ String (chr char) EmptyString)%string c
       end.
Proof. destruct fuel; reflexivity. Qed.

Lemma drop_cons_inv {A} (l : list A) (n : nat) (x : A) (r : list A) :
  drop n l = x :: r -> l !! n = Some x /\ drop (S n) l = r.
Proof.
  revert n. induction l as [|y l IH]; intros [|n] H; simpl in *;
    try discriminate.
  - injection H as -> ->. rewrite drop_0. auto.
  - apply IH. assumption.
Qed.

Lemma until_zero_Some (l s : list byte) :
  until_zero l = Some s <->
  exists post, l = s ++ x00 :: post /\ Forall (fun b => b <> x00) s.
Proof.
  revert s. induction l as [|b l IH]; intros s; simpl.
  - split; [discriminate|]. intros (post & H & _). destruct s; discriminate.
  - destruct (Byte.eqb b x00) eqn:E.
    + apply Byte.byte_dec_bl in E. subst b. split.
      * intros [= <-]. exists l. split; [reflexivity|constructor].
      * intros (post & H & Hs). destruct s as [|c s]; [reflexivity|].
        injection H as <- _. inversion Hs; congruence.
    + apply Byte.eqb_false in E. split.
      * destruct (until_zero l) as [s'|] eqn:U; [|discriminate].
        intros [= <-]. destruct (proj1 (IH s') eq_refl) as (post & -> & Hs).
        exists post. split; [reflexivity|constructor; assumption].
      * intros (post & H & Hs). destruct s as [|c s].
        { injection H as -> _. congruence. }
        injection H as <- ->. inversion Hs; subst.
        rewrite (proj2 (IH s)); [reflexivity|eauto].
Qed.

Lemma until_zero_None (l : list byte) :
  until_zero l = None <-> Forall (fun b => b <> x00) l.
Proof.
  induction l as [|b l IH]; simpl.
  - split; [constructor|reflexivity].
  - destruct (Byte.eqb b x00) eqn:E.
    + apply Byte.byte_dec_bl in E. subst b. split; [discriminate|].
      intros H. inversion H; congruence.
    + apply Byte.eqb_false in E.
      destruct (until_zero l); simpl; split; try discriminate; try reflexivity.
      * intros H. inversion H; subst. apply IH in H3. discriminate.
      * intros _. constructor; [assumption|]. apply IH. reflexivity.
Qed.

Section GetString.
Variables (d : list byte) (sto : Z).

Lemma get_string_loop_found (s post : list byte) :
  forall (acc : string) (index : Z) (fuel : nat),
  0 <= sto + index ->
  drop (Z.to_nat (sto + index)) d = s ++ x00 :: post ->
  Forall (fun b => b <> x00) s ->
  (length s <= fuel)%nat ->
  exists c, getitem d (sto + index) = Ret c /\
    get_string_loop fuel d sto index acc c =
    Ret (acc ++ string_of_list_byte s)%string.
Proof.
  induction s as [|b s IH]; intros acc index fuel Hpos Hdrop Hnz Hfuel.
  - apply drop_cons_inv in Hdrop as [Hl _].
    exists 0. split; [apply (getitem_lookup _ _ x00); assumption|].
    rewrite get_string_loop_eq. simpl. rewrite append_empty_r. reflexivity.
  - simpl in Hdrop. apply drop_cons_inv in Hdrop as [Hl Hdrop].
    inversion Hnz as [|? ? Hb Hs]; subst.
    destruct fuel as [|fuel]; [simpl in Hfuel; lia|].
    exists (byte_val b). split; [apply getitem_lookup; assumption|].
    rewrite get_string_loop_eq.
    destruct (Z.eqb_spec (byte_val b) 0) as [E|_];
      [apply byte_val_zero in E; contradiction|].
    destruct (IH (acc ++ String (chr (byte_val b)) "")%string (index + 1) fuel)
      as (c & Hc & Hloop); try assumption; try (simpl in Hfuel; lia).
    { replace (Z.to_nat (sto + (index + 1)))
        with (S (Z.to_nat (sto + index))) by lia. assumption. }
    rewrite Hc. simpl obind. rewrite Hloop, append_snoc, chr_byte_val.
    reflexivity.
Qed.

Lemma get_string_loop_beyond (rest : list byte) :
  forall (acc : string) (index : Z) (fuel : nat),
  0 <= sto + index ->
  drop (Z.to_nat (sto + index)) d = rest ->
  Forall (fun b => b <> x00) rest ->
  (length rest <= fuel)%nat ->
  (let+ c := getitem d (sto + index) in
   get_string_loop fuel d sto index acc c) = Raise IndexError.
Proof.
  induction rest as [|b rest IH]; intros acc index fuel Hpos Hdrop Hnz Hfuel.
  - rewrite getitem_beyond; [reflexivity|assumption|].
    apply lookup_ge_None. apply (f_equal length) in Hdrop.
    rewrite length_drop in Hdrop. simpl in Hdrop. lia.
  - apply drop_cons_inv in Hdrop as [Hl Hdrop].
    inversion Hnz as [|? ? Hb Hs]; subst.
    destruct fuel as [|fuel]; [simpl in Hfuel; lia|].
    rewrite (getitem_lookup _ _ b) by assumption. unfold obind at 1.
    rewrite get_string_loop_eq.
    destruct (Z.eqb_spec (byte_val b) 0) as [E|_];
      [apply byte_val_zero in E; contradiction|].
    apply IH; try assumption; try (simpl in Hfuel; lia).
    replace (Z.to_nat (sto + (index + 1)))
      with (S (Z.to_nat (sto + index))) by lia. reflexivity.
Qed.
End GetString.

Lemma get_string_run (index sto : Z) self :
  string_table_offset self = Some sto ->
  get_string index self =
  ((let+ c := getitem (data self) (sto + index) in
    get_string_loop (2 * length (data self)) (data self) sto index
                    EmptyString c), self).
Proof.
  intros Hsto. unfold get_string, bind, read_attr, read, lift.
  rewrite Hsto. simpl. destruct (getitem _ _); reflexivity.
Qed.

Lemma getitem_bounds (l : list byte) (i c : Z) :
  getitem l i = Ret c -> - len l <= i < len l.
Proof.
  unfold getitem, len. intros H.
  destruct (Z.ltb_spec i 0).
  - destruct (Z.ltb_spec (i + Z.of_nat (length l)) 0); [discriminate|].
    destruct (l !! _) eqn:E; [|discriminate].
    apply lookup_lt_Some in E. lia.
  - destruct (Z.ltb_spec i 0); [lia|].
    destruct (l !! _) eqn:E; [|discriminate].
    apply lookup_lt_Some in E. lia.
Qed.

(** The loop of [get_string] ends within the iterations it is given. *)
Lemma get_string_loop_ends d sto : forall fuel index acc c,
  getitem d (sto + index) = Ret c ->
  (Z.to_nat (len d - (sto + index)) <= fuel)%nat ->
  get_string_loop fuel d sto index acc c <> OutOfFuel.
Proof.
  induction fuel as [|fuel IH]; intros index acc c Hc Hfuel;
    rewrite get_string_loop_eq; destruct (c =? 0); try discriminate.
  - apply getitem_bounds in Hc. lia.
  - destruct (getitem d (sto + (index + 1))) as [c'| |] eqn:E;
      [|discriminate|].
    + simpl. apply IH; [exact E|]. apply getitem_bounds in Hc. lia.
    + destruct (getitem_outcome d (sto + (index + 1))) as [[c' H]|H];
        congruence.
Qed.

Lemma get_string_ends (index : Z) self :
  fst (get_string index self) <> OutOfFuel.
Proof.
  unfold get_string, bind, read_attr, read, lift.
  destruct (string_table_offset self) as [sto|]; simpl; [|discriminate].
  destruct (getitem (data self) (sto + index)) as [c| |] eqn:E; simpl.
  - apply get_string_loop_ends; [exact E|].
    apply getitem_bounds in E. unfold len in *. lia.
  - discriminate.
  - destruct (getitem_outcome (data self) (sto + index)) as [[c' H]|H];
      congruence.
Qed.

(** C9: with the string table at [sto] and a start [sto + index] that is
    not negative, [get_string index] returns the characters of the bytes
    from that place up to, and without, the first zero byte; when no zero
    byte follows before the end of the buffer it raises [IndexError]
    instead of returning what it has read.  In a table holding
    [".text\0.data\0"] offset 0 gives [".text"] and offset 6 [".data"]. *)
Theorem get_string_reads_to_terminator (self : Elf) (sto index : Z) :
  string_table_offset self = Some sto ->
  0 <= sto + index ->
  get_string index self =
    (match until_zero (drop (Z.to_nat (sto + index)) (data self)) with
     | Some s => Ret (string_of_list_byte s)
     | None => Raise IndexError
     end, self) /\
  fst (get_string 0 names_table) = Ret ".text"%string /\
  fst (get_string 6 names_table) = Ret ".data"%string.
Proof.
  intros Hsto Hpos. split; [|split; reflexivity].
  rewrite (get_string_run _ sto) by assumption. f_equal.
  destruct (until_zero _) as [s|] eqn:U.
  - apply until_zero_Some in U as (post & Hdrop & Hnz).
    destruct (get_string_loop_found (data self) sto s post EmptyString index
                (2 * length (data self))) as (c & Hc & Hloop);
      try assumption.
    + apply (f_equal length) in Hdrop.
      rewrite length_drop, length_app in Hdrop. simpl in Hdrop. lia.
    + rewrite Hc. unfold obind. rewrite Hloop. reflexivity.
  - apply until_zero_None in U.
    eapply get_string_loop_beyond; try eassumption; try reflexivity.
    rewrite length_drop. lia.
Qed.

(** ** Zero runs *)

Lemma elem_of_range (a b x : Z) : x ∈ range a b <-> a <= x < b.
Proof.
  unfold range. rewrite list_elem_of_fmap. split.
  - intros (k & -> & Hk). apply elem_of_seq in Hk. lia.
  - intros Hx. exists (Z.to_nat (x - a)). split; [lia|].
    apply elem_of_seq. lia.
Qed.

Lemma forallb_range (f : Z -> bool) (a b : Z) :
  forallb f (range a b) = true <-> forall x, a <= x < b -> f x = true.
Proof.
  rewrite forallb_forall. split.
  - intros H x Hx. apply H, list_elem_of_In, elem_of_range, Hx.
  - intros H x Hx. apply H, elem_of_range, list_elem_of_In, Hx.
Qed.

Lemma existsb_range (f : Z -> bool) (a b : Z) :
  existsb f (range a b) = true <-> exists x, a <= x < b /\ f x = true.
Proof.
  rewrite existsb_exists. split.
  - intros (x & Hx & Hf). exists x. split; [|assumption].
    apply elem_of_range, list_elem_of_In, Hx.
  - intros (x & Hx & Hf). exists x. split; [|assumption].
    apply list_elem_of_In, elem_of_range, Hx.
Qed.

Lemma zero_run_true (d : list byte) (p n : Z) :
  zero_run d p n = true <->
  forall k, 0 <= k < n -> d !! Z.to_nat (p + k) = Some x00.
Proof.
  unfold zero_run. rewrite forallb_range. split; intros H k Hk.
  - specialize (H k Hk). apply bool_decide_eq_true in H. exact H.
  - apply bool_decide_eq_true. apply H, Hk.
Qed.

Lemma run_at_true d sec R O :
  run_at d sec R O = true <->
  0 <= O /\ O + R <= sh_size sec /\
  forall k, 0 <= k < R -> d !! Z.to_nat (sh_offset sec + O + k) = Some x00.
Proof.
  unfold run_at. rewrite !andb_true_iff, zero_run_true, Z.leb_le, Z.leb_le.
  tauto.
Qed.

Lemma has_run_true d sec R :
  has_run d sec R = true <-> exists O, run_at d sec R O = true.
Proof.
  unfold has_run. rewrite existsb_range. split.
  - intros (O & _ & H). eauto.
  - intros (O & H). exists O. split; [|assumption].
    apply run_at_true in H. lia.
Qed.

Lemma has_run_false d sec R :
  has_run d sec R = false <-> forall O, run_at d sec R O = false.
Proof.
  split.
  - intros H O. destruct (run_at d sec R O) eqn:E; [|reflexivity].
    rewrite <- H. symmetry. apply has_run_true. eauto.
  - intros H. destruct (has_run d sec R) eqn:E; [|reflexivity].
    apply has_run_true in E as [O E]. rewrite H in E. discriminate.
Qed.

Lemma first_run_true d sec R O :
  first_run d sec R O = true <->
  run_at d sec R O = true /\
  forall O', 0 <= O' < O -> run_at d sec R O' = false.
Proof.
  unfold first_run. rewrite andb_true_iff, forallb_range.
  split; intros [H1 H2]; (split; [assumption|]); intros O' HO'.
  - apply negb_true_iff, H2, HO'.
  - apply negb_true_iff, H2, HO'.
Qed.

Lemma zero_run_empty d p n : n <= 0 -> zero_run d p n = true.
Proof. intros Hn. apply zero_run_true. intros k Hk. lia. Qed.

Lemma zero_run_extend d p n :
  0 <= n -> zero_run d p n = true -> d !! Z.to_nat (p + n) = Some x00 ->
  zero_run d p (n + 1) = true.
Proof.
  intros Hn Hrun Hlast. apply zero_run_true. intros k Hk.
  destruct (Z.eq_dec k n) as [->|Hne]; [assumption|].
  apply (proj1 (zero_run_true d p n) Hrun). lia.
Qed.

Lemma zero_run_broken d p n k b :
  0 <= k < n -> d !! Z.to_nat (p + k) = Some b -> b <> x00 ->
  zero_run d p n = false.
Proof.
  intros Hk Hb Hnz. destruct (zero_run d p n) eqn:E; [|reflexivity].
  rewrite (proj1 (zero_run_true d p n) E k Hk) in Hb. congruence.
Qed.

Lemma zero_run_missing d p n k :
  0 <= k < n -> d !! Z.to_nat (p + k) = None -> zero_run d p n = false.
Proof.
  intros Hk Hb. destruct (zero_run d p n) eqn:E; [|reflexivity].
  rewrite (proj1 (zero_run_true d p n) E k Hk) in Hb. discriminate.
Qed.

(** ** The loop of the cave finder *)

(** An [int] is never equal to a member of [SectionType]: the test that is
    meant to skip the sections without file contents never succeeds. *)
Lemma int_never_equals_member (t : Z) (m : SectionType) :
  py_eq (PyInt t) (PyEnum m) = false.
Proof. reflexivity. Qed.

Lemma cave_loop_eq fuel d sec R index sn cp :
  cave_loop fuel d sec R index sn cp =
  if index <? sh_size sec then
    match fuel with
    | O => OutOfFuel
    | S fuel' =>
        let+ char := getitem d (sh_offset sec + index) in
        let '(sn', cp') :=
          if char =? 0 then (sn + 1, cp) else (0, index + 1) in
        if sn' =? R then Ret (index + 1, sn', cp')
        else cave_loop fuel' d sec R (index + 1) sn' cp'
    end
  else Ret (index, sn, cp).
Proof. destruct fuel; reflexivity. Qed.

(** The loop of [find_cave] ends within [sh_size] iterations. *)
Lemma cave_loop_ends d sec R : forall fuel index sn cp,
  (Z.to_nat (sh_size sec - index) <= fuel)%nat ->
  cave_loop fuel d sec R index sn cp <> OutOfFuel.
Proof.
  induction fuel as [|fuel IH]; intros index sn cp Hfuel;
    rewrite cave_loop_eq; destruct (Z.ltb_spec index (sh_size sec));
    try discriminate; [lia|].
  destruct (getitem d (sh_offset sec + index)) as [c| |] eqn:E; simpl.
  - destruct (c =? 0); (destruct (_ =? R); [discriminate|apply IH; lia]).
  - discriminate.
  - destruct (getitem_outcome d (sh_offset sec + index)) as [[c' Hg]|Hg];
      congruence.
Qed.

Lemma cave_in_section_ends d R sec : cave_in_section d R sec <> OutOfFuel.
Proof.
  unfold cave_in_section. rewrite int_never_equals_member.
  pose proof (cave_loop_ends d sec R (Z.to_nat (sh_size sec)) 0 0 0) as H.
  destruct (cave_loop _ d sec R 0 0 0) as [[[i sn] cp]|e|]; simpl;
    [|discriminate|exfalso; apply H; [lia|reflexivity]].
  destruct (sn <? R); [discriminate|].
  destruct (name sec); discriminate.
Qed.

Section CaveLoop.
Variables (d : list byte) (sec : ElfSection) (R : Z).
Hypothesis HR : 1 <= R.
Hypothesis Hoff : 0 <= sh_offset sec.

(** What the loop has established when control is at its head: the bytes
    from [checkpoint] to [index] are zero, there are fewer than [R] of
    them, and no run of [R] zero bytes starts before [checkpoint]. *)
Lemma cave_loop_inv : forall (fuel : nat) (index sn cp : Z),
  0 <= cp <= index -> sn = index - cp -> sn < R ->
  zero_run d (sh_offset sec + cp) sn = true ->
  (forall O', 0 <= O' < cp -> zero_run d (sh_offset sec + O') R = false) ->
  (Z.to_nat (sh_size sec - index) <= fuel)%nat ->
  match cave_loop fuel d sec R index sn cp with
  | Ret (i, sn', cp') =>
      0 <= cp' /\ sn' = i - cp' /\
      zero_run d (sh_offset sec + cp') sn' = true /\
      (forall O', 0 <= O' < cp' ->
                  zero_run d (sh_offset sec + O') R = false) /\
      ((sn' = R /\ i <= sh_size sec) \/ (sn' < R /\ sh_size sec <= i))
  | Raise e =>
      e = IndexError /\
      exists i, index <= i < sh_size sec /\
        d !! Z.to_nat (sh_offset sec + i) = None /\
        (forall O', 0 <= O' -> O' + R <= i ->
                    zero_run d (sh_offset sec + O') R = false)
  | OutOfFuel => False
  end.
Proof.
  induction fuel as [|fuel IH]; intros index sn cp Hcp Hsn HsnR Hz Hno Hfuel;
    rewrite cave_loop_eq.
  - destruct (Z.ltb_spec index (sh_size sec)); [lia|].
    repeat split; (assumption || lia).
  - destruct (Z.ltb_spec index (sh_size sec)) as [Hlt|Hge];
      [|repeat split; (assumption || lia)].
    destruct (d !! Z.to_nat (sh_offset sec + index)) as [b|] eqn:Hb.
    + rewrite (getitem_lookup _ _ b) by (lia || assumption). simpl obind.
      destruct (Z.eqb_spec (byte_val b) 0) as [E|E].
      * apply byte_val_zero in E. subst b.
        assert (Hz' : zero_run d (sh_offset sec + cp) (sn + 1) = true).
        { apply zero_run_extend; [lia|assumption|].
          replace (sh_offset sec + cp + sn) with (sh_offset sec + index)
            by lia. assumption. }
        destruct (Z.eqb_spec (sn + 1) R) as [ER|ER].
        -- repeat split; (assumption || lia).
        -- specialize (IH (index + 1) (sn + 1) cp).
           destruct (cave_loop fuel d sec R (index + 1) (sn + 1) cp)
             as [[[i sn'] cp']|e|]; try (apply IH; (assumption || lia)).
           destruct IH as (-> & i & Hi & Hnone & Hruns);
             try (assumption || lia).
           split; [reflexivity|]. exists i. split; [lia|]. auto.
      * assert (Hbz : b <> x00) by (intros ->; apply E; reflexivity).
        destruct (Z.eqb_spec 0 R) as [ER|_]; [lia|].
        assert (Hno' : forall O', 0 <= O' < index + 1 ->
                       zero_run d (sh_offset sec + O') R = false).
        { intros O' HO'. destruct (Z.lt_ge_cases O' cp) as [Hlo|Hhi];
            [apply Hno; lia|].
          apply (zero_run_broken _ _ _ (index - O') b); [lia| |assumption].
          replace (sh_offset sec + O' + (index - O'))
            with (sh_offset sec + index) by lia. assumption. }
        specialize (IH (index + 1) 0 (index + 1)).
        destruct (cave_loop fuel d sec R (index + 1) 0 (index + 1))
          as [[[i sn'] cp']|e|];
          try (apply IH; (assumption || lia || apply zero_run_empty; lia)).
        destruct IH as (-> & i & Hi & Hnone & Hruns);
          try (assumption || lia || apply zero_run_empty; lia).
        split; [reflexivity|]. exists i. split; [lia|]. auto.
    + rewrite getitem_beyond by (lia || assumption). simpl.
      split; [reflexivity|]. exists index. split; [lia|].
      split; [assumption|]. intros O' HO' Hend.
      destruct (Z.lt_ge_cases O' cp) as [Hlo|Hhi]; [apply Hno; lia|]. lia.
Qed.
End CaveLoop.

Lemma run_at_zero_run d sec R O :
  0 <= O -> O + R <= sh_size sec ->
  run_at d sec R O = zero_run d (sh_offset sec + O) R.
Proof.
  intros H1 H2. unfold run_at.
  destruct (Z.leb_spec 0 O); [|lia].
  destruct (Z.leb_spec (O + R) (sh_size sec)); [|lia]. reflexivity.
Qed.

Section CaveInSection.
Variables (d : list byte) (sec : ElfSection) (R : Z).
Hypothesis HR : 1 <= R.
Hypothesis Hoff : 0 <= sh_offset sec.

(** The four ways the scan of one section can end. *)
Lemma cave_in_section_cases :
  match cave_in_section d R sec with
  | Ret (Some (addr, off)) =>
      exists O, addr = sh_addr sec + O /\ off = sh_offset sec + O /\
                first_run d sec R O = true /\ is_Some (name sec)
  | Ret None => has_run d sec R = false
  | Raise e =>
      (e = IndexError /\
       exists i, 0 <= i < sh_size sec /\
         d !! Z.to_nat (sh_offset sec + i) = None /\
         forall O', 0 <= O' -> O' + R <= i ->
                    zero_run d (sh_offset sec + O') R = false) \/
      (e = AttributeError /\ name sec = None /\
       exists O, first_run d sec R O = true)
  | OutOfFuel => False
  end.
Proof.
  unfold cave_in_section. rewrite int_never_equals_member.
  pose proof (cave_loop_inv d sec R HR Hoff (Z.to_nat (sh_size sec)) 0 0 0)
    as Hinv.
  destruct (cave_loop _ d sec R 0 0 0) as [[[i sn] cp]|e|]; simpl obind.
  - destruct Hinv as (Hcp & Hsn & Hz & Hno & Hend);
      try (lia || (apply zero_run_empty; lia)).
    destruct Hend as [[-> Hi]|[Hlt Hi]].
    + destruct (Z.ltb_spec R R); [lia|].
      assert (Hfirst : first_run d sec R cp = true).
      { apply first_run_true. split.
        - rewrite run_at_zero_run by lia. assumption.
        - intros O' HO'. rewrite run_at_zero_run by lia. apply Hno. lia. }
      destruct (name sec) as [nm|] eqn:Hname; simpl.
      * exists cp. repeat split; eauto.
      * right. repeat split; eauto.
    + destruct (Z.ltb_spec sn R); [|lia].
      apply has_run_false. intros O.
      destruct (run_at d sec R O) eqn:E; [|reflexivity].
      apply run_at_true in E as (HO & HOR & HOz).
      apply zero_run_true in HOz.
      destruct (Z.lt_ge_cases O cp) as [Hlo|Hhi]; [|lia].
      rewrite Hno in HOz by lia. discriminate.
  - destruct Hinv as (-> & i & Hi & Hnone & Hruns);
      try (lia || (apply zero_run_empty; lia)).
    left. split; [reflexivity|]. exists i. split; [lia|]. auto.
  - apply Hinv; try (lia || (apply zero_run_empty; lia)).
Qed.

Lemma first_run_unique O1 O2 :
  first_run d sec R O1 = true -> first_run d sec R O2 = true -> O1 = O2.
Proof.
  intros H1 H2. apply first_run_true in H1 as [R1 N1].
  apply first_run_true in H2 as [R2 N2].
  destruct (Z.lt_trichotomy O1 O2) as [Hlt|[Heq|Hgt]]; [|assumption|].
  - rewrite N2 in R1; [discriminate|]. apply run_at_true in R1. lia.
  - rewrite N1 in R2; [discriminate|]. apply run_at_true in R2. lia.
Qed.

(** The scan of a section whose first run starts at [O] finds it. *)
Lemma cave_in_section_first_run (O : Z) :
  first_run d sec R O = true -> is_Some (name sec) ->
  cave_in_section d R sec =
  Ret (Some (sh_addr sec + O, sh_offset sec + O)).
Proof.
  intros Hfirst [nm Hname]. pose proof cave_in_section_cases as Hc.
  pose proof Hfirst as Hf.
  apply first_run_true in Hf as [Hrun _].
  pose proof Hrun as Hr. apply run_at_true in Hr as (HO & HOR & Hz).
  destruct (cave_in_section d R sec) as [[[addr off]|]|e|].
  - destruct Hc as (O' & -> & -> & Hfirst' & _).
    rewrite (first_run_unique _ _ Hfirst Hfirst'). reflexivity.
  - apply has_run_false with (O := O) in Hc. congruence.
  - exfalso. destruct Hc as [(_ & i & Hi & Hnone & Hruns)|(_ & Hn & _)];
      [|congruence].
    destruct (Z.le_gt_cases (O + R) i) as [Hle|Hgt].
    + specialize (Hruns O HO Hle). apply zero_run_true in Hz. congruence.
    + destruct (Z.lt_ge_cases i O) as [Hlo|Hhi].
      * apply lookup_ge_None in Hnone.
        specialize (Hz 0 ltac:(lia)). apply lookup_lt_Some in Hz. lia.
      * specialize (Hz (i - O) ltac:(lia)).
        replace (sh_offset sec + O + (i - O)) with (sh_offset sec + i) in Hz
          by lia. congruence.
  - contradiction.
Qed.

(** The scan of a section inside the buffer that holds no run returns
    without a cave. *)
Lemma cave_in_section_no_cave :
  no_cave_in d R sec = true -> cave_in_section d R sec = Ret None.
Proof.
  unfold no_cave_in. rewrite !andb_true_iff, negb_true_iff, !Z.leb_le.
  intros [[_ Hin] Hno]. pose proof cave_in_section_cases as Hc.
  destruct (cave_in_section d R sec) as [[[addr off]|]|e|].
  - destruct Hc as (O & _ & _ & Hfirst & _).
    apply first_run_true in Hfirst as [Hrun _].
    apply has_run_false with (O := O) in Hno. congruence.
  - reflexivity.
  - exfalso. destruct Hc as [(_ & i & Hi & Hnone & _)|(_ & _ & O & Hfirst)].
    + apply lookup_ge_None in Hnone. unfold len in Hin. lia.
    + apply first_run_true in Hfirst as [Hrun _].
      apply has_run_false with (O := O) in Hno. congruence.
  - contradiction.
Qed.
End CaveInSection.

(** ** The cave finder over all sections *)

Lemma dict_get_keys {V} (d : dict V) (k : Z) :
  k ∈ keys d -> is_Some (dict_get d k).
Proof.
  induction d as [|[k' v] d IH]; simpl; intros Hk.
  - inversion Hk.
  - destruct (Z.eqb_spec k' k); [eauto|].
    apply IH. inversion Hk; subst; [congruence|assumption].
Qed.

Lemma dict_get_elem_of {V} (d : dict V) (k : Z) (v : V) :
  dict_get d k = Some v -> (k, v) ∈ d.
Proof.
  induction d as [|[k' v'] d IH]; simpl; [discriminate|].
  destruct (Z.eqb_spec k' k) as [->|_].
  - intros [= ->]. left.
  - intros H. right. apply IH, H.
Qed.

Lemma elem_of_scan_order secs sec :
  sec ∈ scan_order secs -> exists k l, (k, l) ∈ secs /\ sec ∈ l.
Proof.
  unfold scan_order. rewrite list_elem_of_In, in_flat_map.
  intros (k & _ & Hin). destruct (dict_get secs k) as [l|] eqn:E.
  - exists k, l. split; [apply dict_get_elem_of, E|].
    apply list_elem_of_In, Hin.
  - destruct Hin.
Qed.

Section CaveInGroups.
Variables (d : list byte) (R : Z).

Lemma cave_in_group_app (l1 l2 : list ElfSection) :
  cave_in_group d R (l1 ++ l2) =
  let+ r := cave_in_group d R l1 in
  match r with
  | Some loc => Ret (Some loc)
  | None => cave_in_group d R l2
  end.
Proof.
  induction l1 as [|sec l1 IH]; simpl; [reflexivity|].
  destruct (cave_in_section d R sec) as [[loc|]| |]; simpl;
    try reflexivity. apply IH.
Qed.

Lemma cave_in_groups_flat (secs : dict (list ElfSection)) (ks : list Z) :
  (forall k, k ∈ ks -> is_Some (dict_get secs k)) ->
  cave_in_groups d R secs ks =
  cave_in_group d R
    (flat_map (fun k => match dict_get secs k with
                        | Some l => l
                        | None => []
                        end) ks).
Proof.
  induction ks as [|k ks IH]; intros Hks; simpl; [reflexivity|].
  destruct (Hks k) as [l Hl]; [left|]. rewrite Hl, cave_in_group_app.
  destruct (cave_in_group d R l) as [[loc|]| |]; simpl; try reflexivity.
  apply IH. intros k' Hk'. apply Hks. right. assumption.
Qed.

Lemma cave_in_group_quiet (l : list ElfSection) :
  Forall (fun s => cave_in_section d R s = Ret None) l ->
  cave_in_group d R l = Ret None.
Proof.
  induction 1 as [|sec l Hsec _ IH]; simpl; [reflexivity|].
  rewrite Hsec. simpl. exact IH.
Qed.

Lemma cave_in_group_found (pre post : list ElfSection) sec loc :
  Forall (fun s => cave_in_section d R s = Ret None) pre ->
  cave_in_section d R sec = Ret (Some loc) ->
  cave_in_group d R (pre ++ sec :: post) = Ret (Some loc).
Proof.
  intros Hpre Hsec. rewrite cave_in_group_app, cave_in_group_quiet by assumption.
  simpl. rewrite Hsec. reflexivity.
Qed.

Lemma cave_in_group_inv (l : list ElfSection) loc :
  cave_in_group d R l = Ret (Some loc) ->
  exists pre sec post,
    l = pre ++ sec :: post /\
    Forall (fun s => cave_in_section d R s = Ret None) pre /\
    cave_in_section d R sec = Ret (Some loc).
Proof.
  induction l as [|sec l IH]; simpl; [discriminate|].
  destruct (cave_in_section d R sec) as [[loc'|]| |] eqn:E; simpl;
    try discriminate.
  - intros [= ->]. exists [], sec, l. repeat split; [constructor|assumption].
  - intros H. destruct (IH H) as (pre & s & post & -> & Hpre & Hs).
    exists (sec :: pre), s, post. repeat split; [constructor|]; assumption.
Qed.
End CaveInGroups.

Lemma find_cave_scan (R : Z) self secs :
  sections self = Some secs ->
  find_cave R self = (cave_in_group (data self) R (scan_order secs), self).
Proof.
  intros Hsecs. unfold find_cave, bind, read_attr, read, lift.
  rewrite Hsecs. simpl. f_equal. apply cave_in_groups_flat.
  intros k Hk. apply dict_get_keys, Hk.
Qed.

Lemma no_cave_in_offset d R sec : no_cave_in d R sec = true -> 0 <= sh_offset sec.
Proof.
  unfold no_cave_in. rewrite !andb_true_iff, Z.leb_le. tauto.
Qed.

(** C3: let [sec] be the first section the search meets that is not an
    empty-handed one (those before it lie in the buffer and hold no run of
    [R] zero bytes), and let its first run of [R >= 1] zero bytes start at
    offset [O].  Then [find_cave R] returns [(sh_addr + O, sh_offset + O)].
    A section without a run of [R] zero bytes, whatever shorter runs it
    holds, never gives a cave; and a run that fills the last [R] bytes of
    the section is returned like any other. *)
Theorem find_cave_returns_first_run (self : Elf)
    (secs : dict (list ElfSection)) (pre post : list ElfSection)
    (sec : ElfSection) (R O : Z) :
  sections self = Some secs ->
  scan_order secs = pre ++ sec :: post ->
  forallb (no_cave_in (data self) R) pre = true ->
  1 <= R -> 0 <= sh_offset sec -> is_Some (name sec) ->
  first_run (data self) sec R O = true ->
  find_cave R self =
    (Ret (Some (sh_addr sec + O, sh_offset sec + O)), self) /\
  (forall sec', 0 <= sh_offset sec' ->
      has_run (data self) sec' R = false ->
      forall loc, cave_in_section (data self) R sec' <> Ret (Some loc)) /\
  (O + R = sh_size sec ->
   find_cave R self =
     (Ret (Some (sh_addr sec + (sh_size sec - R),
                 sh_offset sec + (sh_size sec - R))), self)).
Proof.
  intros Hsecs Horder Hpre HR Hoff Hname Hfirst.
  assert (Hfind : find_cave R self =
            (Ret (Some (sh_addr sec + O, sh_offset sec + O)), self)).
  { rewrite (find_cave_scan R self secs Hsecs), Horder. f_equal.
    apply cave_in_group_found.
    - apply Forall_forall. intros s Hs.
      rewrite forallb_forall in Hpre.
      specialize (Hpre s (proj1 (list_elem_of_In _ _) Hs)).
      apply cave_in_section_no_cave; [assumption| |assumption].
      eapply no_cave_in_offset, Hpre.
    - apply cave_in_section_first_run; assumption. }
  split; [exact Hfind|]. split.
  - intros sec' Hoff' Hno loc Hloc.
    pose proof (cave_in_section_cases (data self) sec' R HR Hoff') as Hc.
    rewrite Hloc in Hc. destruct loc as [addr off].
    destruct Hc as (O' & _ & _ & Hf & _).
    apply first_run_true in Hf as [Hrun _].
    apply has_run_false with (O := O') in Hno. congruence.
  - intros Hend. rewrite Hfind. do 4 f_equal; lia.
Qed.

(** ** Assertions about methods *)

Section Triples.
Context {A : Type}.

Lemma triple_ret (P : Elf -> Prop) (a : A) (Q : A -> Elf -> Prop) :
  (forall self, P self -> Q a self) -> triple P (ret a) Q.
Proof. intros H self a' self' HP [= <- <-]. auto. Qed.

Lemma triple_lift (P : Elf -> Prop) (o : outcome A) (Q : A -> Elf -> Prop) :
  (forall self a, P self -> o = Ret a -> Q a self) -> triple P (lift o) Q.
Proof. intros H self a self' HP Hrun. injection Hrun as Ho <-. auto. Qed.

Lemma triple_read (P : Elf -> Prop) (f : Elf -> A) (Q : A -> Elf -> Prop) :
  (forall self, P self -> Q (f self) self) -> triple P (read f) Q.
Proof. intros H self a self' HP [= <- <-]. auto. Qed.

Lemma triple_read_attr (P : Elf -> Prop) (f : Elf -> option A)
    (Q : A -> Elf -> Prop) :
  (forall self a, P self -> f self = Some a -> Q a self) ->
  triple P (read_attr f) Q.
Proof.
  intros H self a self' HP. unfold read_attr.
  destruct (f self) eqn:E; simpl; intros [= <- <-]. auto.
Qed.

Lemma triple_bind {B} (P : Elf -> Prop) (m : M A) (k : A -> M B)
    (Q : A -> Elf -> Prop) (S : B -> Elf -> Prop) :
  triple P m Q -> (forall a, triple (Q a) (k a) S) -> triple P (bind m k) S.
Proof.
  intros Hm Hk self b self2 HP Hrun.
  apply bind_inv in Hrun as (a & self1 & H1 & H2).
  eapply Hk; [|exact H2]. eapply Hm; eassumption.
Qed.

Lemma triple_weaken (P P' : Elf -> Prop) (m : M A)
    (Q Q' : A -> Elf -> Prop) :
  triple P' m Q' -> (forall self, P self -> P' self) ->
  (forall a self, Q' a self -> Q a self) -> triple P m Q.
Proof. intros Hm HP HQ self a self' H Hrun. eapply HQ, Hm; eauto. Qed.
End Triples.

Lemma triple_modify (P : Elf -> Prop) (f : Elf -> Elf)
    (Q : unit -> Elf -> Prop) :
  (forall self, P self -> Q tt (f self)) -> triple P (modify f) Q.
Proof. intros H self a self' HP [= <- <-]. auto. Qed.

Lemma triple_for_each {X} (I : Elf -> Prop) (l : list X)
    (body : X -> M unit) :
  (forall x, x ∈ l -> triple I (body x) (fun _ => I)) ->
  triple I (for_each l body) (fun _ => I).
Proof.
  induction l as [|x l IH]; intros Hbody; simpl.
  - apply triple_ret. auto.
  - eapply triple_bind; [apply Hbody; left|]. intros ?.
    apply IH. intros y Hy. apply Hbody. right. assumption.
Qed.

(** A method that keeps [f] keeps every property of [f]. *)
Lemma triple_keeps {A X} (f : Elf -> X) (P : X -> Prop) (m : M A) :
  keeps f m -> triple (fun self => P (f self)) m (fun _ self => P (f self)).
Proof.
  intros Hk self a self' HP Hrun. specialize (Hk self).
  rewrite Hrun in Hk. simpl in Hk. rewrite Hk. exact HP.
Qed.

(** ** What parsing establishes *)

Lemma dict_set_all {V} (Q : V -> Prop) (d : dict V) (k : Z) (v : V) :
  Forall (fun kl => Q (snd kl)) d -> Q v ->
  Forall (fun kl => Q (snd kl)) (dict_set d k v).
Proof.
  intros Hd Hv. induction Hd as [|[k' v'] d Hkv Hd IH]; simpl.
  - repeat constructor. exact Hv.
  - destruct (k' =? k); constructor; assumption.
Qed.

Lemma dict_get_all {V} (Q : V -> Prop) (d : dict V) (k : Z) (v : V) :
  Forall (fun kl => Q (snd kl)) d -> dict_get d k = Some v -> Q v.
Proof.
  intros Hd Hget. apply dict_get_elem_of in Hget.
  rewrite Forall_forall in Hd. apply (Hd (k, v)), Hget.
Qed.

Lemma add_section_all (P : ElfSection -> Prop) d sec d' :
  all_sections P d -> P sec -> add_section d sec = Ret d' ->
  all_sections P d'.
Proof.
  unfold all_sections, add_section. intros Hd Hsec.
  set (d1 := match dict_get d (sh_type sec) with
             | Some (_ :: _) => d
             | _ => dict_set d (sh_type sec) []
             end).
  assert (Hd1 : Forall (fun kl => Forall P (snd kl)) d1).
  { unfold d1. destruct (dict_get d (sh_type sec)) as [[|]|];
      try assumption; apply (dict_set_all (Forall P)); auto. }
  destruct (dict_get d1 (sh_type sec)) as [l|] eqn:E; [|discriminate].
  intros [= <-]. apply (dict_set_all (Forall P)); [assumption|].
  apply Forall_app. split; [|repeat constructor; assumption].
  eapply (dict_get_all (Forall P)); eassumption.
Qed.

Lemma unpack_shdr_unsigned buf sec :
  unpack_shdr buf = Ret sec -> unsigned_section sec.
Proof.
  unfold unpack_shdr. destruct (decide _); [|discriminate].
  intros [= <-]. split; apply field_nonneg.
Qed.

Lemma set_section_name_unsigned t j s self :
  sections_unsigned self -> sections_unsigned (set_section_name t j s self).
Proof.
  intros (secs & Hsecs & Hall). unfold set_section_name. rewrite Hsecs.
  destruct (dict_get secs t) as [l|] eqn:E; [|exists secs; auto].
  eexists. split; [reflexivity|].
  apply (dict_set_all (Forall unsigned_section)); [assumption|].
  pose proof (dict_get_all (Forall unsigned_section) _ _ _ Hall E) as Hl.
  apply Forall_alter; [exact Hl|]. intros x _ Hx. exact Hx.
Qed.

Lemma name_group_unsigned t l : forall j,
  triple sections_unsigned (name_group t j l) (fun _ => sections_unsigned).
Proof.
  induction l as [|sec l IH]; intros j; simpl.
  - apply triple_ret. auto.
  - eapply triple_bind with (Q := fun _ => sections_unsigned).
    + intros self a self' HP Hrun.
      pose proof (get_string_keeps (fun s => s) (sh_name sec) self) as Hk.
      rewrite Hrun in Hk. simpl in Hk. subst. exact HP.
    + intros s. eapply triple_bind; [|intros ?; apply IH].
      apply triple_modify. intros self. apply set_section_name_unsigned.
Qed.

Lemma parse_sections_header_unsigned :
  triple (fun _ => True) parse_sections_header (fun _ => sections_unsigned).
Proof.
  unfold parse_sections_header.
  eapply triple_bind with (Q := fun _ => sections_unsigned).
  { apply triple_modify. intros self _. exists []. split; [reflexivity|].
    constructor. }
  intros ?. eapply triple_bind with (Q := fun _ => sections_unsigned).
  { apply triple_read_attr. auto. }
  intros h. eapply triple_bind with (Q := fun _ => sections_unsigned).
  { apply triple_read. auto. }
  intros d. eapply triple_bind with (Q := fun _ => sections_unsigned).
  { apply triple_for_each. intros sec_index _.
    eapply triple_bind
      with (Q := fun sec self => sections_unsigned self /\
                                 unsigned_section sec).
    { apply triple_lift. intros self sec HP Hsec. split; [assumption|].
      eapply unpack_shdr_unsigned, Hsec. }
    intros sec.
    eapply triple_bind
      with (Q := fun secs self => all_sections unsigned_section secs /\
                                  unsigned_section sec).
    { apply triple_read_attr. intros self secs [(secs' & Hs & Hall) Hsec] E.
      split; [congruence|assumption]. }
    intros secs.
    eapply triple_bind
      with (Q := fun secs' _ => all_sections unsigned_section secs').
    { apply triple_lift. intros self secs' [Hall Hsec] Hadd.
      eapply add_section_all; eassumption. }
    intros secs'. eapply triple_bind with (Q := fun _ => sections_unsigned).
    { apply triple_modify. intros self Hall. exists secs'. auto. }
    intros ?. destruct (_ =? _).
    - apply triple_modify. intros self (s & Hs & Hall). exists s. auto.
    - apply triple_ret. auto. }
  intros ?. eapply triple_bind with (Q := fun _ => sections_unsigned).
  { apply triple_read_attr. auto. }
  intros secs. apply triple_for_each. intros sec_type _.
  eapply triple_bind with (Q := fun _ => sections_unsigned).
  { apply triple_read_attr. auto. }
  intros secs'. destruct (dict_get secs' sec_type).
  - apply name_group_unsigned.
  - apply triple_lift. intros; discriminate.
Qed.

Lemma scan_order_all (P : ElfSection -> Prop) secs :
  all_sections P secs -> Forall P (scan_order secs).
Proof.
  intros Hall. apply Forall_forall. intros sec Hsec.
  apply elem_of_scan_order in Hsec as (k & l & Hkl & Hin).
  unfold all_sections in Hall. rewrite Forall_forall in Hall.
  specialize (Hall _ Hkl). simpl in Hall.
  rewrite Forall_forall in Hall. auto.
Qed.

(** ** What the encoder leaves alone *)

Lemma same_outside_refl lo hi d : same_outside lo hi d d.
Proof. split; auto. Qed.

Lemma same_outside_trans lo hi d0 d1 d2 :
  same_outside lo hi d0 d1 -> same_outside lo hi d1 d2 ->
  same_outside lo hi d0 d2.
Proof.
  intros [L1 H1] [L2 H2]. split; [congruence|].
  intros i Hi. rewrite H2, H1 by assumption. reflexivity.
Qed.

Lemma setitem_inv (l l' : list byte) (i v : Z) :
  0 <= i -> setitem l i v = Ret l' ->
  exists b, l' = <[Z.to_nat i := b]> l.
Proof.
  intros Hi. unfold setitem. destruct (byte_of_int v) as [b| |]; simpl;
    try discriminate.
  destruct (Z.ltb_spec i 0); [lia|]. destruct (Z.ltb_spec i 0); [lia|].
  destruct (_ <? _); [|discriminate]. intros [= <-]. eauto.
Qed.

Lemma xor_at_inv (pos key : Z) self self' :
  0 <= pos -> xor_at pos key self = (Ret tt, self') ->
  exists b, self' = set_data (<[Z.to_nat pos := b]> (data self)) self.
Proof.
  intros Hpos. unfold xor_at, bind, read, lift, modify.
  destruct (getitem _ _) as [c| |]; try discriminate.
  destruct (setitem _ _ _) as [d'| |] eqn:E; try discriminate.
  intros [= <-]. apply setitem_inv in E as [b ->]; eauto.
Qed.

Lemma section_in_group_elem nm l sec :
  section_in_group nm l = Ret (Some sec) -> sec ∈ l.
Proof.
  induction l as [|s l IH]; simpl; [discriminate|].
  destruct (name s) as [n|]; simpl; [|discriminate].
  destruct (String.eqb n nm).
  - intros [= ->]. left.
  - intros H. right. auto.
Qed.

Lemma section_in_groups_elem nm secs ks sec :
  section_in_groups nm secs ks = Ret (Some sec) ->
  exists k l, (k, l) ∈ secs /\ sec ∈ l.
Proof.
  induction ks as [|k ks IH]; simpl; [discriminate|].
  destruct (dict_get secs k) as [l|] eqn:E; [|discriminate].
  destruct (section_in_group nm l) as [[s|]| |] eqn:G; simpl;
    try discriminate.
  - intros [= ->]. exists k, l. split; [apply dict_get_elem_of, E|].
    eapply section_in_group_elem, G.
  - exact IH.
Qed.

Lemma get_section_unsigned nm self sec :
  sections_unsigned self ->
  fst (get_section nm self) = Ret (Some sec) -> unsigned_section sec.
Proof.
  intros (secs & Hsecs & Hall). unfold get_section, bind, read_attr, lift.
  rewrite Hsecs. simpl. intros H.
  apply section_in_groups_elem in H as (k & l & Hkl & Hin).
  unfold all_sections in Hall. rewrite Forall_forall in Hall.
  specialize (Hall _ Hkl). simpl in Hall. rewrite Forall_forall in Hall. auto.
Qed.

Lemma pack_code_frame (key : Z) self self' :
  sections_unsigned self ->
  pack_code key self = (Ret tt, self') ->
  exists text_sec,
    fst (get_section ".text" self) = Ret (Some text_sec) /\
    sections self' = sections self /\ header self' = header self /\
    same_outside (sh_offset text_sec) (sh_offset text_sec + sh_size text_sec)
                 (data self) (data self').
Proof.
  intros Huns Hrun. unfold pack_code in Hrun.
  apply bind_inv in Hrun as (r & s1 & Hget & Hrun).
  rewrite get_section_run in Hget. injection Hget as Hr <-.
  apply bind_inv in Hrun as (text_sec & s2 & Hattr & Hrun).
  destruct r as [sec|]; [|discriminate]. injection Hattr as <- <-.
  exists sec. split; [assumption|].
  destruct (get_section_unsigned _ _ _ Huns Hr) as [Hoff _].
  set (I := fun s : Elf =>
    sections s = sections self /\ header s = header self /\
    same_outside (sh_offset sec) (sh_offset sec + sh_size sec)
                 (data self) (data s)).
  assert (Hloop : triple I
            (for_each (range 0 (sh_size sec))
                      (fun i => xor_at (sh_offset sec + i) key))
            (fun _ => I)).
  { apply triple_for_each. intros i Hi s a s' (Hs & Hh & Hsame) Hx.
    apply elem_of_range in Hi. destruct a.
    apply xor_at_inv in Hx as [b ->]; [|lia].
    split; [exact Hs|]. split; [exact Hh|].
    eapply same_outside_trans; [exact Hsame|]. simpl. split.
    - apply length_insert.
    - intros j Hj. apply list_lookup_insert_ne. lia. }
  apply (Hloop self tt self'); [|exact Hrun].
  repeat split; auto.
Qed.

(** ** The script *)

Lemma bind_assoc_run {A B C} (m : M A) (k : A -> M B) (h : B -> M C) self :
  bind (bind m k) h self = bind m (fun a => bind (k a) h) self.
Proof. unfold bind. destruct (m self) as [[a| |] s]; reflexivity. Qed.

Lemma bind_cong {A B} (m : M A) (k k' : A -> M B) self :
  (forall a s, k a s = k' a s) -> bind m k self = bind m k' self.
Proof.
  intros H. unfold bind. destruct (m self) as [[a| |] s]; auto.
Qed.

Lemma script_split asm self :
  script asm self =
  bind (before_cave asm)
       (fun unpacker_asm =>
          let* r := find_cave (len unpacker_asm) in
          match r with
          | None => lift (Raise TypeError)
          | Some (unpacker_addr, unpacker_off) =>
              change_ep unpacker_addr ;;;
              write_unpacker (Some unpacker_off) unpacker_asm unpacker_off ;;;
              read data
          end) self.
Proof.
  symmetry. unfold script, before_cave.
  rewrite bind_assoc_run. apply bind_cong. intros _ s1.
  rewrite bind_assoc_run. apply bind_cong. intros _ s2.
  rewrite bind_assoc_run. reflexivity.
Qed.

Lemma create_unpacker_keeps {X} asm (f : Elf -> X) :
  keeps f (create_unpacker asm).
Proof. unfold create_unpacker. repeat keeps_step. Qed.

Lemma before_cave_inv asm self0 stub st :
  before_cave asm self0 = (Ret stub, st) ->
  (52 <= length (data self0))%nat /\
  sections_unsigned st /\
  exists text_sec,
    fst (get_section ".text" st) = Ret (Some text_sec) /\
    same_outside (sh_offset text_sec) (sh_offset text_sec + sh_size text_sec)
                 (data self0) (data st).
Proof.
  unfold before_cave. intros Hrun.
  apply bind_inv in Hrun as ([] & s1 & Hhdr & Hrun).
  apply bind_inv in Hrun as ([] & s2 & Hsecs & Hrun).
  apply bind_inv in Hrun as ([] & s3 & Hpack & Hrun).
  destruct (parse_header_inv _ _ Hhdr) as (h & _ & -> & _ & Hlen).
  pose proof (parse_sections_header_keeps_data (set_header h self0)) as Hd2.
  rewrite Hsecs in Hd2. simpl in Hd2.
  pose proof (parse_sections_header_unsigned _ _ _ I Hsecs) as Hu2.
  destruct (pack_code_frame _ _ _ Hu2 Hpack)
    as (text_sec & Htext & Hs3 & _ & Hsame).
  pose proof (create_unpacker_keeps asm (fun s => s) s3) as Hk.
  rewrite Hrun in Hk. simpl in Hk. subst st.
  split; [exact Hlen|]. split.
  - destruct Hu2 as (secs & E & Hall). exists secs. split; congruence.
  - exists text_sec. split.
    + rewrite <- Htext. apply get_section_sections. exact Hs3.
    + rewrite <- Hd2. exact Hsame.
Qed.

Lemma has_run_empty d sec : 0 <= sh_size sec -> has_run d sec 0 = true.
Proof.
  intros Hsize. apply has_run_true. exists 0. apply run_at_true.
  repeat split; try lia.
Qed.

Lemma find_cave_found_inv (R : Z) self secs loc :
  sections self = Some secs -> all_sections unsigned_section secs ->
  1 <= R ->
  fst (find_cave R self) = Ret (Some loc) ->
  exists sec O,
    sec ∈ scan_order secs /\ first_run (data self) sec R O = true /\
    loc = (sh_addr sec + O, sh_offset sec + O).
Proof.
  intros Hsecs Hall HR. rewrite (find_cave_scan R self secs Hsecs). simpl.
  intros Hfound.
  apply cave_in_group_inv in Hfound as (pre & sec & post & Horder & _ & Hsec).
  assert (Hin : sec ∈ scan_order secs)
    by (rewrite Horder; apply elem_of_app; right; left).
  pose proof (scan_order_all _ _ Hall) as Huns.
  rewrite Forall_forall in Huns. destruct (Huns sec Hin) as [Hoff Hsize].
  pose proof (cave_in_section_cases (data self) sec R HR Hoff) as Hc.
  rewrite Hsec in Hc. destruct loc as [addr off].
  destruct Hc as (O & -> & -> & Hfirst & _). eauto.
Qed.

Lemma find_cave_run (R : Z) self :
  find_cave R self = (fst (find_cave R self), self).
Proof. apply keeps_all_run, find_cave_keeps. Qed.

Lemma find_cave_without_runs (R : Z) self secs :
  sections self = Some secs -> all_sections unsigned_section secs ->
  0 <= R ->
  Forall (fun s => has_run (data self) s R = false) (scan_order secs) ->
  (forall loc, fst (find_cave R self) <> Ret (Some loc)) /\
  (Forall (fun s => sh_offset s + sh_size s <= len (data self))
          (scan_order secs) ->
   fst (find_cave R self) = Ret None).
Proof.
  intros Hsecs Hall HR Hno.
  pose proof (scan_order_all _ _ Hall) as Huns.
  destruct (Z.eq_dec R 0) as [->|HR0].
  - assert (Hnil : scan_order secs = []).
    { destruct (scan_order secs) as [|sec l]; [reflexivity|].
      inversion Hno as [|? ? Hsec _]; inversion Huns as [|? ? [_ Hsize] _];
        subst.
      rewrite has_run_empty in Hsec by assumption. discriminate. }
    rewrite (find_cave_scan 0 self secs Hsecs), Hnil. simpl.
    split; [discriminate|reflexivity].
  - split.
    + intros loc Hloc.
      destruct (find_cave_found_inv R self secs loc Hsecs Hall ltac:(lia) Hloc)
        as (sec & O & Hin & Hfirst & _).
      rewrite Forall_forall in Hno. specialize (Hno sec Hin).
      apply first_run_true in Hfirst as [Hrun _].
      apply has_run_false with (O := O) in Hno. congruence.
    + intros Hin. rewrite (find_cave_scan R self secs Hsecs). simpl.
      apply cave_in_group_quiet.
      rewrite Forall_forall in *. intros sec Hsec.
      destruct (Huns sec Hsec) as [Hoff _].
      apply cave_in_section_no_cave; [lia|assumption|].
      unfold no_cave_in. rewrite (Hno sec Hsec). simpl.
      rewrite andb_true_r, andb_true_iff, !Z.leb_le. auto.
Qed.

(** C8: take the object as the script has it when it calls [find_cave],
    with the stub assembled.  If no section the search scans holds a run
    of zero bytes as long as the stub, [find_cave] returns no location
    (it returns [None] when the sections lie inside the buffer, and
    otherwise raises), and the script ends before it writes the packed
    file. *)
Theorem no_cave_no_packed_file (asm : string -> outcome (list byte))
    (fname : string) (elf_data stub : list byte) (st : Elf)
    (secs : dict (list ElfSection)) :
  before_cave asm (mkElf fname elf_data None None None) = (Ret stub, st) ->
  sections st = Some secs ->
  forallb (fun s => negb (has_run (data st) s (len stub))) (scan_order secs)
    = true ->
  (forall loc, fst (find_cave (len stub) st) <> Ret (Some loc)) /\
  (Forall (fun s => sh_offset s + sh_size s <= len (data st))
          (scan_order secs) ->
   fst (find_cave (len stub) st) = Ret None) /\
  packed_file asm fname elf_data = None.
Proof.
  intros Hbefore Hsecs Hquietb.
  assert (Hno : Forall (fun s => has_run (data st) s (len stub) = false)
                       (scan_order secs)).
  { apply Forall_forall. intros s Hs. rewrite forallb_forall in Hquietb.
    apply negb_true_iff, Hquietb, list_elem_of_In, Hs. }
  destruct (before_cave_inv _ _ _ _ Hbefore) as (_ & (secs' & E & Hall) & _).
  assert (secs' = secs) by congruence. subst secs'.
  destruct (find_cave_without_runs (len stub) st secs Hsecs Hall
              (len_nonneg stub) Hno) as [Hnone Hquiet].
  split; [exact Hnone|]. split; [exact Hquiet|].
  unfold packed_file, main. destruct (bool_decide _); [|reflexivity].
  rewrite script_split. erewrite bind_run by exact Hbefore.
  unfold bind at 1. rewrite find_cave_run.
  destruct (fst (find_cave (len stub) st)) as [[loc|]| |] eqn:F;
    try reflexivity.
  exfalso. exact (Hnone loc eq_refl).
Qed.

(** ** The three regions *)

Lemma first_run_in_buffer d sec R O :
  1 <= R -> 0 <= sh_offset sec -> first_run d sec R O = true ->
  0 <= sh_offset sec + O /\ sh_offset sec + O + R <= len d.
Proof.
  intros HR Hoff Hfirst. apply first_run_true in Hfirst as [Hrun _].
  apply run_at_true in Hrun as (HO & _ & Hz). split; [lia|].
  specialize (Hz (R - 1) ltac:(lia)). apply lookup_lt_Some in Hz.
  unfold len. lia.
Qed.

(** C5: when the script runs to its end, the bytes it writes to the packed
    file are as many as the bytes of the input, and they are the bytes of
    the input at every place outside the file range of [.text], outside
    the four bytes of the entry point at 24 to 27, and outside the
    [len(stub)] bytes from the offset [find_cave] returned. *)
Theorem packing_changes_three_regions (asm : string -> outcome (list byte))
    (fname : string) (elf_data out : list byte) :
  main asm fname elf_data = Ret out ->
  exists stub st text_sec addr off,
    before_cave asm (mkElf fname elf_data None None None) = (Ret stub, st) /\
    fst (get_section ".text" st) = Ret (Some text_sec) /\
    fst (find_cave (len stub) st) = Ret (Some (addr, off)) /\
    length out = length elf_data /\
    forall i : nat,
      ~ (sh_offset text_sec <= Z.of_nat i
         < sh_offset text_sec + sh_size text_sec) ->
      ~ (24 <= Z.of_nat i < 28) ->
      ~ (off <= Z.of_nat i < off + len stub) ->
      out !! i = elf_data !! i.
Proof.
  unfold main. destruct (bool_decide _); [|discriminate].
  set (self0 := mkElf fname elf_data None None None).
  destruct (script asm self0) as [o s_end] eqn:Hscript. simpl.
  intros ->. rewrite script_split in Hscript.
  apply bind_inv in Hscript as (stub & st & Hbefore & Hrest).
  apply bind_inv in Hrest as (r & st' & Hfind & Hrest).
  rewrite find_cave_run in Hfind. injection Hfind as Hr <-.
  destruct r as [[addr off]|]; [|discriminate].
  apply bind_inv in Hrest as ([] & s5 & Hep & Hrest).
  apply bind_inv in Hrest as ([] & s6 & Hwrite & Hrest).
  injection Hrest as <- _.
  destruct (before_cave_inv _ _ _ _ Hbefore)
    as (Hlen & (secs & Hsecs & Hall) & text_sec & Htext & Hlen3 & Hsame).
  simpl in Hlen, Hlen3, Hsame.
  exists stub, st, text_sec, addr, off.
  split; [exact Hbefore|]. split; [exact Htext|]. split; [exact Hr|].
  (* the entry point *)
  unfold change_ep in Hep.
  apply bind_inv in Hep as (bs & s' & Hp32 & Hep).
  injection Hp32 as Hp32 <-. apply p32_inv in Hp32 as [Haddr ->].
  injection Hep as <-.
  rewrite write_unpacker_run in Hwrite. injection Hwrite as <-. simpl.
  set (d5 := set_slice (data st) 24 (24 + 4) (le32 addr)).
  assert (Hb5 : 24 + 4 <= len (data st)) by (unfold len; lia).
  assert (Hlen5 : length d5 = length (data st))
    by (apply set_slice_length; [lia|exact Hb5|reflexivity]).
  assert (Hd5 : forall i : nat, ~ (24 <= Z.of_nat i < 28) ->
                  d5 !! i = data st !! i).
  { intros i Hi. apply set_slice_lookup_out; [lia|exact Hb5|reflexivity|lia]. }
  (* the cave *)
  destruct (Z.eq_dec (len stub) 0) as [Hempty|Hfull].
  - assert (stub = []) as -> by (destruct stub; [reflexivity|discriminate]).
    change (len []) with 0. rewrite set_slice_empty.
    split; [congruence|]. intros i Ht He _. rewrite Hd5 by assumption. auto.
  - pose proof (len_nonneg stub) as Hnn.
    destruct (find_cave_found_inv (len stub) st secs (addr, off) Hsecs Hall
                ltac:(lia) Hr) as (sec & O & Hin & Hfirst & [= -> ->]).
    pose proof (scan_order_all _ _ Hall) as Huns.
    rewrite Forall_forall in Huns. destruct (Huns sec Hin) as [Hoff _].
    destruct (first_run_in_buffer (data st) sec (len stub) O ltac:(lia)
                Hoff Hfirst) as [Hlo Hhi].
    assert (Hb6 : sh_offset sec + O + len stub <= len d5)
      by (unfold len in *; lia).
    split.
    + rewrite set_slice_length; [congruence|lia|exact Hb6|lia].
    + intros i Ht He Hc.
      rewrite set_slice_lookup_out; [|lia|exact Hb6|lia|lia].
      rewrite Hd5 by assumption. auto.
Qed.

(** ** The sections without file contents *)

(** C1: the search does select a cave inside a section of type 8.  In
    [image_bss] every run of 48 zero bytes lies in the bytes 173 to 236,
    the file range of [.bss], whose [sh_type] is 8; [find_cave 48]
    returns the file offset 173, the start of that section.  The guard
    before the scan compares the [int] with a member of [SectionType] and
    so is false for every section. *)
Theorem find_cave_selects_nobits_section :
  runs_only_within image_bss 48 173 237 = true /\
  (exists sec,
     sec ∈ scan_order (default [] (sections (parsed image_bss))) /\
     sh_type sec = SectionType_value SHT_NOBITS /\
     sh_offset sec = 173 /\ sh_size sec = 64 /\
     fst (find_cave 48 (parsed image_bss)) =
       Ret (Some (sh_addr sec + 0, sh_offset sec + 0)) /\
     inside sec 173 = true) /\
  (forall sec, py_eq (PyInt (sh_type sec)) (PyEnum SHT_NOBITS) = false).
Proof.
  split; [vm_compute; reflexivity|]. split; [|reflexivity].
  exists (mkSection 11 8 0 0x0804a000 173 64 0 0 1 0 (Some ".bss"%string)).
  split; [|repeat split; vm_compute; reflexivity].
  vm_compute. right. left.
Qed.

(** ** The order of the search *)

(** C4, as stated, fails: in [image_two_caves] the sections with table
    index 2 ([.note], type 7) and 3 ([.data], type 1) both hold a run of
    16 zero bytes; [find_cave 16] returns the run of [.data], because the
    dictionary lists type 1, first seen at index 1, before type 7. *)
Lemma find_cave_not_in_table_order :
  ~ table_order_claim (parsed image_two_caves) 16.
Proof.
  intros Hclaim.
  destruct (header (parsed image_two_caves)) as [h|] eqn:Hh;
    [|vm_compute in Hh; discriminate Hh].
  destruct (Hclaim h 0x0804a000 277 Hh)
    as (i & sec & Hi & Hentry & Hrun & Hin & Hmin);
    [vm_compute; reflexivity|].
  vm_compute in Hh. injection Hh as <-.
  change (1 <= i < 5) in Hi.
  assert (Hcases : i = 1 \/ i = 2 \/ i = 3 \/ i = 4) by lia.
  destruct Hcases as [-> | [-> | [-> | ->]]];
    vm_compute in Hentry; injection Hentry as <-;
    try (vm_compute in Hin; discriminate Hin).
  specialize (Hmin 2 (mkSection 7 7 0 0x08049000 260 16 0 0 1 0 None)
                   ltac:(lia)).
  vm_compute in Hmin. specialize (Hmin eq_refl). discriminate Hmin.
Qed.

(** ** Instances *)

Lemma pack_code_twice_witness :
  exists self1,
    pack_code 0xa5 (parsed image_text_data) = (Ret tt, self1) /\
    slice (data self1) (sh_offset text_section)
          (sh_offset text_section + sh_size text_section) =
      map (xor_byte 0xa5)
          (slice (data (parsed image_text_data)) (sh_offset text_section)
                 (sh_offset text_section + sh_size text_section)) /\
    pack_code 0xa5 self1 = (Ret tt, parsed image_text_data).
Proof.
  apply (pack_code_twice (parsed image_text_data) text_section 0xa5).
  - vm_compute. reflexivity.
  - simpl. lia.
  - simpl. lia.
  - vm_compute. intros H. discriminate H.
  - lia.
Defined.

Lemma change_ep_then_parse_header_witness :
  exists h self2 self3,
    header (snd (parse_header (fresh image_text_data))) = Some h /\
    change_ep 0x08049000 (snd (parse_header (fresh image_text_data))) =
      (Ret tt, self2) /\
    parse_header self2 = (Ret tt, self3) /\
    header self3 =
      Some (mkEhdr (e_ident h) (e_type h) (e_machine h) (e_version h)
                   0x08049000 (e_phoff h) (e_shoff h) (e_flags h)
                   (e_ehsize h) (e_phentsize h) (e_phnum h) (e_shentsize h)
                   (e_shnum h) (e_shstrndx h)).
Proof.
  apply (change_ep_then_parse_header (fresh image_text_data)).
  - vm_compute. reflexivity.
  - split; [lia|reflexivity].
Defined.

Lemma get_string_reads_to_terminator_witness :
  get_string 6 names_table =
    (match until_zero (drop (Z.to_nat (0 + 6)) (data names_table)) with
     | Some s => Ret (string_of_list_byte s)
     | None => Raise IndexError
     end, names_table) /\
  fst (get_string 0 names_table) = Ret ".text"%string /\
  fst (get_string 6 names_table) = Ret ".data"%string.
Proof.
  apply (get_string_reads_to_terminator names_table 0 6).
  - reflexivity.
  - lia.
Defined.

Lemma find_cave_returns_first_run_witness :
  find_cave 16 (parsed image_text_data) =
    (Ret (Some (sh_addr data_section + 0, sh_offset data_section + 0)),
     parsed image_text_data) /\
  (forall sec', 0 <= sh_offset sec' ->
      has_run (data (parsed image_text_data)) sec' 16 = false ->
      forall loc,
        cave_in_section (data (parsed image_text_data)) 16 sec'
        <> Ret (Some loc)) /\
  (0 + 16 = sh_size data_section ->
   find_cave 16 (parsed image_text_data) =
     (Ret (Some (sh_addr data_section + (sh_size data_section - 16),
                 sh_offset data_section + (sh_size data_section - 16))),
      parsed image_text_data)).
Proof.
  apply (find_cave_returns_first_run (parsed image_text_data)
           sections_text_data [text_section] [shstrtab_section]
           data_section 16 0).
  - vm_compute. reflexivity.
  - vm_compute. reflexivity.
  - vm_compute. reflexivity.
  - lia.
  - simpl. lia.
  - simpl. eauto.
  - vm_compute. reflexivity.
Defined.

Lemma no_cave_no_packed_file_witness :
  (forall loc,
      fst (find_cave (len stub32)
             (snd (before_cave asm32 (fresh image_text_data))))
      <> Ret (Some loc)) /\
  (Forall (fun s => sh_offset s + sh_size s
                    <= len (data (snd (before_cave asm32
                                         (fresh image_text_data)))))
          (scan_order sections_text_data) ->
   fst (find_cave (len stub32)
          (snd (before_cave asm32 (fresh image_text_data)))) = Ret None) /\
  packed_file asm32 "a.elf" image_text_data = None.
Proof.
  apply (no_cave_no_packed_file asm32 "a.elf" image_text_data stub32
           (snd (before_cave asm32 (fresh image_text_data)))
           sections_text_data).
  - vm_compute. reflexivity.
  - vm_compute. reflexivity.
  - vm_compute. reflexivity.
Defined.

Lemma packing_changes_three_regions_witness :
  exists stub st text_sec addr off,
    before_cave asm4 (mkElf "a.elf" image_text_data None None None)
      = (Ret stub, st) /\
    fst (get_section ".text" st) = Ret (Some text_sec) /\
    fst (find_cave (len stub) st) = Ret (Some (addr, off)) /\
    length packed_text_data = length image_text_data /\
    forall i : nat,
      ~ (sh_offset text_sec <= Z.of_nat i
         < sh_offset text_sec + sh_size text_sec) ->
      ~ (24 <= Z.of_nat i < 28) ->
      ~ (off <= Z.of_nat i < off + len stub) ->
      packed_text_data !! i = image_text_data !! i.
Proof.
  apply (packing_changes_three_regions asm4 "a.elf" image_text_data
           packed_text_data).
  vm_compute. reflexivity.
Defined.

(** ** Grouping by type *)

Lemma elem_of_first_seen (ts : list Z) (t : Z) :
  t ∈ first_seen ts <-> t ∈ ts.
Proof.
  induction ts as [|a ts IH]; simpl; [reflexivity|].
  rewrite !elem_of_cons, list_elem_of_filter, IH.
  destruct (decide (t = a)); tauto.
Qed.

Lemma first_seen_snoc (ts : list Z) (t : Z) :
  first_seen (ts ++ [t]) =
  if decide (t ∈ ts) then first_seen ts else first_seen ts ++ [t].
Proof.
  induction ts as [|a ts IH]; simpl.
  - destruct (decide (t ∈ [])) as [H|_]; [inversion H|reflexivity].
  - rewrite IH. destruct (decide (t ∈ ts)) as [Hin|Hout].
    + destruct (decide (t ∈ a :: ts)) as [_|Hn]; [reflexivity|].
      exfalso. apply Hn. right. exact Hin.
    + rewrite filter_app. destruct (decide (t = a)) as [->|Hne].
      * destruct (decide (a ∈ a :: ts)) as [_|Hn];
          [|exfalso; apply Hn; left].
        rewrite filter_cons_False by (intros H; apply H; reflexivity).
        rewrite filter_nil, app_nil_r. reflexivity.
      * destruct (decide (t ∈ a :: ts)) as [Hin|_].
        { apply elem_of_cons in Hin as [?|?]; contradiction. }
        rewrite filter_cons_True by assumption. reflexivity.
Qed.

Lemma of_type_snoc (t : Z) table sec :
  of_type t (table ++ [sec]) =
  of_type t table ++ (if decide (sh_type sec = t) then [sec] else []).
Proof.
  unfold of_type. rewrite filter_app. reflexivity.
Qed.

Lemma of_type_absent (t : Z) table :
  t ∉ map sh_type table -> of_type t table = [].
Proof.
  intros Hout. unfold of_type. induction table as [|s table IH];
    [reflexivity|].
  simpl in Hout. apply not_elem_of_cons in Hout as [Hne Hout].
  rewrite filter_cons_False by congruence. auto.
Qed.

Lemma of_type_present (t : Z) table :
  t ∈ map sh_type table -> exists s l, of_type t table = s :: l.
Proof.
  unfold of_type. induction table as [|s table IH]; simpl; intros Hin.
  - inversion Hin.
  - destruct (decide (sh_type s = t)) as [E|E].
    + rewrite filter_cons_True by assumption. eauto.
    + rewrite filter_cons_False by assumption. apply IH.
      apply elem_of_cons in Hin as [?|?]; [congruence|assumption].
Qed.

Section DictOfList.
Context {V : Type}.

Lemma dict_get_absent (d : dict V) (k : Z) :
  k ∉ keys d -> dict_get d k = None.
Proof.
  induction d as [|[k' v] d IH]; simpl; [reflexivity|]. intros Hout.
  apply not_elem_of_cons in Hout as [Hne Hout].
  destruct (Z.eqb_spec k' k); [congruence|auto].
Qed.

Lemma dict_set_absent (d : dict V) (k : Z) (v : V) :
  k ∉ keys d -> dict_set d k v = d ++ [(k, v)].
Proof.
  induction d as [|[k' v'] d IH]; simpl; [reflexivity|]. intros Hout.
  apply not_elem_of_cons in Hout as [Hne Hout].
  destruct (Z.eqb_spec k' k); [congruence|]. rewrite IH by assumption.
  reflexivity.
Qed.

Lemma dict_get_last (d : dict V) (k : Z) (v : V) :
  k ∉ keys d -> dict_get (d ++ [(k, v)]) k = Some v.
Proof.
  induction d as [|[k' v'] d IH]; simpl; intros Hout.
  - rewrite Z.eqb_refl. reflexivity.
  - apply not_elem_of_cons in Hout as [Hne Hout].
    destruct (Z.eqb_spec k' k); [congruence|auto].
Qed.

Lemma dict_set_last (d : dict V) (k : Z) (v v' : V) :
  k ∉ keys d -> dict_set (d ++ [(k, v)]) k v' = d ++ [(k, v')].
Proof.
  induction d as [|[k' w] d IH]; simpl; intros Hout.
  - rewrite Z.eqb_refl. reflexivity.
  - apply not_elem_of_cons in Hout as [Hne Hout].
    destruct (Z.eqb_spec k' k); [congruence|]. rewrite IH by assumption.
    reflexivity.
Qed.

Lemma dict_get_map (f : Z -> V) (ks : list Z) (k : Z) :
  k ∈ ks -> dict_get (map (fun t => (t, f t)) ks) k = Some (f k).
Proof.
  induction ks as [|a ks IH]; simpl; intros Hin; [inversion Hin|].
  destruct (Z.eqb_spec a k) as [->|Hne]; [reflexivity|].
  apply IH. apply elem_of_cons in Hin as [?|?]; [congruence|assumption].
Qed.

Lemma dict_set_map (f f' : Z -> V) (ks : list Z) (k : Z) :
  NoDup ks -> k ∈ ks -> (forall t, t <> k -> f t = f' t) ->
  dict_set (map (fun t => (t, f t)) ks) k (f' k) =
  map (fun t => (t, f' t)) ks.
Proof.
  intros Hnd Hin Hext. induction Hnd as [|a ks Ha Hnd IH]; simpl;
    [inversion Hin|].
  destruct (Z.eqb_spec a k) as [->|Hne].
  - f_equal. apply map_ext_in. intros t Ht. f_equal. apply Hext.
    intros ->. apply Ha, list_elem_of_In, Ht.
  - rewrite Hext by assumption. f_equal. apply IH.
    apply elem_of_cons in Hin as [?|?]; [congruence|assumption].
Qed.

Lemma dict_set_same (d : dict V) (k : Z) (v : V) :
  dict_get d k = Some v -> dict_set d k v = d.
Proof.
  induction d as [|[k' v'] d IH]; simpl; [discriminate|].
  destruct (Z.eqb_spec k' k) as [->|_].
  - intros [= ->]. reflexivity.
  - intros H. rewrite IH by assumption. reflexivity.
Qed.
End DictOfList.

Lemma first_seen_NoDup (ts : list Z) : NoDup (first_seen ts).
Proof.
  induction ts as [|a ts IH]; simpl; constructor.
  - rewrite list_elem_of_filter. intros [H _]. apply H. reflexivity.
  - apply NoDup_filter, IH.
Qed.

Lemma keys_group table : keys (group table) = first_seen (map sh_type table).
Proof.
  unfold keys, group. rewrite map_map. simpl. apply map_id.
Qed.

(** Filing one more section keeps the dictionary the grouping of the
    table read so far. *)
Lemma add_section_group table sec :
  add_section (group table) sec = Ret (group (table ++ [sec])).
Proof.
  unfold add_section. set (t := sh_type sec).
  assert (Hg : group (table ++ [sec]) =
    if decide (t ∈ map sh_type table)
    then map (fun u => (u, of_type u (table ++ [sec])))
             (first_seen (map sh_type table))
    else map (fun u => (u, of_type u (table ++ [sec])))
             (first_seen (map sh_type table))
         ++ [(t, of_type t (table ++ [sec]))]).
  { unfold group. rewrite map_app. simpl. fold t. rewrite first_seen_snoc.
    destruct (decide _); [reflexivity|]. rewrite map_app. reflexivity. }
  rewrite Hg. clear Hg.
  destruct (decide (t ∈ map sh_type table)) as [Hin|Hout].
  - assert (Hk : t ∈ first_seen (map sh_type table))
      by (apply elem_of_first_seen, Hin).
    unfold group. rewrite (dict_get_map _ _ _ Hk).
    destruct (of_type_present t table Hin) as (s & l & E). rewrite E.
    rewrite (dict_get_map _ _ _ Hk), E, <- E. f_equal.
    rewrite <- (dict_set_map (fun u => of_type u table)
                  (fun u => of_type u (table ++ [sec])) _ t
                  (first_seen_NoDup _) Hk).
    + f_equal. rewrite of_type_snoc.
      destruct (decide (sh_type sec = t)); [reflexivity|contradiction].
    + intros u Hu. rewrite of_type_snoc.
      destruct (decide (sh_type sec = u)); [unfold t in Hu; congruence|].
      rewrite app_nil_r. reflexivity.
  - assert (Hk : t ∉ keys (group table))
      by (rewrite keys_group, elem_of_first_seen; exact Hout).
    rewrite (dict_get_absent _ _ Hk), (dict_set_absent _ _ _ Hk).
    rewrite (dict_get_last _ _ _ Hk), (dict_set_last _ _ _ _ Hk).
    f_equal. unfold group. f_equal.
    + apply map_ext_in. intros u Hu. f_equal. rewrite of_type_snoc.
      destruct (decide (sh_type sec = u)) as [E|_];
        [|rewrite app_nil_r; reflexivity].
      exfalso. apply Hout. apply elem_of_first_seen.
      fold t in E. rewrite E. apply list_elem_of_In, Hu.
    + rewrite of_type_snoc, (of_type_absent t table Hout).
      destruct (decide (sh_type sec = t)); [reflexivity|contradiction].
Qed.

Lemma flat_map_ext_elem {A B} (f g : A -> list B) (l : list A) :
  (forall x, x ∈ l -> f x = g x) -> flat_map f l = flat_map g l.
Proof.
  induction l as [|a l IH]; intros H; simpl; [reflexivity|].
  rewrite H by left. rewrite IH; [reflexivity|].
  intros x Hx. apply H. right. exact Hx.
Qed.

Lemma scan_order_group table : scan_order (group table) = by_type table.
Proof.
  unfold scan_order, by_type. rewrite keys_group.
  apply flat_map_ext_elem.
  intros t Ht. unfold group. rewrite dict_get_map by exact Ht. reflexivity.
Qed.

(** ** The dictionary after parsing *)

Lemma keys_unnamed_dict secs : keys (unnamed_dict secs) = keys secs.
Proof. unfold keys, unnamed_dict. rewrite map_map. reflexivity. Qed.

Lemma dict_get_unnamed_dict secs k :
  dict_get (unnamed_dict secs) k = option_map (map unnamed) (dict_get secs k).
Proof.
  induction secs as [|[k' l] secs IH]; simpl; [reflexivity|].
  destruct (k' =? k); [reflexivity|exact IH].
Qed.

Lemma dict_set_unnamed_dict secs k l :
  unnamed_dict (dict_set secs k l) =
  dict_set (unnamed_dict secs) k (map unnamed l).
Proof.
  induction secs as [|[k' l'] secs IH]; simpl; [reflexivity|].
  destruct (k' =? k); simpl; [reflexivity|]. rewrite IH. reflexivity.
Qed.

Lemma map_flat_map {A B C} (f : B -> C) (g : A -> list B) (l : list A) :
  map f (flat_map g l) = flat_map (fun x => map f (g x)) l.
Proof.
  induction l as [|a l IH]; simpl; [reflexivity|].
  rewrite map_app, IH. reflexivity.
Qed.

Lemma scan_order_unnamed_dict secs :
  scan_order (unnamed_dict secs) = map unnamed (scan_order secs).
Proof.
  unfold scan_order. rewrite keys_unnamed_dict, map_flat_map.
  apply flat_map_ext_elem. intros k _. rewrite dict_get_unnamed_dict.
  destruct (dict_get secs k); reflexivity.
Qed.

Lemma map_unnamed_alter s j (l : list ElfSection) :
  map unnamed (alter (with_name s) j l) = map unnamed l.
Proof.
  revert j. induction l as [|x l IH]; intros [|j]; simpl;
    try reflexivity. f_equal. apply IH.
Qed.

Lemma set_section_name_unnamed G t j s self :
  (exists secs, sections self = Some secs /\ unnamed_dict secs = G) ->
  exists secs, sections (set_section_name t j s self) = Some secs /\
               unnamed_dict secs = G.
Proof.
  intros (secs & Hsecs & HG). unfold set_section_name. rewrite Hsecs.
  destruct (dict_get secs t) as [l|] eqn:E; [|eauto].
  eexists. split; [reflexivity|].
  rewrite dict_set_unnamed_dict, map_unnamed_alter, dict_set_same;
    [exact HG|]. rewrite dict_get_unnamed_dict, E. reflexivity.
Qed.

Lemma name_group_unnamed G t l : forall j,
  triple (fun s => exists secs, sections s = Some secs /\ unnamed_dict secs = G)
         (name_group t j l)
         (fun _ s => exists secs, sections s = Some secs /\
                                  unnamed_dict secs = G).
Proof.
  induction l as [|sec l IH]; intros j; simpl.
  - apply triple_ret. auto.
  - eapply triple_bind.
    + apply (triple_keeps (fun s => s)
               (fun s => exists secs, sections s = Some secs /\
                                      unnamed_dict secs = G)).
      apply get_string_keeps.
    + intros s. eapply triple_bind; [|intros ?; apply IH].
      apply triple_modify. intros self. apply set_section_name_unnamed.
Qed.

Lemma triple_for_each_prefix {X} (I : list X -> Elf -> Prop) (l : list X)
    (body : X -> M unit) :
  (forall pre x post, l = pre ++ x :: post ->
      triple (I pre) (body x) (fun _ => I (pre ++ [x]))) ->
  triple (I []) (for_each l body) (fun _ => I l).
Proof.
  intros Hbody.
  assert (Hgen : forall rest done, l = done ++ rest ->
            triple (I done) (for_each rest body) (fun _ => I l)).
  { induction rest as [|x rest IH]; intros done Hl; simpl.
    - apply triple_ret. intros self. rewrite Hl, app_nil_r. auto.
    - eapply triple_bind; [apply (Hbody done x rest Hl)|]. intros ?.
      apply IH. rewrite Hl, <- app_assoc. reflexivity. }
  apply (Hgen l []). reflexivity.
Qed.

Lemma section_table_entries d h (l : list Z) table :
  Forall2 (fun i sec => table_entry d h i = Ret sec) l table ->
  flat_map (fun i => match table_entry d h i with
                     | Ret sec => [sec]
                     | _ => []
                     end) l = table.
Proof.
  induction 1 as [|i sec l table Hi _ IH]; simpl; [reflexivity|].
  rewrite Hi, IH. reflexivity.
Qed.

Lemma table_entry_unnamed d h i sec :
  table_entry d h i = Ret sec -> unnamed sec = sec.
Proof.
  unfold table_entry, unpack_shdr. destruct (decide _); [|discriminate].
  intros [= <-]. reflexivity.
Qed.

Lemma section_table_unnamed d h :
  Forall (fun s => unnamed s = s) (section_table d h).
Proof.
  unfold section_table. apply Forall_forall. intros s Hs.
  apply list_elem_of_In, in_flat_map in Hs. destruct Hs as (i & _ & Hin).
  destruct (table_entry d h i) as [sec| |] eqn:E;
    [|destruct Hin|destruct Hin].
  destruct Hin as [<-|[]]. eapply table_entry_unnamed, E.
Qed.

Lemma by_type_elem table s : s ∈ by_type table -> s ∈ table.
Proof.
  unfold by_type. rewrite list_elem_of_In, in_flat_map.
  intros (t & _ & Hin). apply list_elem_of_In in Hin.
  unfold of_type in Hin. apply list_elem_of_filter in Hin.
  destruct Hin as [_ Hin]. exact Hin.
Qed.

Lemma by_type_unnamed table :
  Forall (fun s => unnamed s = s) table ->
  map unnamed (by_type table) = by_type table.
Proof.
  intros Hall. rewrite <- (map_id (by_type table)) at 2.
  apply map_ext_in. intros s Hs. rewrite Forall_forall in Hall.
  apply Hall, by_type_elem, list_elem_of_In, Hs.
Qed.

(** After [parse_sections_header] the dictionary is, names apart, the
    section table grouped by type. *)
Lemma parse_sections_header_groups (h : Ehdr) (d : list byte) :
  triple (fun s => header s = Some h /\ data s = d)
         parse_sections_header
         (fun _ s => exists secs,
              sections s = Some secs /\
              unnamed_dict secs = unnamed_dict (group (section_table d h))).
Proof.
  unfold parse_sections_header.
  eapply triple_bind
    with (Q := fun _ s => header s = Some h /\ data s = d /\
                          sections s = Some []).
  { apply triple_modify. intros self [Hh Hd]. auto. }
  intros ?.
  eapply triple_bind
    with (Q := fun h' s => h' = h /\ data s = d /\ sections s = Some []).
  { apply triple_read_attr. intros self h' (Hh & Hd & Hs) E.
    repeat split; congruence. }
  intros h'.
  eapply triple_bind
    with (Q := fun d' s => d' = d /\ h' = h /\ sections s = Some []).
  { apply triple_read. intros self (Hh & Hd & Hs). auto. }
  intros d'.
  set (I := fun (pre : list Z) (s : Elf) =>
    d' = d /\ h' = h /\
    exists table, sections s = Some (group table) /\
      Forall2 (fun i sec => table_entry d h i = Ret sec) pre table).
  eapply triple_bind with (Q := fun _ => I (range 1 (e_shnum h'))).
  { eapply triple_weaken; [apply (triple_for_each_prefix I)| |auto].
    - intros pre sec_index post _.
      eapply triple_bind
        with (Q := fun sec s => I pre s /\
                                table_entry d h sec_index = Ret sec).
      { apply triple_lift. intros self sec HI Hsec. split; [exact HI|].
        destruct HI as (-> & -> & _). exact Hsec. }
      intros sec.
      eapply triple_bind
        with (Q := fun secs s =>
                d' = d /\ h' = h /\
                exists table, secs = group table /\
                  Forall2 (fun i sec => table_entry d h i = Ret sec)
                          (pre ++ [sec_index]) (table ++ [sec])).
      { apply triple_read_attr.
        intros self secs [(Hd & Hh & table & Hs & Htab) Hsec] E.
        repeat split; try assumption. exists table.
        split; [congruence|]. apply Forall2_app; [exact Htab|].
        repeat constructor. exact Hsec. }
      intros secs.
      eapply triple_bind
        with (Q := fun secs' s =>
                d' = d /\ h' = h /\
                exists table, secs' = group table /\
                  Forall2 (fun i sec => table_entry d h i = Ret sec)
                          (pre ++ [sec_index]) table).
      { apply triple_lift. intros self secs' (Hd & Hh & table & -> & Htab).
        rewrite add_section_group. intros [= <-].
        repeat split; try assumption. eauto. }
      intros secs'.
      eapply triple_bind with (Q := fun _ => I (pre ++ [sec_index])).
      { apply triple_modify. intros self (Hd & Hh & table & -> & Htab).
        repeat split; try assumption. eauto. }
      intros ?. destruct (_ =? _).
      + apply triple_modify. intros self HI. exact HI.
      + apply triple_ret. auto.
    - intros self (Hd & Hh & Hs). repeat split; try assumption.
      exists []. split; [exact Hs|constructor]. }
  intros ?.
  set (G := unnamed_dict (group (section_table d h))).
  set (J := fun s : Elf =>
    exists secs, sections s = Some secs /\ unnamed_dict secs = G).
  eapply triple_bind with (Q := fun _ => J).
  { apply triple_read_attr.
    intros self secs (-> & -> & table & Hs & Htab) E.
    exists (group table). split; [exact Hs|]. unfold G, section_table.
    rewrite (section_table_entries _ _ _ _ Htab). reflexivity. }
  intros secs. apply triple_for_each. intros sec_type _.
  eapply triple_bind with (Q := fun _ => J).
  { apply triple_read_attr. auto. }
  intros secs'. destruct (dict_get secs' sec_type).
  - apply name_group_unnamed.
  - apply triple_lift. intros; discriminate.
Qed.

(** C4, amended: the search meets the sections grouped by type, the types
    in the order in which the section table first shows them and the
    sections of one type in table order.  When [find_cave R], for
    [R >= 1], returns a location after [parse_sections_header], the
    table regrouped in that way splits into sections that hold no run of
    [R] zero bytes, then the section [sec] whose first run is the one
    returned, then the rest. *)
Theorem find_cave_scans_by_type (self st : Elf) (h : Ehdr) (R : Z)
    (loc : Z * Z) :
  header self = Some h ->
  parse_sections_header self = (Ret tt, st) ->
  1 <= R ->
  fst (find_cave R st) = Ret (Some loc) ->
  exists pre sec post O,
    by_type (section_table (data st) h) = map unnamed (pre ++ sec :: post) /\
    forallb (fun s => negb (has_run (data st) s R)) pre = true /\
    first_run (data st) sec R O = true /\
    loc = (sh_addr sec + O, sh_offset sec + O).
Proof.
  intros Hh Hparse HR Hfound.
  pose proof (parse_sections_header_keeps_data self) as Hdata.
  rewrite Hparse in Hdata. simpl in Hdata.
  destruct (parse_sections_header_groups h (data self) self tt st
              (conj Hh eq_refl) Hparse) as (secs & Hsecs & Hgroup).
  destruct (parse_sections_header_unsigned self tt st I Hparse)
    as (secs' & Hsecs' & Hall).
  assert (secs' = secs) by congruence. subst secs'.
  pose proof (scan_order_all _ _ Hall) as Huns.
  rewrite Forall_forall in Huns.
  rewrite (find_cave_scan R st secs Hsecs) in Hfound. simpl in Hfound.
  apply cave_in_group_inv in Hfound
    as (pre & sec & post & Horder & Hpre & Hsec).
  assert (Hin : forall s, s ∈ pre ++ [sec] -> s ∈ scan_order secs).
  { intros s Hs. rewrite Horder.
    change (sec :: post) with ([sec] ++ post). rewrite app_assoc.
    apply elem_of_app. left. exact Hs. }
  destruct (Huns sec (Hin sec ltac:(apply elem_of_app; right; left)))
    as [Hoff _].
  pose proof (cave_in_section_cases (data st) sec R HR Hoff) as Hc.
  rewrite Hsec in Hc. destruct loc as [addr off].
  destruct Hc as (O & -> & -> & Hfirst & _).
  exists pre, sec, post, O. split; [|split; [|split]];
    [| |exact Hfirst|reflexivity].
  - rewrite Hdata, <- Horder, <- scan_order_unnamed_dict, Hgroup.
    rewrite scan_order_unnamed_dict, scan_order_group.
    symmetry. apply by_type_unnamed, section_table_unnamed.
  - apply forallb_forall. intros s Hs. apply list_elem_of_In in Hs.
    apply negb_true_iff.
    destruct (Huns s (Hin s ltac:(apply elem_of_app; left; exact Hs)))
      as [Hoffs _].
    pose proof (cave_in_section_cases (data st) s R HR Hoffs) as Hcs.
    rewrite Forall_forall in Hpre. rewrite (Hpre s Hs) in Hcs. exact Hcs.
Qed.

Lemma find_cave_scans_by_type_witness :
  exists pre sec post O,
    by_type (section_table (data (parsed image_two_caves)) header_two_caves)
      = map unnamed (pre ++ sec :: post) /\
    forallb (fun s => negb (has_run (data (parsed image_two_caves)) s 16))
            pre = true /\
    first_run (data (parsed image_two_caves)) sec 16 O = true /\
    (0x0804a000, 277) = (sh_addr sec + O, sh_offset sec + O).
Proof.
  apply (find_cave_scans_by_type
           (snd (parse_header (fresh image_two_caves)))
           (parsed image_two_caves) header_two_caves 16 (0x0804a000, 277)).
  - vm_compute. reflexivity.
  - vm_compute. reflexivity.
  - lia.
  - vm_compute. reflexivity.
Defined.

(** * Further properties of the packer *)

(** ** The header parser *)

Lemma etype_known (t : Z) :
  is_Some (dict_get ETYPE_DIC t) <-> 0 <= t <= 4.
Proof.
  split.
  - intros [x Hx]. revert Hx. unfold ETYPE_DIC. cbn -[Z.eqb].
    repeat match goal with
           | |- context [?a =? t] => destruct (Z.eqb_spec a t); [lia|]
           end.
    discriminate.
  - intros Ht.
    assert (Hcases : t = 0 \/ t = 1 \/ t = 2 \/ t = 3 \/ t = 4) by lia.
    destruct Hcases as [-> | [-> | [-> | [-> | ->]]]]; eexists; reflexivity.
Qed.

Lemma unpack_ehdr_short buf :
  length buf <> 52%nat -> unpack_ehdr buf = Raise StructError.
Proof.
  intros H. unfold unpack_ehdr.
  destruct (decide _); [contradiction|reflexivity].
Qed.

(** X1: [parse_header] on a buffer of fewer than 52 bytes raises the error of
    [unpack] and assigns nothing.  On a longer buffer it assigns the
    fourteen fields, and then returns when [e_type] is one of 0 to 4 and
    raises [KeyError], with the fields assigned, when it is not. *)
Theorem parse_header_outcomes (self : Elf) :
  ((length (data self) < 52)%nat ->
   parse_header self = (Raise StructError, self)) /\
  ((52 <= length (data self))%nat ->
   exists h,
     unpack_ehdr (take 52 (data self)) = Ret h /\
     parse_header self =
       (if (0 <=? e_type h) && (e_type h <=? 4) then Ret tt
        else Raise KeyError, set_header h self)).
Proof.
  split; intros Hlen; rewrite parse_header_unfold.
  - rewrite unpack_ehdr_short; [reflexivity|]. rewrite length_take. lia.
  - destruct (unpack_ehdr (take 52 (data self))) as [h| |] eqn:E;
      try (exfalso; revert E; unfold unpack_ehdr;
           destruct (decide _) as [_|Hn];
           [discriminate|exfalso; apply Hn; rewrite length_take; lia]).
    exists h. split; [reflexivity|]. f_equal.
    pose proof (etype_known (e_type h)) as Hty.
    destruct (dict_get ETYPE_DIC (e_type h)) as [s|].
    + destruct (proj1 Hty ltac:(eauto)) as [H0 H4].
      destruct (Z.leb_spec 0 (e_type h)); [|lia].
      destruct (Z.leb_spec (e_type h) 4); [|lia]. reflexivity.
    + destruct (Z.leb_spec 0 (e_type h)); [|reflexivity].
      destruct (Z.leb_spec (e_type h) 4); [|reflexivity].
      exfalso. destruct (proj2 Hty ltac:(lia)) as [x Hx]. discriminate.
Qed.

Lemma le_int_bound (bs : list byte) : le_int bs < 256 ^ Z.of_nat (length bs).
Proof.
  induction bs as [|b bs IH]; [reflexivity|].
  cbn [le_int length]. rewrite Nat2Z.inj_succ, Z.pow_succ_r by lia.
  pose proof (byte_val_range b). lia.
Qed.

Lemma field_bound buf off w : 0 <= field buf off w < 256 ^ Z.of_nat w.
Proof.
  split; [apply field_nonneg|]. unfold field.
  eapply Z.lt_le_trans; [apply le_int_bound|].
  apply Z.pow_le_mono_r; [lia|]. rewrite length_take. lia.
Qed.

(** X2: The fields a successful [parse_header] assigns fit the widths of the
    format string, and [e_type] is one of the five known file types. *)
Theorem parse_header_fields_in_range (self self1 : Elf) :
  parse_header self = (Ret tt, self1) ->
  exists h,
    header self1 = Some h /\ header_in_range h /\ 0 <= e_type h <= 4 /\
    e_ident h = take 16 (data self) /\ data self1 = data self.
Proof.
  intros Hrun.
  destruct (parse_header_inv _ _ Hrun) as (h & Hh & -> & Hty & Hlen).
  exists h. split; [reflexivity|].
  split; [|split; [apply etype_known, Hty|]].
  - unfold unpack_ehdr in Hh. destruct (decide _) as [E|]; [|discriminate].
    injection Hh as <-. unfold header_in_range.
    cbn [e_ident e_type e_machine e_version e_entry e_phoff e_shoff e_flags
         e_ehsize e_phentsize e_phnum e_shentsize e_shnum e_shstrndx].
    split; [rewrite !length_take; lia|].
    split; repeat constructor;
      try apply field_nonneg;
      try apply (proj2 (field_bound _ _ 2));
      try apply (proj2 (field_bound _ _ 4)).
  - unfold unpack_ehdr in Hh. destruct (decide _) as [E|]; [|discriminate].
    injection Hh as <-. split; [|reflexivity].
    cbn [e_ident]. rewrite take_take. reflexivity.
Qed.

Lemma parse_header_fields_in_range_witness :
  exists h,
    header (snd (parse_header (fresh image_text_data))) = Some h /\
    header_in_range h /\ 0 <= e_type h <= 4 /\
    e_ident h = take 16 (data (fresh image_text_data)) /\
    data (snd (parse_header (fresh image_text_data)))
      = data (fresh image_text_data).
Proof.
  apply (parse_header_fields_in_range (fresh image_text_data)).
  vm_compute. reflexivity.
Defined.

(** ** The section table parser *)

Lemma get_string_value (index sto : Z) self :
  string_table_offset self = Some sto -> 0 <= sto + index ->
  get_string index self =
  (match until_zero (drop (Z.to_nat (sto + index)) (data self)) with
   | Some s => Ret (string_of_list_byte s)
   | None => Raise IndexError
   end, self).
Proof.
  intros Hsto Hpos. rewrite (get_string_run _ sto) by assumption. f_equal.
  destruct (until_zero _) as [s|] eqn:U.
  - apply until_zero_Some in U as (post & Hdrop & Hnz).
    destruct (get_string_loop_found (data self) sto s post EmptyString index
                (2 * length (data self))) as (c & Hc & Hloop);
      try assumption.
    + apply (f_equal length) in Hdrop.
      rewrite length_drop, length_app in Hdrop. simpl in Hdrop. lia.
    + rewrite Hc. unfold obind. rewrite Hloop. reflexivity.
  - apply until_zero_None in U.
    eapply get_string_loop_beyond; try eassumption; try reflexivity.
    rewrite length_drop. lia.
Qed.

Lemma get_string_unset (index : Z) self :
  string_table_offset self = None ->
  get_string index self = (Raise AttributeError, self).
Proof.
  intros H. unfold get_string, bind, read_attr. rewrite H. reflexivity.
Qed.

Section DictUpdates.
Context {V : Type}.

Lemma dict_get_set_eq (d : dict V) (k : Z) (v : V) :
  dict_get (dict_set d k v) k = Some v.
Proof.
  induction d as [|[k' v'] d IH]; simpl.
  - rewrite Z.eqb_refl. reflexivity.
  - destruct (Z.eqb_spec k' k) as [->|Hne]; simpl.
    + rewrite Z.eqb_refl. reflexivity.
    + destruct (Z.eqb_spec k' k); [contradiction|exact IH].
Qed.

Lemma dict_get_set_ne (d : dict V) (k k' : Z) (v : V) :
  k <> k' -> dict_get (dict_set d k v) k' = dict_get d k'.
Proof.
  intros Hne. induction d as [|[a w] d IH]; simpl.
  - destruct (Z.eqb_spec k k'); [contradiction|reflexivity].
  - destruct (Z.eqb_spec a k) as [->|Ha]; simpl.
    + destruct (Z.eqb_spec k k'); [contradiction|reflexivity].
    + destruct (Z.eqb_spec a k'); [reflexivity|exact IH].
Qed.

Lemma dict_set_set (d : dict V) (k : Z) (v w : V) :
  dict_set (dict_set d k v) k w = dict_set d k w.
Proof.
  induction d as [|[a u] d IH]; simpl.
  - rewrite Z.eqb_refl. reflexivity.
  - destruct (Z.eqb_spec a k) as [->|Ha]; simpl.
    + rewrite Z.eqb_refl. reflexivity.
    + destruct (Z.eqb_spec a k); [contradiction|]. rewrite IH. reflexivity.
Qed.

Lemma keys_dict_set (d : dict V) (k : Z) (v : V) :
  k ∈ keys d -> keys (dict_set d k v) = keys d.
Proof.
  induction d as [|[a u] d IH]; simpl; intros Hin; [inversion Hin|].
  destruct (Z.eqb_spec a k) as [->|Ha]; simpl; [reflexivity|].
  f_equal. apply IH. apply elem_of_cons in Hin as [?|?];
    [congruence|assumption].
Qed.
End DictUpdates.

Lemma set_sections_same secs self :
  sections self = Some secs -> set_sections secs self = self.
Proof. destruct self. simpl. intros ->. reflexivity. Qed.

(** The naming of the sections under one key, from place [length done]
    on. *)
Lemma name_group_result (d : list byte) (sto : Z) (t : Z) :
  forall (l done : list ElfSection) (secs : dict (list ElfSection))
         (s s' : Elf),
  data s = d -> string_table_offset s = Some sto -> 0 <= sto ->
  Forall (fun sec => 0 <= sh_name sec) l ->
  sections s = Some secs -> dict_get secs t = Some (done ++ l) ->
  name_group t (length done) l s = (Ret tt, s') ->
  s' = set_sections (dict_set secs t (done ++ map (named d sto) l)) s /\
  Forall (fun sec => is_Some (resolve d sto sec)) l.
Proof.
  induction l as [|sec l IH];
    intros done secs s s' Hd Hsto Hpos Hnames Hsecs Hget Hrun.
  - simpl in Hrun. injection Hrun as <-. split; [|constructor].
    simpl. rewrite dict_set_same by exact Hget.
    symmetry. apply set_sections_same, Hsecs.
  - simpl in Hrun. inversion Hnames as [|? ? Hname Hrest]; subst.
    apply bind_inv in Hrun as (str & s1 & Hstr & Hrun).
    rewrite (get_string_value _ sto) in Hstr by (assumption || lia).
    destruct (until_zero _) as [bs|] eqn:U; [|discriminate].
    injection Hstr as <- <-.
    assert (Hres : resolve (data s) sto sec = Some (string_of_list_byte bs))
      by (unfold resolve; rewrite U; reflexivity).
    apply bind_inv in Hrun as ([] & s2 & Hmod & Hrun).
    injection Hmod as <-.
    assert (Hs2 : set_section_name t (length done)
                    (string_of_list_byte bs) s =
                  set_sections
                    (dict_set secs t
                       ((done ++ [named (data s) sto sec]) ++ l)) s).
    { unfold set_section_name. rewrite Hsecs, Hget. do 2 f_equal.
      rewrite <- (Nat.add_0_r (length done)), alter_app_r.
      unfold named. rewrite Hres, <- app_assoc. reflexivity. }
    rewrite Hs2 in Hrun.
    replace (S (length done))
      with (length (done ++ [named (data s) sto sec])) in Hrun
      by (rewrite length_app; simpl; lia).
    apply IH with (secs := dict_set secs t
                     ((done ++ [named (data s) sto sec]) ++ l)) in Hrun;
      try assumption; try reflexivity; [|apply dict_get_set_eq].
    destruct Hrun as [-> Hall]. split; [|constructor; eauto].
    rewrite dict_set_set, <- app_assoc. destruct s; reflexivity.
Qed.

Lemma strtab_offset_nonneg d h sto : strtab_offset d h = Some sto -> 0 <= sto.
Proof.
  unfold strtab_offset. destruct (_ && _); [|discriminate].
  destruct (table_entry d h (e_shstrndx h)) as [sec| |] eqn:E;
    try discriminate.
  intros [= <-]. unfold table_entry in E.
  apply unpack_shdr_unsigned in E. apply E.
Qed.

Lemma strtab_offset_visited d h :
  (if decide (e_shstrndx h ∈ range 1 (e_shnum h))
   then match table_entry d h (e_shstrndx h) with
        | Ret sec => Some (sh_offset sec)
        | _ => None
        end
   else None) = strtab_offset d h.
Proof.
  unfold strtab_offset. destruct (decide _) as [Hin|Hout].
  - apply elem_of_range in Hin.
    destruct (Z.leb_spec 1 (e_shstrndx h)); [|lia].
    destruct (Z.ltb_spec (e_shstrndx h) (e_shnum h)); [|lia]. reflexivity.
  - destruct (Z.leb_spec 1 (e_shstrndx h)); [|reflexivity].
    destruct (Z.ltb_spec (e_shstrndx h) (e_shnum h)); [|reflexivity].
    exfalso. apply Hout, elem_of_range. lia.
Qed.

Lemma table_entry_name_nonneg d h i sec :
  table_entry d h i = Ret sec -> 0 <= sh_name sec.
Proof.
  unfold table_entry, unpack_shdr. destruct (decide _); [|discriminate].
  intros [= <-]. apply field_nonneg.
Qed.

Lemma section_table_names d h :
  Forall (fun sec => 0 <= sh_name sec) (section_table d h).
Proof.
  unfold section_table. apply Forall_forall. intros s Hs.
  apply list_elem_of_In, in_flat_map in Hs. destruct Hs as (i & _ & Hin).
  destruct (table_entry d h i) as [sec| |] eqn:E;
    [|destruct Hin|destruct Hin].
  destruct Hin as [<-|[]]. eapply table_entry_name_nonneg, E.
Qed.

Lemma of_type_Forall (P : ElfSection -> Prop) t table :
  Forall P table -> Forall P (of_type t table).
Proof.
  intros H. apply Forall_forall. intros s Hs. unfold of_type in Hs.
  apply list_elem_of_filter in Hs as [_ Hs].
  rewrite Forall_forall in H. auto.
Qed.

(** What a successful [parse_sections_header] leaves in an object whose
    string table offset was not set before: every header from 1 to
    [e_shnum - 1] was read, the offset is that of header [e_shstrndx], and
    the dictionary is the table grouped by type with every name
    resolved. *)
Lemma parse_sections_header_result (h : Ehdr) (d : list byte) :
  triple (fun s => header s = Some h /\ data s = d /\
                   string_table_offset s = None)
         parse_sections_header
         (fun _ s =>
            Forall2 (fun i sec => table_entry d h i = Ret sec)
                    (range 1 (e_shnum h)) (section_table d h) /\
            string_table_offset s = strtab_offset d h /\
            sections s =
              Some (named_group d (default 0 (strtab_offset d h))
                                (section_table d h)) /\
            Forall (fun sec =>
                      is_Some (resolve d (default 0 (strtab_offset d h)) sec))
                   (section_table d h) /\
            (section_table d h <> [] -> is_Some (strtab_offset d h))).
Proof.
  unfold parse_sections_header.
  set (sto_at := match table_entry d h (e_shstrndx h) with
                 | Ret sec => Some (sh_offset sec)
                 | _ => None
                 end).
  eapply triple_bind
    with (Q := fun _ s => header s = Some h /\ data s = d /\
                          string_table_offset s = None /\
                          sections s = Some []).
  { apply triple_modify. intros self (Hh & Hd & Hs). auto. }
  intros ?.
  eapply triple_bind
    with (Q := fun h' s => h' = h /\ data s = d /\
                           string_table_offset s = None /\
                           sections s = Some []).
  { apply triple_read_attr. intros self h' (Hh & Hd & Hs & Hsec) E.
    repeat split; congruence. }
  intros h'.
  eapply triple_bind
    with (Q := fun d' s => d' = d /\ h' = h /\ data s = d /\
                           string_table_offset s = None /\
                           sections s = Some []).
  { apply triple_read. intros self (Hh & Hd & Hs & Hsec). auto. }
  intros d'.
  set (I := fun (pre : list Z) (s : Elf) =>
    d' = d /\ h' = h /\ data s = d /\
    exists table, sections s = Some (group table) /\
      Forall2 (fun i sec => table_entry d h i = Ret sec) pre table /\
      string_table_offset s =
        if decide (e_shstrndx h ∈ pre) then sto_at else None).
  eapply triple_bind with (Q := fun _ => I (range 1 (e_shnum h'))).
  { eapply triple_weaken; [apply (triple_for_each_prefix I)| |auto].
    - intros pre sec_index post _.
      eapply triple_bind
        with (Q := fun sec s => I pre s /\
                                table_entry d h sec_index = Ret sec).
      { apply triple_lift. intros self sec HI Hsec. split; [exact HI|].
        destruct HI as (-> & -> & _). exact Hsec. }
      intros sec.
      eapply triple_bind
        with (Q := fun secs s =>
                I pre s /\ table_entry d h sec_index = Ret sec /\
                sections s = Some secs).
      { apply triple_read_attr. intros self secs [HI Hsec] E. auto. }
      intros secs.
      eapply triple_bind
        with (Q := fun secs' s =>
                I pre s /\ table_entry d h sec_index = Ret sec /\
                exists table, sections s = Some (group table) /\
                  Forall2 (fun i sec => table_entry d h i = Ret sec)
                          pre table /\
                  secs' = group (table ++ [sec])).
      { apply triple_lift.
        intros self secs' (HI & Hsec & Hs) Hadd. split; [exact HI|].
        split; [exact Hsec|].
        destruct HI as (_ & _ & _ & table & Hs' & Htab & _).
        exists table. repeat split; try assumption.
        assert (secs = group table) by congruence. subst secs.
        rewrite add_section_group in Hadd. congruence. }
      intros secs'.
      eapply triple_bind
        with (Q := fun _ s =>
                d' = d /\ h' = h /\ data s = d /\
                table_entry d h sec_index = Ret sec /\
                (exists table, sections s = Some (group table) /\
                   Forall2 (fun i sec => table_entry d h i = Ret sec)
                           (pre ++ [sec_index]) table) /\
                string_table_offset s =
                  if decide (e_shstrndx h ∈ pre) then sto_at else None).
      { apply triple_modify.
        intros self ((Hd & Hh & Hdata & _ & _ & _ & Hsto) & Hsec
                     & table & Hs & Htab & ->).
        repeat split; try assumption.
        exists (table ++ [sec]). split; [reflexivity|].
        apply Forall2_app; [exact Htab|]. repeat constructor. exact Hsec. }
      intros ?. destruct (Z.eqb_spec sec_index (e_shstrndx h')) as [E|E].
      + apply triple_modify.
        intros self (Hd & Hh & Hdata & Hsec & (table & Hs & Htab) & Hsto).
        repeat split; try assumption. exists table.
        split; [exact Hs|]. split; [exact Htab|]. simpl.
        subst h'. rewrite <- E.
        destruct (decide (sec_index ∈ pre ++ [sec_index])) as [_|Hn];
          [|exfalso; apply Hn, elem_of_app; right; left].
        unfold sto_at. rewrite <- E, Hsec. reflexivity.
      + apply triple_ret.
        intros self (Hd & Hh & Hdata & Hsec & (table & Hs & Htab) & Hsto).
        repeat split; try assumption. exists table.
        split; [exact Hs|]. split; [exact Htab|]. rewrite Hsto. subst h'.
        destruct (decide (e_shstrndx h ∈ pre)) as [Hin|Hout];
          destruct (decide (e_shstrndx h ∈ pre ++ [sec_index]))
            as [Hin'|Hout']; try reflexivity.
        * exfalso. apply Hout', elem_of_app. left. exact Hin.
        * exfalso. apply elem_of_app in Hin' as [?|Hl]; [contradiction|].
          apply list_elem_of_singleton in Hl. congruence.
    - intros self (Hd & Hh & Hdata & Hsto & Hs).
      repeat split; try assumption. exists [].
      split; [exact Hs|]. split; [constructor|].
      destruct (decide (e_shstrndx h ∈ [])) as [Hin|_];
        [inversion Hin|exact Hsto]. }
  intros ?.
  set (T := section_table d h).
  set (K := first_seen (map sh_type T)).
  set (sto := default 0 (strtab_offset d h)).
  set (J := fun (pre : list Z) (s : Elf) =>
    data s = d /\ string_table_offset s = strtab_offset d h /\
    sections s =
      Some (map (fun u => (u, if decide (u ∈ pre)
                              then map (named d sto) (of_type u T)
                              else of_type u T)) K) /\
    (forall u, u ∈ pre ->
               Forall (fun sec => is_Some (resolve d sto sec))
                      (of_type u T)) /\
    (pre <> [] -> is_Some (strtab_offset d h))).
  eapply triple_bind
    with (Q := fun secs s =>
            Forall2 (fun i sec => table_entry d h i = Ret sec)
                    (range 1 (e_shnum h)) T /\
            secs = group T /\ J [] s).
  { apply triple_read_attr.
    intros self secs (-> & -> & Hdata & table & Hs & Htab & Hsto) E.
    assert (HT : T = table)
      by (apply section_table_entries; exact Htab).
    unfold sto_at in Hsto. rewrite strtab_offset_visited in Hsto.
    split; [rewrite HT; exact Htab|]. split; [congruence|].
    repeat split; try assumption.
    - rewrite Hs. unfold K. rewrite HT. reflexivity.
    - intros u Hu. inversion Hu.
    - intros Hn. contradiction. }
  intros secs.
  intros self u1 self' (Htab & -> & HJ) Hrun.
  rewrite keys_group in Hrun. fold T K in Hrun.
  assert (HJK : J K self').
  { refine (triple_for_each_prefix J K _ _ self u1 self' HJ Hrun).
    clear self u1 self' HJ Hrun.
    intros pre t post HK.
    assert (HND : NoDup K) by apply first_seen_NoDup.
    assert (HtK : t ∈ K)
      by (rewrite HK; apply elem_of_app; right; left).
    assert (Htpre : t ∉ pre).
    { rewrite HK in HND. apply NoDup_app in HND as (_ & Hdis & _).
      intros Hin. apply (Hdis t Hin). left. }
    intros s [] s' (Hdata & Hsto & Hs & Hres & Hsome) Hrun.
    apply bind_inv in Hrun as (secs1 & s1 & Hread & Hrun).
    unfold read_attr in Hread. rewrite Hs in Hread.
    injection Hread as <- <-.
    rewrite (dict_get_map
               (fun u => if decide (u ∈ pre)
                         then map (named d sto) (of_type u T)
                         else of_type u T) K t HtK) in Hrun.
    destruct (decide (t ∈ pre)) as [?|_]; [contradiction|].
    destruct (of_type_present t T
                (proj1 (elem_of_first_seen _ _) HtK)) as (x & l & Hl).
    destruct (strtab_offset d h) as [sto'|] eqn:Hoff.
    + change (name_group t (length (@nil ElfSection)) (of_type t T) s
              = (Ret tt, s')) in Hrun.
      apply (name_group_result d sto t) with (secs :=
        map (fun u => (u, if decide (u ∈ pre)
                          then map (named d sto) (of_type u T)
                          else of_type u T)) K) in Hrun;
        try assumption.
      * destruct Hrun as [-> Hall]. repeat split; try assumption.
        -- simpl. f_equal.
           rewrite <- (dict_set_map
             (fun u => if decide (u ∈ pre)
                       then map (named d sto) (of_type u T)
                       else of_type u T)
             (fun u => if decide (u ∈ pre ++ [t])
                       then map (named d sto) (of_type u T)
                       else of_type u T) K t HND HtK).
           ++ destruct (decide (t ∈ pre ++ [t])) as [_|Hn];
                [reflexivity|].
              exfalso. apply Hn, elem_of_app. right. left.
           ++ intros u Hu.
              destruct (decide (u ∈ pre)) as [Hin|Hout];
                destruct (decide (u ∈ pre ++ [t])) as [Hin'|Hout'];
                try reflexivity.
              ** exfalso. apply Hout', elem_of_app. left. exact Hin.
              ** exfalso. apply elem_of_app in Hin' as [?|Hx];
                   [contradiction|].
                 apply list_elem_of_singleton in Hx. contradiction.
        -- intros u Hu. apply elem_of_app in Hu as [Hu|Hu];
             [apply Hres, Hu|].
           apply list_elem_of_singleton in Hu. subst u. exact Hall.
        -- intros _. eauto.
      * unfold sto. simpl. eapply strtab_offset_nonneg, Hoff.
      * apply of_type_Forall, section_table_names.
      * rewrite (dict_get_map
                   (fun u => if decide (u ∈ pre)
                             then map (named d sto) (of_type u T)
                             else of_type u T) K t HtK).
        destruct (decide (t ∈ pre)) as [?|_]; [contradiction|].
        reflexivity.
    + exfalso. rewrite Hl in Hrun. simpl in Hrun.
      apply bind_inv in Hrun as (str & s1 & Hstr & _).
      rewrite get_string_unset in Hstr by exact Hsto. discriminate. }
  destruct HJK as (Hdata & Hsto & Hs & Hres & Hsome).
  split; [exact Htab|]. split; [exact Hsto|]. split; [|split].
  - rewrite Hs. unfold named_group. fold T K. f_equal.
    apply map_ext_in. intros u Hu. apply list_elem_of_In in Hu.
    destruct (decide (u ∈ K)); [reflexivity|contradiction].
  - apply Forall_forall. intros sec Hsec.
    assert (Hk : sh_type sec ∈ K).
    { apply elem_of_first_seen, list_elem_of_fmap. eauto. }
    specialize (Hres _ Hk). rewrite Forall_forall in Hres.
    apply Hres. unfold of_type. apply list_elem_of_filter. auto.
  - intros HT. apply Hsome. intros HK.
    destruct T as [|x T'] eqn:ET; [contradiction|].
    unfold K in HK. simpl in HK. discriminate.
Qed.

Lemma scan_order_named_group d sto table :
  scan_order (named_group d sto table) = map (named d sto) (by_type table).
Proof.
  unfold scan_order, by_type.
  assert (Hkeys : keys (named_group d sto table)
                  = first_seen (map sh_type table)).
  { unfold keys, named_group. rewrite map_map. simpl. apply map_id. }
  rewrite Hkeys, map_flat_map. apply flat_map_ext_elem. intros t Ht.
  unfold named_group.
  rewrite (dict_get_map (fun t => map (named d sto) (of_type t table)))
    by exact Ht.
  reflexivity.
Qed.

(** Grouping by type loses and repeats nothing. *)
Lemma flat_map_of_type_Permutation (ks : list Z) : forall table,
  NoDup ks -> (forall s, s ∈ table -> sh_type s ∈ ks) ->
  flat_map (fun t => of_type t table) ks ≡ₚ table.
Proof.
  induction ks as [|k ks IH]; intros table Hnd Hall; simpl.
  - destruct table as [|s table]; [reflexivity|].
    specialize (Hall s ltac:(left)). inversion Hall.
  - inversion Hnd as [|? ? Hk Hnd']; subst.
    set (rest := filter (fun s => ~ sh_type s = k) table).
    assert (Hrest : flat_map (fun t => of_type t table) ks
                    = flat_map (fun t => of_type t rest) ks).
    { apply flat_map_ext_elem. intros t Ht. unfold of_type, rest.
      rewrite list_filter_filter. apply list_filter_iff.
      intros s. split; [|tauto]. intros E. split; [exact E|].
      intros E'. apply Hk. congruence. }
    rewrite Hrest, (IH rest Hnd').
    + apply filter_app_complement.
    + intros s Hs. unfold rest in Hs.
      apply list_elem_of_filter in Hs as [Hne Hs].
      specialize (Hall s Hs). apply elem_of_cons in Hall as [?|?];
        [contradiction|assumption].
Qed.

Lemma by_type_Permutation table : by_type table ≡ₚ table.
Proof.
  unfold by_type. apply flat_map_of_type_Permutation.
  - apply first_seen_NoDup.
  - intros s Hs. apply elem_of_first_seen, list_elem_of_fmap. eauto.
Qed.

Lemma Forall2_length_eq {A B} (R : A -> B -> Prop) l k :
  Forall2 R l k -> length l = length k.
Proof. induction 1; simpl; congruence. Qed.

Lemma length_range a b : length (range a b) = Z.to_nat (b - a).
Proof. unfold range. rewrite length_map, length_seq. reflexivity. Qed.

Lemma unnamed_named d sto sec : unnamed (named d sto sec) = unnamed sec.
Proof. unfold named. destruct (resolve d sto sec); reflexivity. Qed.

Lemma resolve_named d sto sto' sec :
  resolve d sto (named d sto' sec) = resolve d sto sec.
Proof. unfold named. destruct (resolve d sto' sec); reflexivity. Qed.

(** X4: After a successful [parse_sections_header], on an object whose string
    table offset was not set before, the dictionary holds, names apart,
    the section headers 1 to [e_shnum - 1] of the file, each exactly once
    and header 0 never; the search order is the table regrouped by
    type. *)
Theorem parsed_sections_are_the_table (self st : Elf) (h : Ehdr) :
  header self = Some h -> string_table_offset self = None ->
  parse_sections_header self = (Ret tt, st) ->
  exists secs,
    sections st = Some secs /\
    Forall2 (fun i sec => table_entry (data self) h i = Ret sec)
            (range 1 (e_shnum h)) (section_table (data self) h) /\
    map unnamed (scan_order secs) = by_type (section_table (data self) h) /\
    map unnamed (scan_order secs) ≡ₚ section_table (data self) h /\
    length (scan_order secs) = Z.to_nat (e_shnum h - 1).
Proof.
  intros Hh Hsto Hrun.
  destruct (parse_sections_header_result h (data self) self tt st
              (conj Hh (conj eq_refl Hsto)) Hrun)
    as (Htab & _ & Hsecs & _ & _).
  eexists. split; [exact Hsecs|]. split; [exact Htab|].
  assert (Horder : map unnamed
            (scan_order (named_group (data self)
                           (default 0 (strtab_offset (data self) h))
                           (section_table (data self) h)))
          = by_type (section_table (data self) h)).
  { rewrite scan_order_named_group, map_map.
    rewrite (map_ext _ unnamed) by (intros s; apply unnamed_named).
    apply by_type_unnamed, section_table_unnamed. }
  split; [exact Horder|]. split.
  - rewrite Horder. apply by_type_Permutation.
  - rewrite <- (length_map unnamed), Horder.
    rewrite (Permutation_length (by_type_Permutation _)).
    rewrite <- (Forall2_length_eq _ _ _ Htab). apply length_range.
Qed.

Lemma parsed_sections_are_the_table_witness :
  exists secs,
    sections (parsed image_text_data) = Some secs /\
    Forall2 (fun i sec =>
               table_entry (data (snd (parse_header (fresh image_text_data))))
                           header_text_data i = Ret sec)
            (range 1 (e_shnum header_text_data))
            (section_table (data (snd (parse_header (fresh image_text_data))))
                           header_text_data) /\
    map unnamed (scan_order secs)
      = by_type (section_table
                   (data (snd (parse_header (fresh image_text_data))))
                   header_text_data) /\
    map unnamed (scan_order secs)
      ≡ₚ section_table (data (snd (parse_header (fresh image_text_data))))
                       header_text_data /\
    length (scan_order secs) = Z.to_nat (e_shnum header_text_data - 1).
Proof.
  apply (parsed_sections_are_the_table
           (snd (parse_header (fresh image_text_data)))
           (parsed image_text_data) header_text_data).
  - vm_compute. reflexivity.
  - vm_compute. reflexivity.
  - vm_compute. reflexivity.
Defined.

(** X5: After a successful [parse_sections_header] every section of the
    dictionary carries a name: the characters before the first zero byte
    at [string_table_offset + sh_name], where [string_table_offset] is the
    file offset of the section header [e_shstrndx].  So a parse that meets
    a section returns only when [e_shstrndx] is one of the indices
    visited, 1 to [e_shnum - 1]. *)
Theorem parsed_sections_are_named (self st : Elf) (h : Ehdr) :
  header self = Some h -> string_table_offset self = None ->
  parse_sections_header self = (Ret tt, st) ->
  exists secs,
    sections st = Some secs /\
    string_table_offset st = strtab_offset (data self) h /\
    forall sec, sec ∈ scan_order secs ->
      exists sto str,
        string_table_offset st = Some sto /\
        name sec = Some str /\ resolve (data st) sto sec = Some str /\
        1 <= e_shstrndx h < e_shnum h.
Proof.
  intros Hh Hsto Hrun.
  pose proof (parse_sections_header_keeps_data self) as Hdata.
  rewrite Hrun in Hdata. simpl in Hdata.
  destruct (parse_sections_header_result h (data self) self tt st
              (conj Hh (conj eq_refl Hsto)) Hrun)
    as (_ & Hoff & Hsecs & Hres & Hsome).
  eexists. split; [exact Hsecs|]. split; [exact Hoff|].
  intros sec Hsec. rewrite scan_order_named_group in Hsec.
  apply list_elem_of_fmap in Hsec as (x & -> & Hx).
  apply by_type_elem in Hx.
  destruct Hsome as [sto Hsto'].
  { intros HT. rewrite HT in Hx. inversion Hx. }
  rewrite Hsto' in *. simpl in *.
  rewrite Forall_forall in Hres. destruct (Hres x Hx) as [str Hstr].
  exists sto, str. split; [exact Hoff|]. rewrite Hdata.
  split; [unfold named; rewrite Hstr; reflexivity|].
  split; [rewrite resolve_named; exact Hstr|].
  unfold strtab_offset in Hsto'.
  destruct (Z.leb_spec 1 (e_shstrndx h)); [|discriminate].
  destruct (Z.ltb_spec (e_shstrndx h) (e_shnum h)); [lia|discriminate].
Qed.

Lemma parsed_sections_are_named_witness :
  exists secs,
    sections (parsed image_text_data) = Some secs /\
    string_table_offset (parsed image_text_data)
      = strtab_offset (data (snd (parse_header (fresh image_text_data))))
                      header_text_data /\
    forall sec, sec ∈ scan_order secs ->
      exists sto str,
        string_table_offset (parsed image_text_data) = Some sto /\
        name sec = Some str /\
        resolve (data (parsed image_text_data)) sto sec = Some str /\
        1 <= e_shstrndx header_text_data < e_shnum header_text_data.
Proof.
  apply (parsed_sections_are_named
           (snd (parse_header (fresh image_text_data)))
           (parsed image_text_data) header_text_data).
  - vm_compute. reflexivity.
  - vm_compute. reflexivity.
  - vm_compute. reflexivity.
Defined.

Lemma table_entry_word d h i sec :
  table_entry d h i = Ret sec -> word_section sec.
Proof.
  unfold table_entry, unpack_shdr. destruct (decide _); [|discriminate].
  intros [= <-]. unfold word_section. cbn [sh_name sh_type sh_flags sh_addr
    sh_offset sh_size sh_link sh_info sh_addralign sh_entsize].
  repeat constructor; try apply field_nonneg;
    apply (proj2 (field_bound _ _ 4)).
Qed.

Lemma word_section_named d sto sec :
  word_section sec -> word_section (named d sto sec).
Proof. unfold named. destruct (resolve d sto sec); auto. Qed.

Lemma parse_sections_header_words (self st : Elf) (h : Ehdr) :
  header self = Some h -> string_table_offset self = None ->
  parse_sections_header self = (Ret tt, st) ->
  exists secs,
    sections st = Some secs /\ Forall word_section (scan_order secs).
Proof.
  intros Hh Hsto Hrun.
  destruct (parse_sections_header_result h (data self) self tt st
              (conj Hh (conj eq_refl Hsto)) Hrun)
    as (Htab & _ & Hsecs & _ & _).
  eexists. split; [exact Hsecs|].
  rewrite scan_order_named_group. apply Forall_forall. intros sec Hsec.
  apply list_elem_of_fmap in Hsec as (x & -> & Hx).
  apply by_type_elem in Hx. apply word_section_named.
  revert Hx. generalize (section_table (data self) h) (range 1 (e_shnum h))
    Htab.
  intros T l HT. induction HT as [|i y l T Hi _ IH]; intros Hx;
    [inversion Hx|].
  apply elem_of_cons in Hx as [->|Hx]; [|auto].
  eapply table_entry_word, Hi.
Qed.

(** X6: The ten numbers of every section a successful [parse_sections_header]
    files are unsigned words of 32 bits. *)
Theorem parsed_sections_are_words (self st : Elf) (h : Ehdr) :
  header self = Some h -> string_table_offset self = None ->
  parse_sections_header self = (Ret tt, st) ->
  exists secs,
    sections st = Some secs /\ Forall word_section (scan_order secs).
Proof. exact (parse_sections_header_words self st h). Qed.

Lemma parsed_sections_are_words_witness :
  exists secs,
    sections (parsed image_text_data) = Some secs /\
    Forall word_section (scan_order secs).
Proof.
  apply (parsed_sections_are_words
           (snd (parse_header (fresh image_text_data)))
           (parsed image_text_data) header_text_data).
  - vm_compute. reflexivity.
  - vm_compute. reflexivity.
  - vm_compute. reflexivity.
Defined.

(** ** The section lookup *)

Lemma section_in_group_find nm (l : list ElfSection) :
  forallb has_name l = true ->
  section_in_group nm l =
  Ret (List.find (fun s => bool_decide (name s = Some nm)) l).
Proof.
  induction l as [|sec l IH]; simpl; [reflexivity|].
  rewrite andb_true_iff. intros [Hsec Hl]. unfold has_name in Hsec.
  destruct (name sec) as [n|] eqn:E; [|discriminate]. simpl.
  destruct (String.eqb_spec n nm) as [->|Hne].
  - rewrite bool_decide_eq_true_2 by reflexivity. reflexivity.
  - rewrite bool_decide_eq_false_2 by congruence. apply IH, Hl.
Qed.

Lemma find_app_first {A} (f : A -> bool) (l1 l2 : list A) :
  List.find f (l1 ++ l2) =
  match List.find f l1 with Some x => Some x | None => List.find f l2 end.
Proof.
  induction l1 as [|a l1 IH]; simpl; [reflexivity|].
  destruct (f a); [reflexivity|exact IH].
Qed.

Lemma section_in_groups_find nm (secs : dict (list ElfSection)) :
  forall ks,
  (forall k, k ∈ ks -> is_Some (dict_get secs k)) ->
  forallb has_name
    (flat_map (fun k => match dict_get secs k with
                        | Some l => l
                        | None => []
                        end) ks) = true ->
  section_in_groups nm secs ks =
  Ret (List.find (fun s => bool_decide (name s = Some nm))
         (flat_map (fun k => match dict_get secs k with
                             | Some l => l
                             | None => []
                             end) ks)).
Proof.
  induction ks as [|k ks IH]; intros Hks Hnames; simpl; [reflexivity|].
  simpl in Hnames. destruct (Hks k ltac:(left)) as [l Hl].
  rewrite Hl in *. rewrite forallb_app, andb_true_iff in Hnames.
  destruct Hnames as [Hn1 Hn2].
  rewrite (section_in_group_find nm l Hn1), find_app_first. simpl.
  destruct (List.find _ l); [reflexivity|].
  apply IH; [|exact Hn2]. intros k' Hk'. apply Hks. right. exact Hk'.
Qed.

Lemma get_section_find (self : Elf)
    (secs : dict (list ElfSection)) (nm : string) :
  sections self = Some secs ->
  forallb has_name (scan_order secs) = true ->
  get_section nm self =
  (Ret (List.find (fun s => bool_decide (name s = Some nm))
                  (scan_order secs)), self).
Proof.
  intros Hsecs Hnames. unfold get_section, bind, read_attr, lift.
  rewrite Hsecs. simpl. f_equal.
  apply section_in_groups_find; [|exact Hnames].
  intros k Hk. apply dict_get_keys, Hk.
Qed.

(** X9: When every section carries a name, [get_section] returns the first
    section, in the order of the dictionary, whose name is the one asked
    for, and [None] when no section has that name; it raises nothing and
    changes nothing. *)
Theorem get_section_finds_first (self : Elf)
    (secs : dict (list ElfSection)) (nm : string) :
  sections self = Some secs ->
  forallb has_name (scan_order secs) = true ->
  get_section nm self =
  (Ret (List.find (fun s => bool_decide (name s = Some nm))
                  (scan_order secs)), self).
Proof. exact (get_section_find self secs nm). Qed.

Lemma get_section_finds_first_witness :
  get_section ".data" (parsed image_text_data) =
  (Ret (List.find (fun s => bool_decide (name s = Some ".data"%string))
                  (scan_order sections_text_data)),
   parsed image_text_data).
Proof.
  apply (get_section_finds_first (parsed image_text_data)
           sections_text_data ".data").
  - vm_compute. reflexivity.
  - vm_compute. reflexivity.
Defined.

(** ** The section encoder: failures and composition *)

Lemma pack_code_no_text (key : Z) self :
  fst (get_section ".text" self) = Ret None ->
  pack_code key self = (Raise AttributeError, self).
Proof.
  intros Hnone. unfold pack_code.
  erewrite bind_run by (rewrite get_section_run, Hnone; reflexivity).
  reflexivity.
Qed.

(** X12: Without a section named [.text], [pack_code] raises [AttributeError]
    (it reads [sh_size] of [None]) and leaves the object as it was. *)
Theorem pack_code_without_text (key : Z) (self : Elf) :
  fst (get_section ".text" self) = Ret None ->
  pack_code key self = (Raise AttributeError, self).
Proof. exact (pack_code_no_text key self). Qed.

Lemma pack_code_without_text_witness :
  pack_code 0xa5 (parsed image_bss) = (Raise AttributeError, parsed image_bss).
Proof.
  apply (pack_code_without_text 0xa5 (parsed image_bss)).
  vm_compute. reflexivity.
Defined.

Lemma xor_at_beyond (pos key : Z) self :
  len (data self) <= pos -> xor_at pos key self = (Raise IndexError, self).
Proof.
  intros Hpos. unfold xor_at, bind, read, lift.
  rewrite getitem_beyond; [reflexivity|pose proof (len_nonneg (data self)); lia|].
  apply lookup_ge_None. unfold len in Hpos. lia.
Qed.

Lemma bind_raise {A B} (m : M A) (k : A -> M B) self e self' :
  m self = (Raise e, self') -> bind m k self = (Raise e, self').
Proof. intros H. unfold bind. rewrite H. reflexivity. Qed.

Lemma pack_loop_overrun (off key : Z) (n : nat) : forall (s : nat) self,
  (1 <= n)%nat -> 0 <= off -> 0 <= key < 256 ->
  len (data self) < off + Z.of_nat (s + n) ->
  for_each (map (fun k => 0 + Z.of_nat k) (seq s n))
           (fun i => xor_at (off + i) key) self =
  (Raise IndexError,
   set_data (xor_region key (data self) (Z.to_nat off + s)
               (Z.to_nat (len (data self) - off - Z.of_nat s))) self).
Proof.
  induction n as [|n IH]; intros s self Hn Hoff Hk Hlen; [lia|]. simpl.
  destruct (Z.le_gt_cases (len (data self)) (off + Z.of_nat s)) as [Hout|Hin].
  - erewrite bind_raise by (apply xor_at_beyond; lia).
    replace (Z.to_nat (len (data self) - off - Z.of_nat s)) with 0%nat by lia.
    simpl. rewrite set_data_same. reflexivity.
  - erewrite bind_run by (apply xor_at_run; [lia|assumption]).
    rewrite IH; simpl; try assumption.
    + unfold len. rewrite length_alter. fold (len (data self)).
      replace (Z.to_nat (len (data self) - off - Z.of_nat s))
        with (S (Z.to_nat (len (data self) - off - Z.of_nat (S s)))) by lia.
      simpl.
      replace (Z.to_nat (off + (0 + Z.of_nat s)))
        with (Z.to_nat off + s)%nat by lia.
      replace (Z.to_nat off + S s)%nat with (S (Z.to_nat off + s)) by lia.
      reflexivity.
    + lia.
    + unfold len. rewrite length_alter. fold (len (data self)). lia.
Qed.

(** X13: When [.text] reaches past the end of the buffer, [pack_code] raises
    [IndexError], but only after it has encoded every byte of the section
    that is in the buffer: the failure leaves the image half encoded. *)
Theorem pack_code_overrun (key : Z) (self : Elf) (text_sec : ElfSection) :
  fst (get_section ".text" self) = Ret (Some text_sec) ->
  0 <= sh_offset text_sec -> 1 <= sh_size text_sec ->
  len (data self) < sh_offset text_sec + sh_size text_sec ->
  0 <= key < 256 ->
  pack_code key self =
  (Raise IndexError,
   set_data (xor_region key (data self) (Z.to_nat (sh_offset text_sec))
               (Z.to_nat (len (data self) - sh_offset text_sec))) self).
Proof.
  intros Hsec Hoff Hsize Hlen Hk. unfold pack_code.
  erewrite bind_run by (rewrite get_section_run, Hsec; reflexivity).
  erewrite bind_run by reflexivity.
  unfold range. rewrite Z.sub_0_r.
  rewrite pack_loop_overrun; try assumption; try lia.
  rewrite Nat.add_0_r, Z.sub_0_r. reflexivity.
Qed.

Lemma pack_code_overrun_witness :
  pack_code 0xa5 (parsed image_text_overrun) =
  (Raise IndexError,
   set_data (xor_region 0xa5 (data (parsed image_text_overrun))
               (Z.to_nat (sh_offset text_overrun))
               (Z.to_nat (len (data (parsed image_text_overrun))
                          - sh_offset text_overrun)))
            (parsed image_text_overrun)).
Proof.
  apply (pack_code_overrun 0xa5 (parsed image_text_overrun) text_overrun).
  - vm_compute. reflexivity.
  - vm_compute. discriminate.
  - vm_compute. discriminate.
  - vm_compute. reflexivity.
  - lia.
Defined.

Lemma lxor_not_byte (b key : Z) :
  0 <= b < 256 -> ~ (0 <= key < 256) -> ~ (0 <= Z.lxor b key < 256).
Proof.
  intros Hb Hkey Hx. apply Hkey.
  replace key with (Z.lxor b (Z.lxor b key))
    by (rewrite <- Z.lxor_assoc, Z.lxor_nilpotent; apply Z.lxor_0_l).
  apply lxor_byte_range; assumption.
Qed.

Lemma byte_of_int_refused (v : Z) :
  ~ (0 <= v < 256) -> byte_of_int v = Raise ValueError.
Proof.
  intros Hv. unfold byte_of_int. destruct (Z.ltb_spec v 0); [reflexivity|].
  destruct (Byte.of_N (Z.to_N v)) as [b|] eqn:E; [|reflexivity].
  apply Byte.to_of_N in E. pose proof (Byte.to_N_bounded b). lia.
Qed.

Lemma xor_at_refused (pos key : Z) self :
  0 <= pos < len (data self) -> ~ (0 <= key < 256) ->
  xor_at pos key self = (Raise ValueError, self).
Proof.
  intros Hpos Hkey. unfold xor_at, bind, read, lift.
  destruct (lookup_lt_is_Some_2 (data self) (Z.to_nat pos)) as [b Hb];
    [unfold len in Hpos; lia|].
  rewrite (getitem_lookup _ _ b) by (lia || assumption).
  unfold setitem.
  rewrite byte_of_int_refused
    by (apply lxor_not_byte; [apply byte_val_range|exact Hkey]).
  reflexivity.
Qed.

(** X14: With a key that is not one byte, [pack_code] raises [ValueError] at
    the first byte of a [.text] that has one in the buffer, and the
    buffer is left as it was. *)
Theorem pack_code_key_not_a_byte (key : Z) (self : Elf)
    (text_sec : ElfSection) :
  fst (get_section ".text" self) = Ret (Some text_sec) ->
  0 <= sh_offset text_sec < len (data self) -> 1 <= sh_size text_sec ->
  ~ (0 <= key < 256) ->
  pack_code key self = (Raise ValueError, self).
Proof.
  intros Hsec Hoff Hsize Hkey. unfold pack_code.
  erewrite bind_run by (rewrite get_section_run, Hsec; reflexivity).
  erewrite bind_run by reflexivity.
  unfold range. rewrite Z.sub_0_r.
  destruct (Z.to_nat (sh_size text_sec)) as [|n] eqn:En; [lia|].
  simpl. apply bind_raise. apply xor_at_refused; [lia|exact Hkey].
Qed.

Lemma pack_code_key_not_a_byte_witness :
  pack_code 0x1a5 (parsed image_text_data) =
  (Raise ValueError, parsed image_text_data).
Proof.
  apply (pack_code_key_not_a_byte 0x1a5 (parsed image_text_data)
           text_section).
  - vm_compute. reflexivity.
  - vm_compute. split; [discriminate|reflexivity].
  - vm_compute. discriminate.
  - lia.
Defined.

Lemma xor_byte_compose (k1 k2 : Z) (b : byte) :
  0 <= k1 < 256 -> 0 <= k2 < 256 ->
  xor_byte k2 (xor_byte k1 b) = xor_byte (Z.lxor k1 k2) b.
Proof.
  intros H1 H2. unfold xor_byte.
  rewrite byte_val_total by (apply lxor_byte_range; auto using byte_val_range).
  rewrite Z.lxor_assoc. reflexivity.
Qed.

(** X15: Encoding with one key and then with another is encoding once with
    the XOR of the two keys. *)
Theorem pack_code_keys_compose (self : Elf) (text_sec : ElfSection)
    (k1 k2 : Z) :
  fst (get_section ".text" self) = Ret (Some text_sec) ->
  0 <= sh_offset text_sec ->
  sh_offset text_sec + sh_size text_sec <= len (data self) ->
  0 <= k1 < 256 -> 0 <= k2 < 256 ->
  exists self1,
    pack_code k1 self = (Ret tt, self1) /\
    pack_code k2 self1 = pack_code (Z.lxor k1 k2) self.
Proof.
  intros Hsec Hoff Hlen H1 H2. eexists. split.
  - apply pack_code_run; eassumption.
  - rewrite (pack_code_run k2 _ text_sec); try assumption.
    + rewrite (pack_code_run (Z.lxor k1 k2) self text_sec);
        try assumption; [|apply lxor_byte_range; assumption].
      simpl. f_equal. destruct self; unfold set_data; simpl. f_equal.
      apply list_eq. intros i. rewrite !xor_region_lookup.
      destruct (decide _); [|reflexivity].
      destruct (_ !! i) as [b|]; simpl; [|reflexivity].
      f_equal. apply xor_byte_compose; assumption.
    + rewrite <- Hsec. apply get_section_sections. reflexivity.
    + simpl. unfold len. rewrite xor_region_length. exact Hlen.
Qed.

Lemma pack_code_keys_compose_witness :
  exists self1,
    pack_code 0xa5 (parsed image_text_data) = (Ret tt, self1) /\
    pack_code 0x0f self1 =
    pack_code (Z.lxor 0xa5 0x0f) (parsed image_text_data).
Proof.
  apply (pack_code_keys_compose (parsed image_text_data) text_section
           0xa5 0x0f).
  - vm_compute. reflexivity.
  - vm_compute. discriminate.
  - vm_compute. discriminate.
  - lia.
  - lia.
Defined.

(** ** The search: soundness and outcomes *)

Lemma forallb_elem {A} (f : A -> bool) (l : list A) (x : A) :
  forallb f l = true -> x ∈ l -> f x = true.
Proof.
  intros H Hx. rewrite forallb_forall in H. apply H.
  apply list_elem_of_In. exact Hx.
Qed.

(** X10: A location [find_cave] returns for a size of at least one is sound:
    it lies in one of the sections, its file offset starts the required
    number of zero bytes, all of them inside that section and inside the
    buffer, and the address is as far from [sh_addr] as the offset is from
    [sh_offset]. *)
Theorem find_cave_sound (self : Elf) (secs : dict (list ElfSection))
    (R addr off : Z) :
  sections self = Some secs ->
  forallb (fun s => 0 <=? sh_offset s) (scan_order secs) = true ->
  1 <= R ->
  fst (find_cave R self) = Ret (Some (addr, off)) ->
  exists sec,
    sec ∈ scan_order secs /\
    sh_offset sec <= off /\ off + R <= sh_offset sec + sh_size sec /\
    addr - sh_addr sec = off - sh_offset sec /\
    off + R <= len (data self) /\
    zero_run (data self) off R = true.
Proof.
  intros Hsecs Hoffs HR Hfound.
  rewrite (find_cave_scan R self secs Hsecs) in Hfound. simpl in Hfound.
  apply cave_in_group_inv in Hfound
    as (pre & sec & post & Hsplit & _ & Hsec).
  assert (Hin : sec ∈ scan_order secs)
    by (rewrite Hsplit; apply elem_of_app; right; left).
  assert (Hoff : 0 <= sh_offset sec)
    by (apply Z.leb_le; exact (forallb_elem _ _ _ Hoffs Hin)).
  pose proof (cave_in_section_cases (data self) sec R HR Hoff) as Hcases.
  rewrite Hsec in Hcases. destruct Hcases as (O & -> & -> & Hfirst & _).
  destruct (first_run_in_buffer _ _ _ _ HR Hoff Hfirst) as [_ Hbuf].
  apply first_run_true in Hfirst as [Hrun _].
  pose proof Hrun as Hzero.
  apply run_at_true in Hrun as (HO & Hend & _).
  unfold run_at in Hzero. apply andb_prop in Hzero as [_ Hzero].
  exists sec. repeat split; (assumption || lia).
Qed.

Lemma find_cave_sound_witness :
  exists sec,
    sec ∈ scan_order sections_text_data /\
    sh_offset sec <= 220 /\ 220 + 4 <= sh_offset sec + sh_size sec /\
    0x08049000 - sh_addr sec = 220 - sh_offset sec /\
    220 + 4 <= len (data (parsed image_text_data)) /\
    zero_run (data (parsed image_text_data)) 220 4 = true.
Proof.
  apply (find_cave_sound (parsed image_text_data) sections_text_data 4
           0x08049000 220).
  - vm_compute. reflexivity.
  - vm_compute. reflexivity.
  - lia.
  - vm_compute. reflexivity.
Defined.

Lemma cave_in_group_outcomes (d : list byte) (R : Z) (HR : 1 <= R) :
  forall l : list ElfSection,
  forallb (fun s => (0 <=? sh_offset s) && has_name s) l = true ->
  match cave_in_group d R l with
  | Ret _ => True
  | Raise e =>
      e = IndexError /\
      exists sec, sec ∈ l /\ len d < sh_offset sec + sh_size sec
  | OutOfFuel => False
  end.
Proof.
  induction l as [|sec l IH]; intros Hall; [exact I|].
  simpl in Hall. apply andb_prop in Hall as [Hsec Hall].
  apply andb_prop in Hsec as [Hoff Hname]. apply Z.leb_le in Hoff.
  specialize (IH Hall). simpl.
  pose proof (cave_in_section_cases d sec R HR Hoff) as Hcases.
  destruct (cave_in_section d R sec) as [[loc|]|e|]; simpl.
  - exact I.
  - destruct (cave_in_group d R l) as [r|e|]; [exact I| |exact IH].
    destruct IH as (-> & s & Hs & Hlen). split; [reflexivity|].
    exists s. split; [right; exact Hs|exact Hlen].
  - destruct Hcases as [(-> & i & Hi & Hnone & _)|(_ & Hnone & _)].
    + split; [reflexivity|]. exists sec. split; [left|].
      apply lookup_ge_None in Hnone. unfold len. lia.
    + unfold has_name in Hname. rewrite Hnone in Hname. discriminate.
  - exact Hcases.
Qed.

(** X11: On an object whose sections all carry a name, [find_cave] for a size
    of at least one always comes to an end, and the one exception it can
    raise is [IndexError], which takes a section that reaches past the
    end of the buffer.  So when every section lies inside the buffer the
    search returns. *)
Theorem find_cave_outcomes (self : Elf) (secs : dict (list ElfSection))
    (R : Z) :
  sections self = Some secs ->
  forallb (fun s => (0 <=? sh_offset s) && has_name s) (scan_order secs)
    = true ->
  1 <= R ->
  match fst (find_cave R self) with
  | Ret _ => True
  | Raise e =>
      e = IndexError /\
      exists sec, sec ∈ scan_order secs /\
                  len (data self) < sh_offset sec + sh_size sec
  | OutOfFuel => False
  end.
Proof.
  intros Hsecs Hall HR.
  rewrite (find_cave_scan R self secs Hsecs). simpl.
  apply cave_in_group_outcomes; assumption.
Qed.

Lemma find_cave_outcomes_witness :
  match fst (find_cave 16 (parsed image_text_overrun)) with
  | Ret _ => True
  | Raise e =>
      e = IndexError /\
      exists sec,
        sec ∈ scan_order
                (default [] (sections (parsed image_text_overrun))) /\
        len (data (parsed image_text_overrun))
          < sh_offset sec + sh_size sec
  | OutOfFuel => False
  end.
Proof.
  apply (find_cave_outcomes (parsed image_text_overrun)
           (default [] (sections (parsed image_text_overrun))) 16).
  - vm_compute. reflexivity.
  - vm_compute. reflexivity.
  - lia.
Defined.

(** ** The stub *)

Lemma testbit_above (a n m : Z) :
  0 <= a < 2 ^ n -> 0 <= n <= m -> Z.testbit a m = false.
Proof.
  intros Ha Hn. destruct (Z.eq_dec a 0) as [->|Hne]; [apply Z.bits_0|].
  apply Z.bits_above_log2; [lia|].
  assert (Z.log2 a < n) by (apply Z.log2_lt_pow2; lia). lia.
Qed.

(** The mask [0xFFFFF000] on an unsigned word of 32 bits rounds it down to
    a multiple of 4096. *)
Lemma land_page (a : Z) :
  0 <= a < 2 ^ 32 -> Z.land a 0xFFFFF000 = 4096 * (a / 4096).
Proof.
  intros Ha. apply Z.bits_inj'. intros n Hn.
  rewrite Z.land_spec.
  change 0xFFFFF000 with (Z.shiftl (Z.ones 20) 12).
  change 4096 with (2 ^ 12).
  rewrite Z.mul_comm, <- Z.shiftl_mul_pow2, <- Z.shiftr_div_pow2 by lia.
  rewrite !Z.shiftl_spec by lia.
  destruct (Z.lt_ge_cases n 12) as [Hlow|Hhigh].
  - rewrite !(Z.testbit_neg_r _ (n - 12)) by lia. apply andb_false_r.
  - rewrite Z.shiftr_spec by lia. replace (n - 12 + 12) with n by lia.
    destruct (Z.lt_ge_cases n 32) as [Hin|Hout].
    + rewrite Z.ones_spec_low by lia. apply andb_true_r.
    + rewrite (testbit_above a 32 n) by lia. reflexivity.
Qed.



Lemma create_unpacker_run (asm : string -> outcome (list byte))
    (self : Elf) (text_sec : ElfSection) (h : Ehdr) :
  fst (get_section ".text" self) = Ret (Some text_sec) ->
  header self = Some h ->
  0 <= sh_addr text_sec < 2 ^ 32 ->
  create_unpacker asm self =
  (asm (unpacker_source (4096 * (sh_addr text_sec / 4096))
                        (sh_size text_sec) (sh_addr text_sec) (e_entry h)),
   self).
Proof.
  intros Hsec Hh Haddr. unfold create_unpacker.
  erewrite bind_run by (rewrite get_section_run, Hsec; reflexivity).
  erewrite bind_run by reflexivity.
  unfold bind, read_attr, lift. rewrite Hh. simpl.
  rewrite land_page by exact Haddr. reflexivity.
Qed.




(** ** The script, end to end *)

Lemma set_section_name_header t j s self :
  header (set_section_name t j s self) = header self.
Proof.
  unfold set_section_name. destruct (sections self) as [d|]; [|reflexivity].
  destruct (dict_get d t); reflexivity.
Qed.

Lemma name_group_keeps_header t j l : keeps header (name_group t j l).
Proof.
  revert j. induction l as [|sec l IH]; intros j; simpl.
  - apply keeps_ret.
  - apply keeps_bind; [apply get_string_keeps|intros s].
    apply keeps_bind; [|intros _; apply IH].
    apply keeps_modify. apply set_section_name_header.
Qed.

Lemma parse_sections_header_keeps_header :
  keeps header parse_sections_header.
Proof.
  unfold parse_sections_header. repeat keeps_step.
  - destruct (_ =? _); repeat keeps_step.
  - destruct (dict_get _ _); [apply name_group_keeps_header|keeps_step].
Qed.

(** A call of [pack_code] that returns has encoded all of [.text]. *)
Lemma pack_code_inv (key : Z) self self' text_sec :
  fst (get_section ".text" self) = Ret (Some text_sec) ->
  0 <= sh_offset text_sec -> 0 <= key < 256 ->
  pack_code key self = (Ret tt, self') ->
  (sh_size text_sec <= 0 \/
   sh_offset text_sec + sh_size text_sec <= len (data self)) /\
  self' = set_data (xor_region key (data self)
                      (Z.to_nat (sh_offset text_sec))
                      (Z.to_nat (sh_size text_sec))) self.
Proof.
  intros Hsec Hoff Hk Hrun.
  destruct (Z.le_gt_cases (sh_size text_sec) 0) as [Hz|Hpos].
  - split; [left; exact Hz|].
    unfold pack_code in Hrun.
    erewrite bind_run in Hrun
      by (rewrite get_section_run, Hsec; reflexivity).
    erewrite bind_run in Hrun by reflexivity.
    unfold range in Hrun.
    replace (Z.to_nat (sh_size text_sec - 0)) with 0%nat in Hrun by lia.
    replace (Z.to_nat (sh_size text_sec)) with 0%nat by lia.
    simpl in *. injection Hrun as <-. symmetry. apply set_data_same.
  - destruct (Z.le_gt_cases (sh_offset text_sec + sh_size text_sec)
                            (len (data self))) as [Hin|Hout].
    + split; [right; exact Hin|].
      rewrite (pack_code_run key self text_sec) in Hrun by assumption.
      congruence.
    + exfalso. unfold pack_code in Hrun.
      erewrite bind_run in Hrun
        by (rewrite get_section_run, Hsec; reflexivity).
      erewrite bind_run in Hrun by reflexivity.
      unfold range in Hrun. rewrite Z.sub_0_r in Hrun.
      rewrite pack_loop_overrun in Hrun; [discriminate|lia..].
Qed.

(** The object when the stub has been assembled. *)
Lemma before_cave_data asm self0 stub st :
  before_cave asm self0 = (Ret stub, st) ->
  string_table_offset self0 = None ->
  exists h secs text_sec,
    unpack_ehdr (take 52 (data self0)) = Ret h /\
    is_Some (dict_get ETYPE_DIC (e_type h)) /\
    (52 <= length (data self0))%nat /\
    header st = Some h /\
    sections st = Some secs /\
    all_sections unsigned_section secs /\
    Forall word_section (scan_order secs) /\
    fst (get_section ".text" st) = Ret (Some text_sec) /\
    data st = xor_region 0xa5 (data self0)
                (Z.to_nat (sh_offset text_sec))
                (Z.to_nat (sh_size text_sec)) /\
    (sh_size text_sec <= 0 \/
     sh_offset text_sec + sh_size text_sec <= len (data self0)) /\
    create_unpacker asm st = (Ret stub, st).
Proof.
  unfold before_cave. intros Hrun Hsto.
  apply bind_inv in Hrun as ([] & s1 & Hhdr & Hrun).
  apply bind_inv in Hrun as ([] & s2 & Hsecs & Hrun).
  apply bind_inv in Hrun as ([] & s3 & Hpack & Hrun).
  destruct (parse_header_inv _ _ Hhdr) as (h & Hh & -> & Hty & Hlen).
  pose proof (parse_sections_header_keeps_data (set_header h self0)) as Hd2.
  rewrite Hsecs in Hd2. simpl in Hd2.
  pose proof (parse_sections_header_keeps_header (set_header h self0)) as Hh2.
  rewrite Hsecs in Hh2. simpl in Hh2.
  pose proof (parse_sections_header_unsigned _ _ _ I Hsecs) as Hu2.
  destruct (parse_sections_header_words (set_header h self0) s2 h)
    as (secs & Hsecs2 & Hwords);
    [destruct self0; reflexivity|destruct self0; exact Hsto|exact Hsecs|].
  destruct (pack_code_frame _ _ _ Hu2 Hpack)
    as (text_sec & Htext & Hs3 & Hh3 & _).
  destruct (get_section_unsigned _ _ _ Hu2 Htext) as [Hoff _].
  destruct (pack_code_inv 0xa5 s2 s3 text_sec Htext Hoff ltac:(lia) Hpack)
    as [Hfit ->].
  pose proof (create_unpacker_keeps asm (fun s => s)
                (set_data (xor_region 0xa5 (data s2)
                             (Z.to_nat (sh_offset text_sec))
                             (Z.to_nat (sh_size text_sec))) s2)) as Hk.
  rewrite Hrun in Hk. simpl in Hk. subst st.
  exists h, secs, text_sec.
  split; [exact Hh|]. split; [exact Hty|]. split; [exact Hlen|].
  split; [rewrite Hh3; exact Hh2|].
  split; [rewrite Hs3; exact Hsecs2|].
  split.
  { destruct Hu2 as (secs' & E & Hall). congruence. }
  split; [exact Hwords|].
  split; [rewrite <- Htext; apply get_section_sections; exact Hs3|].
  split; [destruct s2; simpl in *; rewrite Hd2; reflexivity|].
  split; [rewrite <- Hd2; exact Hfit|].
  exact Hrun.
Qed.

(** What a run of the script that writes its file has done. *)
Lemma script_inv asm fname elf_data out s_end :
  script asm (mkElf fname elf_data None None None) = (Ret out, s_end) ->
  exists h secs text_sec stub st addr off,
    unpack_ehdr (take 52 elf_data) = Ret h /\
    is_Some (dict_get ETYPE_DIC (e_type h)) /\
    (52 <= length elf_data)%nat /\
    before_cave asm (mkElf fname elf_data None None None) = (Ret stub, st) /\
    header st = Some h /\
    sections st = Some secs /\
    all_sections unsigned_section secs /\
    Forall word_section (scan_order secs) /\
    fst (get_section ".text" st) = Ret (Some text_sec) /\
    data st = xor_region 0xa5 elf_data
                (Z.to_nat (sh_offset text_sec))
                (Z.to_nat (sh_size text_sec)) /\
    create_unpacker asm st = (Ret stub, st) /\
    fst (find_cave (len stub) st) = Ret (Some (addr, off)) /\
    0 <= addr < 2 ^ 32 /\
    (stub = [] \/ (0 <= off /\ off + len stub <= len elf_data)) /\
    out = set_slice (set_slice (data st) 24 (24 + 4) (le32 addr))
                    off (off + len stub) stub.
Proof.
  set (self0 := mkElf fname elf_data None None None).
  intros Hscript. rewrite script_split in Hscript.
  apply bind_inv in Hscript as (stub & st & Hbefore & Hrest).
  apply bind_inv in Hrest as (r & st' & Hfind & Hrest).
  rewrite find_cave_run in Hfind. injection Hfind as Hr <-.
  destruct r as [[addr off]|]; [|discriminate].
  apply bind_inv in Hrest as ([] & s5 & Hep & Hrest).
  apply bind_inv in Hrest as ([] & s6 & Hwrite & Hrest).
  injection Hrest as <- _.
  destruct (before_cave_data _ _ _ _ Hbefore eq_refl)
    as (h & secs & text_sec & Hh & Hty & Hlen & Hhst & Hsecs & Hall & Hwords
        & Htext & Hdata & _ & Hcreate).
  simpl in Hh, Hlen, Hdata.
  unfold change_ep in Hep.
  apply bind_inv in Hep as (bs & s' & Hp32 & Hep).
  injection Hp32 as Hp32 <-. apply p32_inv in Hp32 as [Haddr ->].
  injection Hep as <-.
  rewrite write_unpacker_run in Hwrite. injection Hwrite as <-. simpl.
  exists h, secs, text_sec, stub, st, addr, off.
  repeat (split; [assumption|]).
  split; [|reflexivity].
  destruct (Z.eq_dec (len stub) 0) as [Hempty|Hfull].
  - left. destruct stub; [reflexivity|discriminate].
  - right. pose proof (len_nonneg stub) as Hnn.
    destruct (find_cave_found_inv (len stub) st secs (addr, off) Hsecs Hall
                ltac:(lia) Hr) as (sec & O & Hin & Hfirst & [= -> ->]).
    pose proof (scan_order_all _ _ Hall) as Huns.
    rewrite Forall_forall in Huns. destruct (Huns sec Hin) as [Hoff _].
    destruct (first_run_in_buffer (data st) sec (len stub) O ltac:(lia)
                Hoff Hfirst) as [Hlo Hhi].
    rewrite Hdata in Hhi. unfold len in Hhi at 2.
    rewrite xor_region_length in Hhi. fold (len elf_data) in Hhi.
    split; assumption.
Qed.

(** X20: When the script writes a packed file, the file holds the stub at the
    offset [find_cave] returned, the address [find_cave] returned as a
    little-endian word at bytes 24 to 27 (where the stub does not cover
    them), and the bytes of [.text] XORed with [0xa5] (where neither of
    the two covers them). *)
Theorem packed_file_contents (asm : string -> outcome (list byte))
    (fname : string) (elf_data out : list byte) :
  main asm fname elf_data = Ret out ->
  exists stub st text_sec addr off,
    before_cave asm (mkElf fname elf_data None None None) = (Ret stub, st) /\
    fst (get_section ".text" st) = Ret (Some text_sec) /\
    fst (find_cave (len stub) st) = Ret (Some (addr, off)) /\
    0 <= addr < 2 ^ 32 /\
    (forall i : nat,
       off <= Z.of_nat i < off + len stub ->
       out !! i = stub !! (i - Z.to_nat off)%nat) /\
    (forall i : nat,
       24 <= Z.of_nat i < 28 ->
       ~ (off <= Z.of_nat i < off + len stub) ->
       out !! i = le32 addr !! (i - 24)%nat) /\
    (forall i : nat,
       sh_offset text_sec <= Z.of_nat i
         < sh_offset text_sec + sh_size text_sec ->
       ~ (24 <= Z.of_nat i < 28) ->
       ~ (off <= Z.of_nat i < off + len stub) ->
       out !! i = xor_byte 0xa5 <$> elf_data !! i).
Proof.
  unfold main. destruct (bool_decide _); [|discriminate].
  destruct (script asm (mkElf fname elf_data None None None))
    as [o s_end] eqn:Hscript. simpl.
  intros ->.
  destruct (script_inv _ _ _ _ _ Hscript)
    as (h & secs & text_sec & stub & st & addr & off & _ & _ & Hlen
        & Hbefore & _ & Hsecs & _ & _ & Htext & Hdata & _ & Hfind & Haddr
        & Hcave & ->).
  exists stub, st, text_sec, addr, off.
  repeat (split; [assumption|]).
  set (d5 := set_slice (data st) 24 (24 + 4) (le32 addr)).
  assert (Hlenst : len (data st) = len elf_data)
    by (rewrite Hdata; unfold len; rewrite xor_region_length; reflexivity).
  assert (Hb5 : 24 + 4 <= len (data st)) by (unfold len in *; lia).
  assert (Hlen5 : len d5 = len elf_data).
  { unfold len, d5. rewrite set_slice_length;
      [exact Hlenst|lia|exact Hb5|reflexivity]. }
  assert (Hin5 : forall i : nat, 24 <= Z.of_nat i < 28 ->
                   d5 !! i = le32 addr !! (i - 24)%nat).
  { intros i Hi. unfold d5.
    rewrite set_slice_lookup_in; [reflexivity|lia|exact Hb5|reflexivity|lia]. }
  assert (Hout5 : forall i : nat, ~ (24 <= Z.of_nat i < 28) ->
                    d5 !! i = data st !! i).
  { intros i Hi. apply set_slice_lookup_out; [lia|exact Hb5|reflexivity|lia]. }
  assert (Htxt : forall i : nat,
            sh_offset text_sec <= Z.of_nat i
              < sh_offset text_sec + sh_size text_sec ->
            data st !! i = xor_byte 0xa5 <$> elf_data !! i).
  { intros i Hi. rewrite Hdata, xor_region_lookup.
    destruct (decide _) as [_|Hn]; [reflexivity|lia]. }
  destruct Hcave as [->|[Hoff Hfit]].
  - change (len []) with 0. rewrite set_slice_empty.
    split; [intros i Hi; lia|].
    split; [intros i Hi _; apply Hin5, Hi|].
    intros i Ht He _. rewrite Hout5 by exact He. apply Htxt, Ht.
  - assert (Hb6 : off + len stub <= len d5) by lia.
    pose proof (len_nonneg stub) as Hnn.
    split.
    { intros i Hi.
      rewrite set_slice_lookup_in; [reflexivity|lia|exact Hb6|lia|lia]. }
    split.
    { intros i Hi Hc.
      rewrite set_slice_lookup_out; [|lia|exact Hb6|lia|lia].
      apply Hin5, Hi. }
    intros i Ht He Hc.
    rewrite set_slice_lookup_out; [|lia|exact Hb6|lia|lia].
    rewrite Hout5 by exact He. apply Htxt, Ht.
Qed.

Lemma packed_file_contents_witness :
  exists stub st text_sec addr off,
    before_cave asm4 (mkElf "a.elf" image_text_data None None None)
      = (Ret stub, st) /\
    fst (get_section ".text" st) = Ret (Some text_sec) /\
    fst (find_cave (len stub) st) = Ret (Some (addr, off)) /\
    0 <= addr < 2 ^ 32 /\
    (forall i : nat,
       off <= Z.of_nat i < off + len stub ->
       packed_text_data !! i = stub !! (i - Z.to_nat off)%nat) /\
    (forall i : nat,
       24 <= Z.of_nat i < 28 ->
       ~ (off <= Z.of_nat i < off + len stub) ->
       packed_text_data !! i = le32 addr !! (i - 24)%nat) /\
    (forall i : nat,
       sh_offset text_sec <= Z.of_nat i
         < sh_offset text_sec + sh_size text_sec ->
       ~ (24 <= Z.of_nat i < 28) ->
       ~ (off <= Z.of_nat i < off + len stub) ->
       packed_text_data !! i = xor_byte 0xa5 <$> image_text_data !! i).
Proof.
  apply (packed_file_contents asm4 "a.elf" image_text_data
           packed_text_data).
  vm_compute. reflexivity.
Defined.



Lemma unpack_ehdr_entry (d d' : list byte) (h : Ehdr) (V : Z) :
  unpack_ehdr (take 52 d) = Ret h -> 0 <= V < 2 ^ 32 ->
  (52 <= length d')%nat ->
  (forall i : nat, (i < 52)%nat -> ~ (24 <= i < 28)%nat ->
                   d' !! i = d !! i) ->
  (forall i : nat, (24 <= i < 28)%nat -> d' !! i = le32 V !! (i - 24)%nat) ->
  unpack_ehdr (take 52 d') = Ret (with_entry V h).
Proof.
  intros Hh HV Hlen Hout Hin. unfold unpack_ehdr in *.
  destruct (decide (length (take 52 d) = 52%nat)); [|discriminate].
  destruct (decide (length (take 52 d') = 52%nat)) as [_|Hn];
    [|exfalso; apply Hn; rewrite length_take; lia].
  injection Hh as <-. unfold with_entry.
  cbn [e_ident e_type e_machine e_version e_entry e_phoff e_shoff e_flags
       e_ehsize e_phentsize e_phnum e_shentsize e_shnum e_shstrndx].
  assert (Hfield : forall off w : nat,
            (off + w <= 24 \/ 28 <= off)%nat -> (off + w <= 52)%nat ->
            field (take 52 d') off w = field (take 52 d) off w).
  { intros off w Hdis Hfit. apply field_ext. intros i Hi.
    rewrite !lookup_take_lt by lia. apply Hout; lia. }
  f_equal. f_equal; try (apply Hfield; lia).
  - apply list_eq. intros i. rewrite !lookup_take.
    destruct (decide (i < 16)%nat); [|reflexivity].
    destruct (decide (i < 52)%nat); [|lia].
    apply Hout; lia.
  - transitivity (le_int (le32 V)); [|apply le_int_le32, HV].
    unfold field. f_equal.
    apply list_eq. intros i. rewrite lookup_take, lookup_drop.
    destruct (decide (i < 4)%nat) as [Hi|Hi].
    + rewrite lookup_take_lt by lia. rewrite Hin by lia.
      f_equal. lia.
    + symmetry. apply lookup_ge_None. simpl. lia.
Qed.

(** X21: When the script writes a packed file, and [.text] and the cave lie
    past the 52 bytes of the ELF header, the header of the packed file is
    the header of the input with one field changed: [e_entry] is the
    address [find_cave] returned.  [parse_header] accepts the packed
    file. *)
Theorem packed_file_header (asm : string -> outcome (list byte))
    (fname : string) (elf_data out : list byte) :
  main asm fname elf_data = Ret out ->
  exists h stub st text_sec addr off,
    unpack_ehdr (take 52 elf_data) = Ret h /\
    before_cave asm (mkElf fname elf_data None None None) = (Ret stub, st) /\
    fst (get_section ".text" st) = Ret (Some text_sec) /\
    fst (find_cave (len stub) st) = Ret (Some (addr, off)) /\
    (52 <= sh_offset text_sec -> 52 <= off ->
     unpack_ehdr (take 52 out) = Ret (with_entry addr h) /\
     parse_header (mkElf fname out None None None) =
       (Ret tt, mkElf fname out (Some (with_entry addr h)) None None)).
Proof.
  unfold main. destruct (bool_decide _); [|discriminate].
  destruct (script asm (mkElf fname elf_data None None None))
    as [o s_end] eqn:Hscript. simpl.
  intros ->.
  destruct (script_inv _ _ _ _ _ Hscript)
    as (h & secs & text_sec & stub & st & addr & off & Hh & Hty & Hlen
        & Hbefore & _ & Hsecs & _ & _ & Htext & Hdata & _ & Hfind & Haddr
        & Hcave & ->).
  exists h, stub, st, text_sec, addr, off.
  repeat (split; [assumption|]).
  intros Htxt Hoff.
  set (d5 := set_slice (data st) 24 (24 + 4) (le32 addr)).
  assert (Hlenst : length (data st) = length elf_data)
    by (rewrite Hdata; apply xor_region_length).
  assert (Hb5 : 24 + 4 <= len (data st)) by (unfold len; lia).
  assert (Hlen5 : length d5 = length elf_data).
  { unfold d5. rewrite set_slice_length;
      [exact Hlenst|lia|exact Hb5|reflexivity]. }
  set (out := set_slice d5 off (off + len stub) stub).
  assert (Hlow : forall i : nat, (i < 52)%nat -> out !! i = d5 !! i).
  { intros i Hi. unfold out. destruct Hcave as [->|[_ Hfit]].
    - change (len []) with 0. rewrite set_slice_empty. reflexivity.
    - pose proof (len_nonneg stub).
      apply set_slice_lookup_out; unfold len in *; lia. }
  assert (Hlen6 : (52 <= length out)%nat).
  { unfold out. destruct Hcave as [->|[_ Hfit]].
    - change (len []) with 0. rewrite set_slice_empty. lia.
    - pose proof (len_nonneg stub).
      rewrite set_slice_length; unfold len in *; lia. }
  assert (Hun : unpack_ehdr (take 52 out) = Ret (with_entry addr h)).
  { apply (unpack_ehdr_entry elf_data out h addr Hh Haddr Hlen6).
    - intros i Hi Hne. rewrite Hlow by exact Hi. unfold d5.
      rewrite set_slice_lookup_out; [|lia|exact Hb5|reflexivity|lia].
      rewrite Hdata, xor_region_lookup.
      destruct (decide _) as [Hin|_]; [lia|reflexivity].
    - intros i Hi. rewrite Hlow by lia. unfold d5.
      rewrite set_slice_lookup_in; [|lia|exact Hb5|reflexivity|lia].
      reflexivity. }
  split; [exact Hun|].
  rewrite parse_header_unfold. cbn [data]. fold out. rewrite Hun.
  destruct Hty as [ty Hty]. cbn [with_entry e_type]. rewrite Hty.
  reflexivity.
Qed.

Lemma packed_file_header_witness :
  exists h stub st text_sec addr off,
    unpack_ehdr (take 52 image_text_data) = Ret h /\
    before_cave asm4 (mkElf "a.elf" image_text_data None None None)
      = (Ret stub, st) /\
    fst (get_section ".text" st) = Ret (Some text_sec) /\
    fst (find_cave (len stub) st) = Ret (Some (addr, off)) /\
    (52 <= sh_offset text_sec -> 52 <= off ->
     unpack_ehdr (take 52 packed_text_data) = Ret (with_entry addr h) /\
     parse_header (mkElf "a.elf" packed_text_data None None None) =
       (Ret tt,
        mkElf "a.elf" packed_text_data (Some (with_entry addr h))
              None None)).
Proof.
  apply (packed_file_header asm4 "a.elf" image_text_data packed_text_data).
  vm_compute. reflexivity.
Defined.

(** X24: When the two parsing calls return and no section is named [.text],
    the script ends in [pack_code] with [AttributeError]: nothing has been
    changed in the buffer and no packed file is written. *)
Theorem no_text_no_packed_file (asm : string -> outcome (list byte))
    (fname : string) (elf_data : list byte) (st : Elf) :
  (parse_header ;;; parse_sections_header)%method
    (mkElf fname elf_data None None None) = (Ret tt, st) ->
  fst (get_section ".text" st) = Ret None ->
  script asm (mkElf fname elf_data None None None)
    = (Raise AttributeError, st) /\
  data st = elf_data /\
  packed_file asm fname elf_data = None.
Proof.
  intros Hparse Hnone.
  assert (Hscript : script asm (mkElf fname elf_data None None None)
                    = (Raise AttributeError, st)).
  { apply bind_inv in Hparse as ([] & s1 & Hh & Hs).
    unfold script. erewrite bind_run by exact Hh.
    erewrite bind_run by exact Hs.
    apply bind_raise, pack_code_no_text, Hnone. }
  split; [exact Hscript|]. split.
  - apply bind_inv in Hparse as ([] & s1 & Hh & Hs).
    pose proof (parse_header_keeps_data
                  (mkElf fname elf_data None None None)) as H1.
    pose proof (parse_sections_header_keeps_data s1) as H2.
    rewrite Hh in H1. rewrite Hs in H2. simpl in H1, H2. congruence.
  - unfold packed_file, main. destruct (bool_decide _); [|reflexivity].
    rewrite Hscript. reflexivity.
Qed.

Lemma no_text_no_packed_file_witness :
  script asm4 (mkElf "a.elf" image_bss None None None)
    = (Raise AttributeError, parsed image_bss) /\
  data (parsed image_bss) = image_bss /\
  packed_file asm4 "a.elf" image_bss = None.
Proof.
  apply (no_text_no_packed_file asm4 "a.elf" image_bss (parsed image_bss)).
  - vm_compute. reflexivity.
  - vm_compute. reflexivity.
Defined.

(** X25: An input whose header counts no section, or only the null section
    ([e_shnum] at most 1), is never packed.  [parse_sections_header]
    returns with an empty dictionary, and [pack_code] raises
    [AttributeError]; when [e_type] is above 4 it is [parse_header] that
    raises [KeyError]. *)
Theorem no_sections_no_packed_file (asm : string -> outcome (list byte))
    (fname : string) (elf_data : list byte) (h : Ehdr) :
  unpack_ehdr (take 52 elf_data) = Ret h ->
  e_shnum h <= 1 ->
  script asm (mkElf fname elf_data None None None) =
    (if (0 <=? e_type h) && (e_type h <=? 4)
     then (Raise AttributeError, mkElf fname elf_data (Some h) (Some []) None)
     else (Raise KeyError, mkElf fname elf_data (Some h) None None)) /\
  packed_file asm fname elf_data = None.
Proof.
  intros Hh Hnum.
  assert (Hscript : script asm (mkElf fname elf_data None None None) =
    (if (0 <=? e_type h) && (e_type h <=? 4)
     then (Raise AttributeError, mkElf fname elf_data (Some h) (Some []) None)
     else (Raise KeyError, mkElf fname elf_data (Some h) None None))).
  { unfold script.
    assert (Hparse : parse_header (mkElf fname elf_data None None None) =
      (if (0 <=? e_type h) && (e_type h <=? 4) then Ret tt
       else Raise KeyError, mkElf fname elf_data (Some h) None None)).
    { rewrite parse_header_unfold. cbn [data]. rewrite Hh.
      unfold set_header. cbn [elf_name data sections string_table_offset].
      f_equal.
      destruct (dict_get ETYPE_DIC (e_type h)) as [ty|] eqn:E.
      - assert (Hk : 0 <= e_type h <= 4)
          by (apply etype_known; rewrite E; eauto).
        destruct (Z.leb_spec 0 (e_type h)); [|lia].
        destruct (Z.leb_spec (e_type h) 4); [reflexivity|lia].
      - destruct (Z.leb_spec 0 (e_type h)); [|reflexivity].
        destruct (Z.leb_spec (e_type h) 4); [|reflexivity].
        assert (Hs : is_Some (dict_get ETYPE_DIC (e_type h)))
          by (apply etype_known; lia).
        rewrite E in Hs. destruct Hs as [? Hs]. discriminate. }
    destruct ((0 <=? e_type h) && (e_type h <=? 4)).
    - erewrite bind_run by exact Hparse.
      assert (Hsecs : parse_sections_header
                        (mkElf fname elf_data (Some h) None None) =
                      (Ret tt, mkElf fname elf_data (Some h) (Some []) None)).
      { unfold parse_sections_header.
        erewrite bind_run by reflexivity.
        erewrite bind_run by reflexivity.
        erewrite bind_run by reflexivity.
        unfold range.
        replace (Z.to_nat (e_shnum h - 1)) with 0%nat by lia.
        reflexivity. }
      erewrite bind_run by exact Hsecs.
      apply bind_raise, pack_code_no_text. reflexivity.
    - apply bind_raise. exact Hparse. }
  split; [exact Hscript|].
  unfold packed_file, main. destruct (bool_decide _); [|reflexivity].
  rewrite Hscript. destruct (_ && _); reflexivity.
Qed.

Lemma no_sections_no_packed_file_witness :
  script asm4 (mkElf "a.elf" image_no_sections None None None) =
    (if (0 <=? e_type header_no_sections)
        && (e_type header_no_sections <=? 4)
     then (Raise AttributeError,
           mkElf "a.elf" image_no_sections (Some header_no_sections)
                 (Some []) None)
     else (Raise KeyError,
           mkElf "a.elf" image_no_sections (Some header_no_sections)
                 None None)) /\
  packed_file asm4 "a.elf" image_no_sections = None.
Proof.
  apply (no_sections_no_packed_file asm4 "a.elf" image_no_sections
           header_no_sections).
  - vm_compute. reflexivity.
  - vm_compute. discriminate.
Defined.

(** ** The section table parser: when it returns *)

(** One turn of the first loop of [parse_sections_header]. *)
Lemma table_step (d : list byte) (h : Ehdr) (i : Z) (sec : ElfSection)
    (table : list ElfSection) (s : Elf) :
  table_entry d h i = Ret sec -> sections s = Some (group table) ->
  (let* sec := lift (table_entry d h i) in
   let* secs := read_attr sections in
   let* secs' := lift (add_section secs sec) in
   modify (set_sections secs') ;;;
   if i =? e_shstrndx h
   then modify (set_string_table_offset (sh_offset sec))
   else ret tt)%method s
  = (Ret tt,
     if i =? e_shstrndx h
     then set_string_table_offset (sh_offset sec)
            (set_sections (group (table ++ [sec])) s)
     else set_sections (group (table ++ [sec])) s).
Proof.
  intros He Hs.
  erewrite bind_run by (unfold lift; rewrite He; reflexivity).
  erewrite bind_run by (unfold read_attr; rewrite Hs; reflexivity).
  erewrite bind_run by (unfold lift; rewrite add_section_group; reflexivity).
  erewrite bind_run by reflexivity.
  destruct (i =? e_shstrndx h); reflexivity.
Qed.

(** The first loop on a readable table. *)
Lemma table_loop_run (d : list byte) (h : Ehdr) :
  forall (rest : list Z) (table : list ElfSection) (s : Elf),
  forallb (fun i => match table_entry d h i with
                    | Ret _ => true
                    | _ => false
                    end) rest = true ->
  sections s = Some (group table) ->
  exists s',
    for_each rest (fun sec_index =>
      let* sec := lift (table_entry d h sec_index) in
      let* secs := read_attr sections in
      let* secs' := lift (add_section secs sec) in
      modify (set_sections secs') ;;;
      if sec_index =? e_shstrndx h
      then modify (set_string_table_offset (sh_offset sec))
      else ret tt)%method s = (Ret tt, s') /\
    elf_name s' = elf_name s /\ data s' = data s /\ header s' = header s /\
    sections s' =
      Some (group (table ++ flat_map (fun i => match table_entry d h i with
                                               | Ret sec => [sec]
                                               | _ => []
                                               end) rest)) /\
    string_table_offset s' =
      if decide (e_shstrndx h ∈ rest)
      then match table_entry d h (e_shstrndx h) with
           | Ret sec => Some (sh_offset sec)
           | _ => None
           end
      else string_table_offset s.
Proof.
  induction rest as [|i rest IH]; intros table s Hread Hs.
  - exists s. cbn [for_each flat_map]. rewrite app_nil_r.
    repeat split; (reflexivity || assumption).
  - cbn [forallb] in Hread. apply andb_prop in Hread as [Hi Hread].
    destruct (table_entry d h i) as [sec| |] eqn:He; try discriminate.
    cbn [for_each].
    erewrite bind_run by (apply table_step; eassumption).
    set (s1 := if i =? e_shstrndx h
               then set_string_table_offset (sh_offset sec)
                      (set_sections (group (table ++ [sec])) s)
               else set_sections (group (table ++ [sec])) s).
    assert (Hs1 : sections s1 = Some (group (table ++ [sec])))
      by (unfold s1; destruct (i =? _); reflexivity).
    destruct (IH (table ++ [sec]) s1 Hread Hs1)
      as (s' & Hrun & Hn & Hd & Hh & Hsecs & Hsto).
    exists s'. split; [exact Hrun|].
    split; [rewrite Hn; unfold s1; destruct (i =? _); reflexivity|].
    split; [rewrite Hd; unfold s1; destruct (i =? _); reflexivity|].
    split; [rewrite Hh; unfold s1; destruct (i =? _); reflexivity|].
    split.
    + rewrite Hsecs. cbn [flat_map]. rewrite He, <- app_assoc. reflexivity.
    + rewrite Hsto. unfold s1.
      destruct (Z.eqb_spec i (e_shstrndx h)) as [E|E].
      * destruct (decide (e_shstrndx h ∈ i :: rest)) as [_|Hn'];
          [|exfalso; apply Hn'; rewrite E; left].
        destruct (decide (e_shstrndx h ∈ rest)); [reflexivity|].
        rewrite <- E, He. reflexivity.
      * destruct (decide (e_shstrndx h ∈ rest)) as [Hin|Hout];
          destruct (decide (e_shstrndx h ∈ i :: rest)) as [Hin'|Hout'];
          try reflexivity.
        -- exfalso. apply Hout'. right. exact Hin.
        -- exfalso. apply elem_of_cons in Hin' as [?|?];
             [congruence|contradiction].
Qed.

(** The naming of the sections under one key, when each has a name in
    the buffer. *)
Lemma name_group_run (d : list byte) (sto : Z) (t : Z) :
  forall (l done : list ElfSection) (secs : dict (list ElfSection))
         (s : Elf),
  data s = d -> string_table_offset s = Some sto -> 0 <= sto ->
  Forall (fun sec => 0 <= sh_name sec) l ->
  Forall (fun sec => is_Some (resolve d sto sec)) l ->
  sections s = Some secs -> dict_get secs t = Some (done ++ l) ->
  name_group t (length done) l s =
  (Ret tt, set_sections (dict_set secs t (done ++ map (named d sto) l)) s).
Proof.
  induction l as [|sec l IH];
    intros done secs s Hd Hsto Hpos Hnames Hres Hsecs Hget.
  - cbn [name_group map]. rewrite dict_set_same by exact Hget.
    rewrite set_sections_same by exact Hsecs. reflexivity.
  - cbn [name_group map].
    inversion Hnames as [|? ? Hname Hnames']; subst.
    inversion Hres as [|? ? [str Hstr] Hres']; subst.
    assert (Hget_string :
      get_string (sh_name sec) s = (Ret str, s)).
    { rewrite (get_string_value _ sto) by (assumption || lia).
      unfold resolve in Hstr.
      destruct (until_zero _) as [bs|]; [|discriminate].
      injection Hstr as <-. reflexivity. }
    erewrite bind_run by exact Hget_string.
    erewrite bind_run by reflexivity.
    assert (Hs2 : set_section_name t (length done) str s =
                  set_sections
                    (dict_set secs t
                       ((done ++ [named (data s) sto sec]) ++ l)) s).
    { unfold set_section_name. rewrite Hsecs, Hget. do 2 f_equal.
      rewrite <- (Nat.add_0_r (length done)), alter_app_r.
      unfold named. rewrite Hstr, <- app_assoc. reflexivity. }
    rewrite Hs2.
    replace (S (length done))
      with (length (done ++ [named (data s) sto sec]))
      by (rewrite length_app; simpl; lia).
    rewrite (IH (done ++ [named (data s) sto sec])
                (dict_set secs t
                   ((done ++ [named (data s) sto sec]) ++ l)));
      try assumption; try reflexivity; [|apply dict_get_set_eq].
    rewrite dict_set_set, <- app_assoc. destruct s; reflexivity.
Qed.

(** The second loop on a table whose sections all have a name in the
    buffer. *)
Lemma names_loop_run (d : list byte) (sto : Z) (T : list ElfSection) :
  0 <= sto ->
  Forall (fun sec => 0 <= sh_name sec) T ->
  Forall (fun sec => is_Some (resolve d sto sec)) T ->
  forall (rest pre : list Z) (s : Elf),
  first_seen (map sh_type T) = pre ++ rest ->
  data s = d -> string_table_offset s = Some sto ->
  sections s =
    Some (map (fun u => (u, if decide (u ∈ pre)
                            then map (named d sto) (of_type u T)
                            else of_type u T))
              (first_seen (map sh_type T))) ->
  for_each rest (fun sec_type =>
    let* secs := read_attr sections in
    match dict_get secs sec_type with
    | Some l => name_group sec_type 0 l
    | None => lift (Raise TypeError)
    end)%method s =
  (Ret tt,
   set_sections
     (map (fun u => (u, if decide (u ∈ pre ++ rest)
                        then map (named d sto) (of_type u T)
                        else of_type u T))
          (first_seen (map sh_type T))) s).
Proof.
  intros Hpos Hnames Hres. set (K := first_seen (map sh_type T)).
  assert (HND : NoDup K) by apply first_seen_NoDup.
  induction rest as [|t rest IH]; intros pre s HK Hd Hsto Hs.
  - cbn [for_each]. rewrite app_nil_r.
    rewrite set_sections_same by exact Hs. reflexivity.
  - assert (HtK : t ∈ K)
      by (rewrite HK; apply elem_of_app; right; left).
    assert (Htpre : t ∉ pre).
    { rewrite HK in HND. apply NoDup_app in HND as (_ & Hdis & _).
      intros Hin. apply (Hdis t Hin). left. }
    cbn [for_each]. rewrite bind_assoc_run.
    erewrite bind_run by (unfold read_attr; rewrite Hs; reflexivity).
    rewrite (dict_get_map
               (fun u => if decide (u ∈ pre)
                         then map (named d sto) (of_type u T)
                         else of_type u T) K t HtK).
    destruct (decide (t ∈ pre)) as [?|_]; [contradiction|].
    assert (Hng : name_group t 0 (of_type t T) s =
      (Ret tt,
       set_sections
         (dict_set (map (fun u => (u, if decide (u ∈ pre)
                                      then map (named d sto) (of_type u T)
                                      else of_type u T)) K) t
                   ([] ++ map (named d sto) (of_type t T))) s)).
    { change 0%nat with (length (@nil ElfSection)).
      apply name_group_run; try assumption;
        try (apply of_type_Forall; assumption).
      rewrite (dict_get_map
                 (fun u => if decide (u ∈ pre)
                           then map (named d sto) (of_type u T)
                           else of_type u T) K t HtK).
      destruct (decide (t ∈ pre)) as [?|_]; [contradiction|].
      reflexivity. }
    erewrite bind_run by exact Hng.
    cbn [app].
    assert (Hmap :
      dict_set (map (fun u => (u, if decide (u ∈ pre)
                                  then map (named d sto) (of_type u T)
                                  else of_type u T)) K) t
               (map (named d sto) (of_type t T)) =
      map (fun u => (u, if decide (u ∈ pre ++ [t])
                        then map (named d sto) (of_type u T)
                        else of_type u T)) K).
    { rewrite <- (dict_set_map
        (fun u => if decide (u ∈ pre)
                  then map (named d sto) (of_type u T)
                  else of_type u T)
        (fun u => if decide (u ∈ pre ++ [t])
                  then map (named d sto) (of_type u T)
                  else of_type u T) K t HND HtK).
      - destruct (decide (t ∈ pre ++ [t])) as [_|Hn]; [reflexivity|].
        exfalso. apply Hn, elem_of_app. right. left.
      - intros u Hu.
        destruct (decide (u ∈ pre)) as [Hin|Hout];
          destruct (decide (u ∈ pre ++ [t])) as [Hin'|Hout'];
          try reflexivity.
        + exfalso. apply Hout', elem_of_app. left. exact Hin.
        + exfalso. apply elem_of_app in Hin' as [?|Hx]; [contradiction|].
          apply list_elem_of_singleton in Hx. contradiction. }
    rewrite Hmap.
    rewrite (IH (pre ++ [t])); try reflexivity.
    + rewrite <- app_assoc. destruct s; reflexivity.
    + rewrite <- app_assoc. exact HK.
    + exact Hd.
    + exact Hsto.
Qed.

Lemma forallb_Forall {A} (f : A -> bool) (P : A -> Prop) (l : list A) :
  (forall x, f x = true -> P x) -> forallb f l = true -> Forall P l.
Proof.
  intros HfP H. apply Forall_forall. intros x Hx. apply HfP.
  eapply forallb_elem; eassumption.
Qed.

Lemma resolvable_table_Forall d h sto :
  resolvable_table d h sto = true ->
  Forall (fun sec => is_Some (resolve d sto sec)) (section_table d h).
Proof.
  apply forallb_Forall. intros sec.
  destruct (resolve d sto sec); [eauto|discriminate].
Qed.

Lemma parse_sections_header_run (self : Elf) (h : Ehdr) (sto : Z) :
  header self = Some h ->
  readable_table (data self) h = true ->
  strtab_offset (data self) h = Some sto ->
  resolvable_table (data self) h sto = true ->
  parse_sections_header self =
  (Ret tt,
   mkElf (elf_name self) (data self) (Some h)
         (Some (named_group (data self) sto
                            (section_table (data self) h)))
         (Some sto)).
Proof.
  intros Hh Hread Hoff Hres. unfold parse_sections_header.
  erewrite bind_run by reflexivity.
  assert (Hheader : read_attr header (set_sections [] self) =
                    (Ret h, set_sections [] self))
    by (unfold read_attr, set_sections; cbn [header]; rewrite Hh;
        reflexivity).
  erewrite bind_run by exact Hheader.
  erewrite bind_run by reflexivity.
  change (data (set_sections [] self)) with (data self).
  set (d := data self) in *.
  destruct (table_loop_run d h (range 1 (e_shnum h)) []
              (set_sections [] self) Hread eq_refl)
    as (s1 & Hrun & Hn1 & Hd1 & Hh1 & Hs1 & Hsto1).
  erewrite bind_run by exact Hrun.
  erewrite bind_run by (unfold read_attr; rewrite Hs1; reflexivity).
  cbn [app] in Hs1. fold (section_table d h) in Hs1.
  cbn [app]. fold (section_table d h).
  rewrite keys_group.
  assert (Hsto1' : string_table_offset s1 = Some sto).
  { rewrite Hsto1, <- Hoff. unfold strtab_offset in *.
    destruct (decide _) as [Hin|Hout].
    - apply elem_of_range in Hin.
      destruct (Z.leb_spec 1 (e_shstrndx h)); [|lia].
      destruct (Z.ltb_spec (e_shstrndx h) (e_shnum h)); [|lia].
      reflexivity.
    - exfalso.
      destruct (Z.leb_spec 1 (e_shstrndx h)); [|discriminate].
      destruct (Z.ltb_spec (e_shstrndx h) (e_shnum h)); [|discriminate].
      apply Hout, elem_of_range. lia. }
  clear Hsto1. rename Hsto1' into Hsto1.
  assert (Hpos : 0 <= sto) by (eapply strtab_offset_nonneg, Hoff).
  rewrite (names_loop_run d sto (section_table d h) Hpos
             (section_table_names d h)
             (resolvable_table_Forall d h sto Hres)
             (first_seen (map sh_type (section_table d h))) [] s1
             eq_refl Hd1 Hsto1).
  - destruct s1 as [n1 d1 h1 secs1 sto1]. cbn in Hn1, Hd1, Hh1.
    unfold set_sections. cbn [elf_name data header string_table_offset].
    cbn in Hsto1. subst. rewrite Hh. f_equal. f_equal. f_equal.
    unfold named_group. apply map_ext_in. intros u Hu.
    apply list_elem_of_In in Hu.
    destruct (decide _) as [_|Hn]; [reflexivity|contradiction].
  - rewrite Hs1. unfold group. f_equal.
Qed.

(** X3: [parse_sections_header] returns when the table can be read, its
    header [e_shstrndx] is among those visited, and every section has a
    zero-terminated name in the buffer.  It leaves the table grouped by
    type, each section with its name, and the offset of the string
    table. *)
Theorem parse_sections_header_returns (self : Elf) (h : Ehdr) (sto : Z) :
  header self = Some h ->
  readable_table (data self) h = true ->
  strtab_offset (data self) h = Some sto ->
  resolvable_table (data self) h sto = true ->
  parse_sections_header self =
  (Ret tt,
   mkElf (elf_name self) (data self) (Some h)
         (Some (named_group (data self) sto
                            (section_table (data self) h)))
         (Some sto)).
Proof. exact (parse_sections_header_run self h sto). Qed.

Lemma parse_sections_header_returns_witness :
  parse_sections_header (snd (parse_header (fresh image_text_data))) =
  (Ret tt,
   mkElf (elf_name (snd (parse_header (fresh image_text_data))))
         (data (snd (parse_header (fresh image_text_data))))
         (Some header_text_data)
         (Some (named_group
                  (data (snd (parse_header (fresh image_text_data)))) 236
                  (section_table
                     (data (snd (parse_header (fresh image_text_data))))
                     header_text_data)))
         (Some 236)).
Proof.
  apply (parse_sections_header_returns
           (snd (parse_header (fresh image_text_data)))
           header_text_data 236).
  - vm_compute. reflexivity.
  - vm_compute. reflexivity.
  - vm_compute. reflexivity.
  - vm_compute. reflexivity.
Defined.

(** ** The section table parser: when it fails *)

Lemma table_entry_raises d h i e :
  table_entry d h i = Raise e -> e = StructError.
Proof.
  unfold table_entry, unpack_shdr. destruct (decide _); [discriminate|].
  intros [= <-]. reflexivity.
Qed.

Lemma table_entry_ends d h i : table_entry d h i <> OutOfFuel.
Proof.
  unfold table_entry, unpack_shdr. destruct (decide _); discriminate.
Qed.

(** The first loop on a table with a header that cannot be read. *)
Lemma table_loop_raise (d : list byte) (h : Ehdr) :
  forall (rest : list Z) (table : list ElfSection) (s : Elf),
  forallb (fun i => match table_entry d h i with
                    | Ret _ => true
                    | _ => false
                    end) rest = false ->
  sections s = Some (group table) ->
  exists s',
    for_each rest (fun sec_index =>
      let* sec := lift (table_entry d h sec_index) in
      let* secs := read_attr sections in
      let* secs' := lift (add_section secs sec) in
      modify (set_sections secs') ;;;
      if sec_index =? e_shstrndx h
      then modify (set_string_table_offset (sh_offset sec))
      else ret tt)%method s = (Raise StructError, s') /\
    data s' = data s /\ header s' = header s.
Proof.
  induction rest as [|i rest IH]; intros table s Hread Hs;
    [discriminate|].
  cbn [forallb for_each] in *.
  assert (Hcase : (exists sec, table_entry d h i = Ret sec) \/
                  table_entry d h i = Raise StructError).
  { destruct (table_entry d h i) as [sec|e|] eqn:He; [eauto| |].
    - right. f_equal. eapply table_entry_raises, He.
    - exfalso. exact (table_entry_ends d h i He). }
  destruct Hcase as [[sec He]|He].
  - rewrite He in Hread. simpl in Hread.
    erewrite bind_run by (apply table_step; eassumption).
    set (s1 := if i =? e_shstrndx h
               then set_string_table_offset (sh_offset sec)
                      (set_sections (group (table ++ [sec])) s)
               else set_sections (group (table ++ [sec])) s).
    assert (Hs1 : sections s1 = Some (group (table ++ [sec])))
      by (unfold s1; destruct (i =? _); reflexivity).
    destruct (IH (table ++ [sec]) s1 Hread Hs1) as (s' & Hrun & Hd & Hh).
    exists s'. split; [exact Hrun|].
    rewrite Hd, Hh. unfold s1. destruct (i =? _); split; reflexivity.
  - exists s. split; [|split; reflexivity].
    apply bind_raise, bind_raise. unfold lift. rewrite He. reflexivity.
Qed.

(** X7: When one of the section headers 1 to [e_shnum - 1] cannot be read as
    forty bytes (the table is cut short by the end of the buffer, or
    [e_shentsize] is not 40), [parse_sections_header] raises the error of
    [unpack]; the buffer and the header fields stay as they were. *)
Theorem parse_sections_header_unreadable (self : Elf) (h : Ehdr) :
  header self = Some h ->
  readable_table (data self) h = false ->
  exists st,
    parse_sections_header self = (Raise StructError, st) /\
    data st = data self /\ header st = Some h.
Proof.
  intros Hh Hread. unfold parse_sections_header.
  erewrite bind_run by reflexivity.
  assert (Hheader : read_attr header (set_sections [] self) =
                    (Ret h, set_sections [] self))
    by (unfold read_attr, set_sections; cbn [header]; rewrite Hh;
        reflexivity).
  erewrite bind_run by exact Hheader.
  erewrite bind_run by reflexivity.
  change (data (set_sections [] self)) with (data self).
  destruct (table_loop_raise (data self) h (range 1 (e_shnum h)) []
              (set_sections [] self) Hread eq_refl)
    as (s1 & Hrun & Hd1 & Hh1).
  exists s1. split; [apply bind_raise; exact Hrun|].
  split; [exact Hd1|]. rewrite Hh1. exact Hh.
Qed.

Lemma parse_sections_header_unreadable_witness :
  exists st,
    parse_sections_header
      (snd (parse_header (fresh (take 100 image_text_data))))
      = (Raise StructError, st) /\
    data st = data (snd (parse_header (fresh (take 100 image_text_data)))) /\
    header st = Some header_text_data.
Proof.
  apply (parse_sections_header_unreadable
           (snd (parse_header (fresh (take 100 image_text_data))))
           header_text_data).
  - vm_compute. reflexivity.
  - vm_compute. reflexivity.
Defined.

(** X8: When the table can be read and holds a section, but [e_shstrndx] is
    not one of the indices 1 to [e_shnum - 1], no statement assigns
    [string_table_offset]: [parse_sections_header] files every section
    and then raises [AttributeError] at the first name, so the sections
    stay without names. *)
Theorem parse_sections_header_without_strtab (self : Elf) (h : Ehdr) :
  header self = Some h -> string_table_offset self = None ->
  readable_table (data self) h = true ->
  2 <= e_shnum h ->
  ~ (1 <= e_shstrndx h < e_shnum h) ->
  parse_sections_header self =
  (Raise AttributeError,
   mkElf (elf_name self) (data self) (Some h)
         (Some (group (section_table (data self) h))) None).
Proof.
  intros Hh Hsto Hread Hnum Hndx. unfold parse_sections_header.
  erewrite bind_run by reflexivity.
  assert (Hheader : read_attr header (set_sections [] self) =
                    (Ret h, set_sections [] self))
    by (unfold read_attr, set_sections; cbn [header]; rewrite Hh;
        reflexivity).
  erewrite bind_run by exact Hheader.
  erewrite bind_run by reflexivity.
  change (data (set_sections [] self)) with (data self).
  set (d := data self) in *.
  destruct (table_loop_run d h (range 1 (e_shnum h)) []
              (set_sections [] self) Hread eq_refl)
    as (s1 & Hrun & Hn1 & Hd1 & Hh1 & Hs1 & Hsto1).
  erewrite bind_run by exact Hrun.
  erewrite bind_run by (unfold read_attr; rewrite Hs1; reflexivity).
  cbn [app] in Hs1. fold (section_table d h) in Hs1.
  cbn [app]. fold (section_table d h).
  destruct (decide (e_shstrndx h ∈ range 1 (e_shnum h))) as [Hin|_];
    [apply elem_of_range in Hin; lia|].
  change (string_table_offset (set_sections [] self))
    with (string_table_offset self) in Hsto1.
  rewrite Hsto in Hsto1.
  assert (Hs1eq : s1 = mkElf (elf_name self) d (Some h)
                         (Some (group (section_table d h))) None).
  { destruct s1 as [n1 d1 h1 secs1 sto1]. cbn in *. subst.
    rewrite Hh. reflexivity. }
  rewrite keys_group.
  (* the table is not empty *)
  assert (Hfirst : exists sec, table_entry d h 1 = Ret sec).
  { unfold readable_table in Hread.
    assert (Hin : 1 ∈ range 1 (e_shnum h)) by (apply elem_of_range; lia).
    pose proof (forallb_elem _ _ _ Hread Hin) as H1. simpl in H1.
    destruct (table_entry d h 1) as [sec| |]; [eauto|discriminate..]. }
  destruct Hfirst as [sec1 Hsec1].
  assert (HT : exists T', section_table d h = sec1 :: T').
  { unfold section_table, range.
    destruct (Z.to_nat (e_shnum h - 1)) as [|n] eqn:En; [lia|].
    cbn [seq map flat_map]. change (1 + Z.of_nat 0) with 1.
    rewrite Hsec1. eauto. }
  destruct HT as [T' HT].
  assert (HK : exists K', first_seen (map sh_type (section_table d h))
                          = sh_type sec1 :: K')
    by (rewrite HT; cbn [map first_seen]; eauto).
  destruct HK as [K' HK]. rewrite HK. cbn [for_each].
  rewrite Hs1eq. apply bind_raise. 
  erewrite bind_run by reflexivity.
  assert (Hk : sh_type sec1 ∈ first_seen (map sh_type (section_table d h)))
    by (rewrite HK; left).
  unfold group at 1. rewrite (dict_get_map _ _ _ Hk).
  destruct (of_type_present (sh_type sec1) (section_table d h)
              (proj1 (elem_of_first_seen _ _) Hk)) as (x & l & Hl).
  rewrite Hl. cbn [name_group].
  apply bind_raise. apply get_string_unset. reflexivity.
Qed.

Lemma parse_sections_header_without_strtab_witness :
  parse_sections_header (snd (parse_header (fresh image_no_strtab))) =
  (Raise AttributeError,
   mkElf (elf_name (snd (parse_header (fresh image_no_strtab))))
         (data (snd (parse_header (fresh image_no_strtab))))
         (Some header_no_strtab)
         (Some (group (section_table
                         (data (snd (parse_header (fresh image_no_strtab))))
                         header_no_strtab)))
         None).
Proof.
  apply (parse_sections_header_without_strtab
           (snd (parse_header (fresh image_no_strtab))) header_no_strtab).
  - vm_compute. reflexivity.
  - vm_compute. reflexivity.
  - vm_compute. reflexivity.
  - vm_compute. discriminate.
  - vm_compute. intros [H _]. apply H. reflexivity.
Defined.

(** ** The two writers of the buffer *)

Lemma set_slice_nonneg {A} (l v : list A) (a b : Z) :
  0 <= a <= b ->
  set_slice l a b v = take (Z.to_nat a) l ++ v ++ drop (Z.to_nat b) l.
Proof.
  intros Hab. unfold set_slice, clamp.
  destruct (Z.ltb_spec a 0); [lia|]. destruct (Z.ltb_spec b 0); [lia|].
  unfold len.
  destruct (Z.le_gt_cases a (Z.of_nat (length l))) as [Ha|Ha];
    destruct (Z.le_gt_cases b (Z.of_nat (length l))) as [Hb|Hb];
    try lia.
  - rewrite !Z.min_l by lia.
    replace (Nat.max (Z.to_nat a) (Z.to_nat b)) with (Z.to_nat b) by lia.
    reflexivity.
  - rewrite (Z.min_l a) by lia. rewrite (Z.min_r b) by lia.
    rewrite Nat2Z.id.
    replace (Nat.max (Z.to_nat a) (length l)) with (length l) by lia.
    rewrite !drop_ge by lia. reflexivity.
  - rewrite !Z.min_r by lia. rewrite Nat2Z.id, Nat.max_id.
    rewrite !take_ge by lia. rewrite !drop_ge by lia. reflexivity.
Qed.

(** X16: [change_ep] with an address of 32 bits writes its four bytes after
    the first 24 bytes of the buffer and keeps what lies from byte 28 on;
    a buffer of fewer than 28 bytes grows, and no [IndexError] is raised.
    The header fields of the object, [e_entry] among them, and the
    sections stay as they were. *)
Theorem change_ep_writes_the_buffer_only (V : Z) (self : Elf) :
  0 <= V < 2 ^ 32 ->
  exists st,
    change_ep V self = (Ret tt, st) /\
    data st = take 24 (data self) ++ le32 V ++ drop 28 (data self) /\
    len (data st) = Z.max (len (data self))
                          (Z.min (len (data self)) 24 + 4) /\
    header st = header self /\ sections st = sections self /\
    string_table_offset st = string_table_offset self.
Proof.
  intros HV. eexists. split; [apply change_ep_run, HV|].
  cbn [data header sections string_table_offset set_data].
  rewrite set_slice_nonneg by lia.
  change (Z.to_nat 24) with 24%nat. change (Z.to_nat (24 + 4)) with 28%nat.
  repeat split. unfold len.
  rewrite !length_app, length_take, length_drop. cbn [length le32]. lia.
Qed.

Lemma change_ep_writes_the_buffer_only_witness :
  exists st,
    change_ep 0x08049000 (fresh [x7f; x45; x4c]) = (Ret tt, st) /\
    data st = take 24 (data (fresh [x7f; x45; x4c])) ++ le32 0x08049000
              ++ drop 28 (data (fresh [x7f; x45; x4c])) /\
    len (data st) = Z.max (len (data (fresh [x7f; x45; x4c])))
                          (Z.min (len (data (fresh [x7f; x45; x4c]))) 24
                           + 4) /\
    header st = header (fresh [x7f; x45; x4c]) /\
    sections st = sections (fresh [x7f; x45; x4c]) /\
    string_table_offset st = string_table_offset (fresh [x7f; x45; x4c]).
Proof.
  apply (change_ep_writes_the_buffer_only 0x08049000
           (fresh [x7f; x45; x4c])).
  lia.
Defined.

(** X18: Once the script has assigned [unpacker_off], with an offset that is
    not negative, [write_unpacker] never fails: it replaces as many bytes
    from that offset on as the stub has, where the buffer has them, and
    the buffer grows when the stub reaches past its end. *)
Theorem write_unpacker_at_global_offset (u off : Z) (asm : list byte)
    (self : Elf) :
  0 <= u ->
  exists st,
    write_unpacker (Some u) asm off self = (Ret tt, st) /\
    data st = take (Z.to_nat u) (data self) ++ asm
              ++ drop (Z.to_nat (u + len asm)) (data self) /\
    len (data st) = Z.max (len (data self))
                          (Z.min u (len (data self)) + len asm) /\
    header st = header self /\ sections st = sections self.
Proof.
  intros Hu. pose proof (len_nonneg asm) as Hasm.
  eexists. split; [apply write_unpacker_run|].
  cbn [data header sections set_data].
  rewrite set_slice_nonneg by lia.
  repeat split. unfold len in *.
  rewrite !length_app, length_take, length_drop. lia.
Qed.

Lemma write_unpacker_at_global_offset_witness :
  exists st,
    write_unpacker (Some 2) stub4 0 (fresh [x01; x02; x03]) = (Ret tt, st) /\
    data st = take (Z.to_nat 2) (data (fresh [x01; x02; x03])) ++ stub4
              ++ drop (Z.to_nat (2 + len stub4))
                      (data (fresh [x01; x02; x03])) /\
    len (data st) = Z.max (len (data (fresh [x01; x02; x03])))
                          (Z.min 2 (len (data (fresh [x01; x02; x03])))
                           + len stub4) /\
    header st = header (fresh [x01; x02; x03]) /\
    sections st = sections (fresh [x01; x02; x03]).
Proof.
  apply (write_unpacker_at_global_offset 2 0 stub4 (fresh [x01; x02; x03])).
  lia.
Defined.

(** ** The search after the encoding *)

(** X23: The script searches its cave in the buffer as [pack_code] left it.
    So the bytes the stub replaces were zero in the input where they lie
    outside [.text], and [0xa5] where they lie in [.text]: a run of
    [0xa5] in the code of the input counts as a cave. *)
Theorem cave_bytes_in_input (asm : string -> outcome (list byte))
    (fname : string) (elf_data out : list byte) :
  main asm fname elf_data = Ret out ->
  exists stub st text_sec addr off,
    before_cave asm (mkElf fname elf_data None None None) = (Ret stub, st) /\
    fst (get_section ".text" st) = Ret (Some text_sec) /\
    fst (find_cave (len stub) st) = Ret (Some (addr, off)) /\
    forall k, 0 <= k < len stub ->
      elf_data !! Z.to_nat (off + k) =
      Some (if inside text_sec (off + k) then xa5 else x00).
Proof.
  unfold main. destruct (bool_decide _); [|discriminate].
  destruct (script asm (mkElf fname elf_data None None None))
    as [o s_end] eqn:Hscript. simpl.
  intros ->.
  destruct (script_inv _ _ _ _ _ Hscript)
    as (h & secs & text_sec & stub & st & addr & off & _ & _ & _
        & Hbefore & _ & Hsecs & Hall & _ & Htext & Hdata & _ & Hfind & _).
  exists stub, st, text_sec, addr, off.
  repeat (split; [assumption|]).
  intros k Hk.
  destruct (find_cave_found_inv (len stub) st secs (addr, off) Hsecs Hall
              ltac:(lia) Hfind) as (sec & O & Hin & Hfirst & [= -> ->]).
  pose proof (scan_order_all _ _ Hall) as Huns.
  rewrite Forall_forall in Huns. destruct (Huns sec Hin) as [Hoff _].
  destruct (get_section_unsigned ".text" st text_sec
              (ex_intro _ secs (conj Hsecs Hall)) Htext) as [Htoff _].
  apply first_run_true in Hfirst as [Hrun _].
  apply run_at_true in Hrun as (HO & _ & Hzero).
  specialize (Hzero k Hk). rewrite Hdata, xor_region_lookup in Hzero.
  unfold inside.
  destruct (decide _) as [Hreg|Hreg].
  - destruct (Z.leb_spec (sh_offset text_sec) (sh_offset sec + O + k));
      [|lia].
    destruct (Z.ltb_spec (sh_offset sec + O + k)
                         (sh_offset text_sec + sh_size text_sec)); [|lia].
    simpl.
    destruct (elf_data !! Z.to_nat (sh_offset sec + O + k)) as [b|];
      [|discriminate].
    simpl in Hzero. injection Hzero as Hb. f_equal.
    rewrite <- (xor_byte_involutive 0xa5 b) by lia. rewrite Hb.
    reflexivity.
  - replace ((sh_offset text_sec <=? sh_offset sec + O + k)
             && (sh_offset sec + O + k
                 <? sh_offset text_sec + sh_size text_sec)) with false.
    + exact Hzero.
    + symmetry. apply andb_false_iff.
      destruct (Z.leb_spec (sh_offset text_sec) (sh_offset sec + O + k));
        [|left; reflexivity].
      right. apply Z.ltb_ge. lia.
Qed.

Lemma cave_bytes_in_input_witness :
  exists stub st text_sec addr off,
    before_cave asm4 (mkElf "a.elf" image_text_data None None None)
      = (Ret stub, st) /\
    fst (get_section ".text" st) = Ret (Some text_sec) /\
    fst (find_cave (len stub) st) = Ret (Some (addr, off)) /\
    forall k, 0 <= k < len stub ->
      image_text_data !! Z.to_nat (off + k) =
      Some (if inside text_sec (off + k) then xa5 else x00).
Proof.
  apply (cave_bytes_in_input asm4 "a.elf" image_text_data packed_text_data).
  vm_compute. reflexivity.
Defined.

(** ** The script: when it writes its file *)

Lemma section_table_elem d h sec :
  sec ∈ section_table d h -> exists i, table_entry d h i = Ret sec.
Proof.
  unfold section_table. intros Hs.
  apply list_elem_of_In, in_flat_map in Hs. destruct Hs as (i & _ & Hin).
  exists i. destruct (table_entry d h i) as [x| |];
    [|destruct Hin|destruct Hin].
  destruct Hin as [<-|[]]. reflexivity.
Qed.

Lemma named_group_words d h sto :
  Forall word_section (scan_order (named_group d sto (section_table d h))).
Proof.
  rewrite scan_order_named_group. apply Forall_forall. intros sec Hsec.
  apply list_elem_of_fmap in Hsec as (x & -> & Hx).
  apply by_type_elem, section_table_elem in Hx as [i Hi].
  apply word_section_named. eapply table_entry_word, Hi.
Qed.

Lemma named_group_has_names d h sto :
  resolvable_table d h sto = true ->
  forallb has_name (scan_order (named_group d sto (section_table d h)))
    = true.
Proof.
  intros Hres. rewrite scan_order_named_group. apply forallb_forall.
  intros sec Hsec. apply in_map_iff in Hsec as (x & <- & Hx).
  apply list_elem_of_In, by_type_elem in Hx.
  pose proof (forallb_elem _ _ _ Hres Hx) as Hr. simpl in Hr.
  unfold named. destruct (resolve d sto x); [reflexivity|discriminate].
Qed.

Lemma word_section_fields sec :
  word_section sec ->
  0 <= sh_addr sec < 2 ^ 32 /\ 0 <= sh_offset sec /\ 0 <= sh_size sec.
Proof.
  unfold word_section. rewrite Forall_forall. intros H.
  assert (Ha : 0 <= sh_addr sec < 2 ^ 32) by (apply H; do 3 right; left).
  assert (Ho : 0 <= sh_offset sec < 2 ^ 32) by (apply H; do 4 right; left).
  assert (Hs : 0 <= sh_size sec < 2 ^ 32) by (apply H; do 5 right; left).
  lia.
Qed.

(** X19: The script writes a packed file whenever: the input starts with the
    ELF magic and has a header with a known type; its section table can
    be read and every section has a name; [.text] lies inside the file;
    the assembler returns a stub of at least one byte; and, after the
    encoding, some section holds a run of zero bytes as long as the stub
    while the sections searched before it lie in the file and hold none.
    The file written is the encoded buffer with the address of the run
    at bytes 24 to 27 and the stub on the run. *)
Theorem script_writes_the_packed_file (asm : string -> outcome (list byte))
    (fname : string) (elf_data stub : list byte) (h : Ehdr) (sto : Z)
    (text_sec sec : ElfSection) (pre post : list ElfSection) (O : Z) :
  slice elf_data 0 4 = ELF_MAGIC ->
  unpack_ehdr (take 52 elf_data) = Ret h ->
  0 <= e_type h <= 4 ->
  readable_table elf_data h = true ->
  strtab_offset elf_data h = Some sto ->
  resolvable_table elf_data h sto = true ->
  List.find (fun s => bool_decide (name s = Some ".text"%string))
            (scan_order (named_group elf_data sto
                                     (section_table elf_data h)))
    = Some text_sec ->
  sh_offset text_sec + sh_size text_sec <= len elf_data ->
  asm (unpacker_source (4096 * (sh_addr text_sec / 4096))
                       (sh_size text_sec) (sh_addr text_sec) (e_entry h))
    = Ret stub ->
  1 <= len stub ->
  scan_order (named_group elf_data sto (section_table elf_data h))
    = pre ++ sec :: post ->
  forallb (no_cave_in
             (xor_region 0xa5 elf_data (Z.to_nat (sh_offset text_sec))
                         (Z.to_nat (sh_size text_sec)))
             (len stub)) pre = true ->
  first_run (xor_region 0xa5 elf_data (Z.to_nat (sh_offset text_sec))
                        (Z.to_nat (sh_size text_sec)))
            sec (len stub) O = true ->
  sh_addr sec + O < 2 ^ 32 ->
  main asm fname elf_data =
  Ret (set_slice
         (set_slice (xor_region 0xa5 elf_data
                       (Z.to_nat (sh_offset text_sec))
                       (Z.to_nat (sh_size text_sec)))
                    24 (24 + 4) (le32 (sh_addr sec + O)))
         (sh_offset sec + O) (sh_offset sec + O + len stub) stub).
Proof.
  intros Hmagic Hh Hty Hread Hoff Hres Hfind Hfit Hasm Hlen Hscan Hquiet
         Hfirst Haddr.
  set (secs := named_group elf_data sto (section_table elf_data h)) in *.
  set (packed := xor_region 0xa5 elf_data (Z.to_nat (sh_offset text_sec))
                            (Z.to_nat (sh_size text_sec))) in *.
  set (self0 := mkElf fname elf_data None None None).
  set (st2 := mkElf fname elf_data (Some h) (Some secs) (Some sto)).
  set (st3 := set_data packed st2).
  pose proof (named_group_words elf_data h sto) as Hwords.
  pose proof (named_group_has_names elf_data h sto Hres) as Hnames.
  fold secs in Hwords, Hnames. rewrite Forall_forall in Hwords.
  assert (Htin : text_sec ∈ scan_order secs)
    by (apply list_elem_of_In; eapply find_some, Hfind).
  assert (Hsin : sec ∈ scan_order secs)
    by (rewrite Hscan; apply elem_of_app; right; left).
  destruct (word_section_fields _ (Hwords _ Htin)) as (Hta & Hto & Hts).
  destruct (word_section_fields _ (Hwords _ Hsin)) as (Hsa & Hso & Hss).
  assert (H1 : parse_header self0 = (Ret tt, set_header h self0)).
  { rewrite parse_header_unfold. cbn [data self0]. rewrite Hh.
    destruct (proj2 (etype_known (e_type h)) Hty) as [ty Hk].
    rewrite Hk. reflexivity. }
  assert (H2 : parse_sections_header (set_header h self0) = (Ret tt, st2))
    by (apply (parse_sections_header_run (set_header h self0) h sto);
        [reflexivity|exact Hread|exact Hoff|exact Hres]).
  assert (Htext : fst (get_section ".text" st2) = Ret (Some text_sec))
    by (rewrite (get_section_find st2 secs ".text" eq_refl Hnames), Hfind;
        reflexivity).
  assert (H3 : pack_code 0xa5 st2 = (Ret tt, st3))
    by (apply pack_code_run; [exact Htext|exact Hto|exact Hfit|lia]).
  assert (Htext3 : fst (get_section ".text" st3) = Ret (Some text_sec))
    by (rewrite <- Htext; apply get_section_sections; reflexivity).
  assert (H4 : create_unpacker asm st3 = (Ret stub, st3))
    by (rewrite (create_unpacker_run asm st3 text_sec h Htext3 eq_refl Hta),
          Hasm; reflexivity).
  assert (HO : 0 <= O).
  { apply first_run_true in Hfirst as [Hrun _].
    apply run_at_true in Hrun. lia. }
  assert (H5 : find_cave (len stub) st3 =
               (Ret (Some (sh_addr sec + O, sh_offset sec + O)), st3)).
  { rewrite (find_cave_scan (len stub) st3 secs eq_refl). f_equal.
    change (data st3) with packed. rewrite Hscan.
    apply cave_in_group_found.
    - apply (forallb_Forall (no_cave_in packed (len stub))); [|exact Hquiet].
      intros x Hx. apply cave_in_section_no_cave; [exact Hlen| |exact Hx].
      eapply no_cave_in_offset, Hx.
    - apply cave_in_section_first_run;
        [exact Hlen|exact Hso|exact Hfirst|].
      pose proof (forallb_elem _ _ _ Hnames Hsin) as Hn.
      unfold has_name in Hn. destruct (name sec); [eauto|discriminate]. }
  unfold main. rewrite (bool_decide_eq_true_2 _ Hmagic).
  fold self0. unfold script.
  erewrite bind_run by exact H1.
  erewrite bind_run by exact H2.
  erewrite bind_run by exact H3.
  erewrite bind_run by exact H4.
  erewrite bind_run by exact H5.
  cbv iota beta.
  erewrite bind_run by (apply change_ep_run; lia).
  erewrite bind_run by apply write_unpacker_run.
  reflexivity.
Qed.

Lemma script_writes_the_packed_file_witness :
  main asm4 "a.elf" image_text_data =
  Ret (set_slice
         (set_slice (xor_region 0xa5 image_text_data
                       (Z.to_nat (sh_offset text_section))
                       (Z.to_nat (sh_size text_section)))
                    24 (24 + 4) (le32 (sh_addr data_section + 0)))
         (sh_offset data_section + 0)
         (sh_offset data_section + 0 + len stub4) stub4).
Proof.
  apply (script_writes_the_packed_file asm4 "a.elf" image_text_data stub4
           header_text_data 236 text_section data_section
           [text_section] [shstrtab_section] 0).
  - vm_compute. reflexivity.
  - vm_compute. reflexivity.
  - vm_compute. split; discriminate.
  - vm_compute. reflexivity.
  - vm_compute. reflexivity.
  - vm_compute. reflexivity.
  - vm_compute. reflexivity.
  - vm_compute. discriminate.
  - vm_compute. reflexivity.
  - vm_compute. discriminate.
  - vm_compute. reflexivity.
  - vm_compute. reflexivity.
  - vm_compute. reflexivity.
  - vm_compute. reflexivity.
Defined.
